(** * Outline parser (outline_parser_replit.py): embedding and properties

    The Python module works on [str] values.  Here a text is a list of
    8-bit characters, read as the code points U+0000..U+00FF; the character
    classes of the interpreter ([str.isspace], the line boundaries of
    [str.splitlines], the decimal digits of [\d] and [int], the digit
    characters of [str.isdigit], [str.upper]) are written out for that range.
    Integers are unbounded ([Z]), as Python's are; the conversions between
    texts and integers, [int] and [str], raise ValueError for more than 4300
    digits, the interpreter's default limit. *)

From Stdlib Require Import List Ascii String ZArith Lia Bool Arith.
From Stdlib Require Import DecimalNat.
From Stdlib Require DecimalFacts.
Import ListNotations.

Set Implicit Arguments.

(** ** Characters and texts *)

Definition str := list ascii.

(** A string literal as a text. *)
Definition py (s : string) : str := list_ascii_of_string s.
Arguments py s%_string.

Definition ord (c : ascii) : N := N_of_ascii c.

Definition in_range (lo hi n : N) : bool := (N.leb lo n && N.leb n hi)%bool.

(** [str.isspace] on one character, which is also the class [\s] of [re]
    for text patterns: TAB..CR, FS..US, space, NEL, NBSP. *)
Definition isspace_char (c : ascii) : bool :=
  let n := ord c in
  in_range 9 13 n || in_range 28 32 n || N.eqb n 133 || N.eqb n 160.

(** The line boundaries of [str.splitlines]: LF, VT, FF, CR, FS, GS, RS, NEL. *)
Definition is_linebreak (c : ascii) : bool :=
  let n := ord c in
  in_range 10 13 n || in_range 28 30 n || N.eqb n 133.

(** The class [\d] (Unicode decimal digits), which is [0-9] in this range. *)
Definition isdecimal_char (c : ascii) : bool := in_range 48 57 (ord c).

(** [str.isdigit] on one character: the decimal digits and the superscript
    digits U+00B2, U+00B3, U+00B9. *)
Definition isdigit_char (c : ascii) : bool :=
  let n := ord c in
  isdecimal_char c || N.eqb n 178 || N.eqb n 179 || N.eqb n 185.

(** [str.isdigit]: at least one character, all of them digit characters. *)
Definition isdigit (s : str) : bool :=
  match s with
  | [] => false
  | _ => forallb isdigit_char s
  end.

(** The value of a decimal digit. *)
Definition digit_value (c : ascii) : Z := Z.of_N (ord c) - 48.

(** The largest number of digits that [int] reads from a text and that
    [str] writes for a number: the default of
    [sys.get_int_max_str_digits()]. *)
Definition int_max_str_digits : Z := 4300.

(** [int(s)] for a text on which [isdigit] holds: the value in base 10 when
    every character is a decimal digit and there are no more of them than
    [int_max_str_digits], [None] (ValueError) otherwise. *)
Definition int (s : str) : option Z :=
  match s with
  | [] => None
  | _ =>
      if forallb isdecimal_char s
      then
        if (Z.of_nat (List.length s) <=? int_max_str_digits)%Z
        then Some (fold_left (fun acc c => acc * 10 + digit_value c) s 0)%Z
        else None
      else None
  end.

(** [str.upper], as code points: the upper-case form of a character of this
    range may be two characters (U+00DF) or lie outside the range
    (U+00B5, U+00FF). *)
Definition upper_char (c : ascii) : list N :=
  let n := ord c in
  if in_range 97 122 n then [n - 32]%N
  else if N.eqb n 223 then [83; 83]%N
  else if N.eqb n 181 then [924]%N
  else if N.eqb n 255 then [376]%N
  else if in_range 224 254 n && negb (N.eqb n 247) then [n - 32]%N
  else [n].

Definition upper (s : str) : list N := flat_map upper_char s.

(** ** convert_to_number *)

(** [roman_map], a dict from characters to values. *)
Definition roman_map : list (N * Z) :=
  [(73%N, 1%Z); (86%N, 5%Z); (88%N, 10%Z); (76%N, 50%Z); (67%N, 100%Z);
   (68%N, 500%Z); (77%N, 1000%Z)].

(** [d.get(k, default)] *)
Fixpoint dict_get (d : list (N * Z)) (k : N) (default : Z) : Z :=
  match d with
  | [] => default
  | (k', v) :: d' => if N.eqb k k' then v else dict_get d' k default
  end.

(** One turn of the loop over [reversed(page_str.upper())]; the state is
    [(result, prev_value)]. *)
Definition roman_step (st : Z * Z) (char : N) : Z * Z :=
  let '(result, prev_value) := st in
  let value := dict_get roman_map char 0%Z in
  ((result + (if Z.ltb value prev_value then - value else value))%Z, value).

Definition convert_to_number (page_str : str) : option Z :=
  match page_str with
  | [] => Some 0%Z
  | _ =>
      if isdigit page_str then int page_str
      else
        let '(result, _) := fold_left roman_step (rev (upper page_str)) (0, 0)%Z in
        Some (Z.max result 0)
  end.

(** ** Python's text helpers *)

Fixpoint lstrip (s : str) : str :=
  match s with
  | c :: s' => if isspace_char c then lstrip s' else s
  | [] => []
  end.

Definition rstrip (s : str) : str := rev (lstrip (rev s)).

Definition strip (s : str) : str := rstrip (lstrip s).

(** Truth value of a text: [not s] is [is_empty s]. *)
Definition is_empty (s : str) : bool :=
  match s with [] => true | _ => false end.

Definition LF : ascii := ascii_of_nat 10.
Definition CR : ascii := ascii_of_nat 13.
Definition TAB : ascii := ascii_of_nat 9.
Definition SPACE : ascii := ascii_of_nat 32.

(** [s.splitlines()]: the lines between line boundaries, CR LF counting as
    one boundary, and no empty last line after a final boundary. *)
Fixpoint splitlines (s : str) : list str :=
  match s with
  | [] => []
  | c :: s' =>
      if is_linebreak c then
        [] :: (if Ascii.eqb c CR
               then match s' with
                    | c' :: s'' => if Ascii.eqb c' LF then splitlines s'' else splitlines s'
                    | [] => splitlines s'
                    end
               else splitlines s')
      else
        match splitlines s' with
        | [] => [[c]]
        | l :: ls => (c :: l) :: ls
        end
  end.

(** [sep.join(xs)] *)
Fixpoint join (sep : str) (xs : list str) : str :=
  match xs with
  | [] => []
  | [x] => x
  | x :: xs' => x ++ sep ++ join sep xs'
  end.

(** [c * n] for a one-character text [c] *)
Definition spaces (n : nat) : str := repeat SPACE n.

(** [s.expandtabs(tabsize)]: a TAB becomes the spaces up to the next tab
    stop; the column restarts after LF and CR. *)
Fixpoint expandtabs_from (tabsize col : nat) (s : str) : str :=
  match s with
  | [] => []
  | c :: s' =>
      if Ascii.eqb c TAB then
        match tabsize with
        | O => expandtabs_from tabsize col s'
        | _ => let incr := tabsize - col mod tabsize in
               spaces incr ++ expandtabs_from tabsize (col + incr) s'
        end
      else if Ascii.eqb c LF || Ascii.eqb c CR then c :: expandtabs_from tabsize 0 s'
      else c :: expandtabs_from tabsize (S col) s'
  end.

Definition expandtabs (tabsize : nat) (s : str) : str := expandtabs_from tabsize 0 s.

(** ** Regular expressions: the fragment of [re] the module uses

    A backtracking matcher with the priorities of [re]: a repetition is
    greedy, the alternatives of [|] are tried left to right, and the first
    way to match wins.  Every repetition in the module's patterns is over a
    single character class. *)

Inductive regex : Type :=
| Cls (p : ascii -> bool)             (* one character of a class *)
| Rep (p : ascii -> bool) (lo : nat)  (* greedy [p{lo,}]: [*] is 0, [+] is 1 *)
| Seq (r1 r2 : regex)
| Alt (r1 r2 : regex)
| Grp (n : nat) (r : regex)           (* capturing group number n *)
| Bol                                 (* ^ *)
| Eol.                                (* $ *)

(** The spans of the groups matched so far, latest first. *)
Definition caps := list (nat * (nat * nat)).

Section Matcher.
Variable R : Type.

(** A continuation receives the position reached, the text left and the
    groups. *)
Definition cont := nat -> str -> caps -> option R.

Fixpoint rep (p : ascii -> bool) (lo : nat) (pos : nat) (rest : str)
         (g : caps) (k : cont) : option R :=
  let stop := match lo with O => k pos rest g | S _ => None end in
  match rest with
  | c :: rest' =>
      if p c then
        match rep p (pred lo) (S pos) rest' g k with
        | Some x => Some x
        | None => stop
        end
      else stop
  | [] => stop
  end.

Fixpoint m (r : regex) (pos : nat) (rest : str) (g : caps) (k : cont)
  : option R :=
  match r with
  | Cls p =>
      match rest with
      | c :: rest' => if p c then k (S pos) rest' g else None
      | [] => None
      end
  | Rep p lo => rep p lo pos rest g k
  | Seq r1 r2 => m r1 pos rest g (fun pos' rest' g' => m r2 pos' rest' g' k)
  | Alt r1 r2 =>
      match m r1 pos rest g k with
      | Some x => Some x
      | None => m r2 pos rest g k
      end
  | Grp n r1 =>
      m r1 pos rest g (fun pos' rest' g' => k pos' rest' ((n, (pos, pos')) :: g'))
  | Bol => match pos with O => k pos rest g | S _ => None end
  | Eol =>
      match rest with
      | [] => k pos rest g
      | [c] => if Ascii.eqb c LF then k pos rest g else None
      | _ => None
      end
  end.
End Matcher.

(** A match object: start, end and group spans. *)
Record match_obj : Type := MatchObj { m_start : nat; m_end : nat; m_caps : caps }.

Definition match_at (r : regex) (pos : nat) (rest : str) : option match_obj :=
  m r pos rest [] (fun e _ g => Some (MatchObj pos e g)).

(** Scanning for the first position at which the pattern matches. *)
Fixpoint search_from (r : regex) (pos : nat) (rest : str) : option match_obj :=
  match match_at r pos rest with
  | Some x => Some x
  | None =>
      match rest with
      | [] => None
      | _ :: rest' => search_from r (S pos) rest'
      end
  end.

(** [re.search(r, s)] and [re.match(r, s)] *)
Definition re_search (r : regex) (s : str) : option match_obj := search_from r 0 s.
Definition re_match (r : regex) (s : str) : option match_obj := match_at r 0 s.

(** [bool(mo)] *)
Definition found (mo : option match_obj) : bool :=
  match mo with Some _ => true | None => false end.

Fixpoint span_of (g : caps) (n : nat) : option (nat * nat) :=
  match g with
  | [] => None
  | (n', sp) :: g' => if Nat.eqb n n' then Some sp else span_of g' n
  end.

Definition slice (s : str) (a b : nat) : str := firstn (b - a) (skipn a s).

(** [mo.group(n)] on the subject [s] (the empty text for a group that took
    no part in the match, as in a replacement template). *)
Definition group (s : str) (mo : match_obj) (n : nat) : str :=
  match span_of (m_caps mo) n with
  | Some (a, b) => slice s a b
  | None => []
  end.

(** [re.split(r, s, 1)] for a pattern with one group. *)
Definition re_split1 (r : regex) (s : str) : list str :=
  match re_search r s with
  | Some mo => [firstn (m_start mo) s; group s mo 1; skipn (m_end mo) s]
  | None => [s]
  end.

(** A replacement template: literal text and group references. *)
Inductive tpiece : Type :=
| Lit (t : str)
| Ref (n : nat).

Definition expand (tmpl : list tpiece) (s : str) (mo : match_obj) : str :=
  flat_map (fun p => match p with Lit t => t | Ref n => group s mo n end) tmpl.

(** [re.sub(r, tmpl, s)]: every match, left to right, is replaced.  The
    patterns substituted in this module match at least two characters; after
    an empty match the scan moves one character on. *)
Fixpoint sub_from (fuel : nat) (r : regex) (tmpl : list tpiece) (s : str)
         (pos : nat) : str :=
  match fuel with
  | O => skipn pos s
  | S fuel' =>
      match search_from r pos (skipn pos s) with
      | None => skipn pos s
      | Some mo =>
          slice s pos (m_start mo) ++ expand tmpl s mo ++
          (if Nat.eqb (m_end mo) (m_start mo)
           then slice s (m_end mo) (S (m_end mo)) ++ sub_from fuel' r tmpl s (S (m_end mo))
           else sub_from fuel' r tmpl s (m_end mo))
      end
  end.

Definition re_sub (r : regex) (tmpl : list tpiece) (s : str) : str :=
  sub_from (S (List.length s)) r tmpl s 0.

(** ** The module's patterns *)

Declare Scope regex_scope.
Delimit Scope regex_scope with regex.
Infix ";;" := Seq (at level 61, right associativity) : regex_scope.
Infix "<|>" := Alt (at level 62, right associativity) : regex_scope.

Definition one_of (cs : string) (c : ascii) : bool :=
  existsb (Ascii.eqb c) (py cs).

Definition cls_d : ascii -> bool := isdecimal_char.                 (* \d *)
Definition cls_s : ascii -> bool := isspace_char.                   (* \s *)
Definition cls_not_s (c : ascii) : bool := negb (isspace_char c).   (* [^\s] *)
Definition cls_any (c : ascii) : bool := negb (Ascii.eqb c LF).     (* . *)
Definition cls_0_9 (c : ascii) : bool := in_range 48 57 (ord c).    (* [0-9] *)
Definition cls_A_Z (c : ascii) : bool := in_range 65 90 (ord c).    (* [A-Z] *)
Definition cls_sep : ascii -> bool := one_of ".- ".                 (* [\.\- ] *)
Definition cls_roman : ascii -> bool := one_of "IVXLCDM".           (* [IVXLCDM] *)
Definition chr (c : string) : ascii -> bool := one_of c.

(** [\d+$] *)
Definition re_trailing_digits : regex := (Rep cls_d 1 ;; Eol)%regex.

(** [^.*[^\s]\s[0-9]+$] *)
Definition re_one_space_number : regex :=
  (Bol ;; Rep cls_any 0 ;; Cls cls_not_s ;; Cls cls_s ;; Rep cls_0_9 1 ;; Eol)%regex.

(** [\s{2,}\d+$] *)
Definition re_many_spaces_number : regex := (Rep cls_s 2 ;; Rep cls_d 1 ;; Eol)%regex.

(** [\s+(\d+)$] *)
Definition re_split_page : regex := (Rep cls_s 1 ;; Grp 1 (Rep cls_d 1) ;; Eol)%regex.

(** [(\d+|[IVXLCDM]+)] as group n *)
Definition re_numeral (n : nat) : regex := Grp n (Rep cls_d 1 <|> Rep cls_roman 1)%regex.

(** [([\.\- ]{3,}|\(|\s)(\d+|[IVXLCDM]+)\s*$] *)
Definition re_page_token : regex :=
  (Grp 1 (Rep cls_sep 3 <|> Cls (chr "(") <|> Cls cls_s) ;; re_numeral 2 ;;
   Rep cls_s 0 ;; Eol)%regex.

(** [^( \d+\. | [A-Z]\. | \- | \* )\s], written here with blanks between the
    alternatives *)
Definition re_list_marker : regex :=
  (Bol ;;
   Grp 1 ((Rep cls_d 1 ;; Cls (chr ".")) <|> (Cls cls_A_Z ;; Cls (chr ".")) <|>
          Cls (chr "-") <|> Cls (chr "*")) ;;
   Cls cls_s)%regex.

(** [\s+(\d+|[IVXLCDM]+)\s*$] *)
Definition re_spaced_numeral : regex :=
  (Rep cls_s 1 ;; re_numeral 1 ;; Rep cls_s 0 ;; Eol)%regex.

(** [\s+(\d+|[IVXLCDM]+)$] *)
Definition re_page_match : regex := (Rep cls_s 1 ;; re_numeral 1 ;; Eol)%regex.

(** ** is_beautified *)

(** [len(line) - len(line.lstrip())] *)
Definition indent_of (line : str) : nat :=
  List.length line - List.length (lstrip line).

Definition is_blank (line : str) : bool := is_empty (strip line).

(** The loop over the lines; [false] is the early [return False]. *)
Fixpoint is_beautified_loop (lines : list str) : bool :=
  match lines with
  | [] => true
  | line :: lines' =>
      if is_blank line then is_beautified_loop lines'
      else
        let indentation := indent_of line in
        let content := strip line in
        if negb (Nat.eqb (indentation mod 4) 0) then false
        else if found (re_search re_trailing_digits content) then
          if negb (found (re_match re_one_space_number content)) then false
          else if found (re_search re_many_spaces_number content) then false
          else is_beautified_loop lines'
        else is_beautified_loop lines'
  end.

Definition is_beautified (outline : str) : bool :=
  let lines := splitlines outline in
  match lines with
  | [] => false
  | _ => is_beautified_loop lines
  end.

(** ** beautify_outline *)

(** [s * n] *)
Definition str_mul (s : str) (n : nat) : str := List.concat (repeat s n).

(** The part of the loop body that rebuilds the content of a line. *)
Definition beautify_content (content : str) : str :=
  let parts := re_split1 re_split_page (strip content) in
  match parts with
  | [p0; p1; _] =>
      let title := rstrip p0 in
      let page_num := p1 in
      title ++ py " " ++ page_num
  | _ => content
  end.

(** One turn of the loop; the state is [(beautified, last_indent_level)]. *)
Definition beautify_step (st : list str * Z) (line : str) : list str * Z :=
  let '(beautified, last_indent_level) := st in
  if is_blank line then st
  else
    let indent := indent_of line in
    let content := strip line in
    let indent_level := indent / 4 in
    let beautified :=
      if Nat.eqb indent_level 0 && negb (Z.eqb last_indent_level (-1))
      then beautified ++ [py ""] else beautified in
    let content := beautify_content content in
    (beautified ++ [str_mul (str_mul (py " ") indent_level) 4 ++ content],
     Z.of_nat indent_level).

Definition beautify_outline (outline : str) : str :=
  if is_beautified outline then outline
  else
    let lines := splitlines outline in
    let '(beautified, _) := fold_left beautify_step lines ([], (-1)%Z) in
    join (py (String LF EmptyString)) beautified.

(** ** normalize_outline *)

Record norm_state : Type := NormState {
  clean_lines : list str;
  current_item : option str;
  current_indent : nat;
  last_line_was_terminated : bool
}.

Definition norm_init : norm_state := NormState [] None 0 true.

Definition has_page_number (content : str) : bool :=
  found (re_search re_page_token content).

Definition starts_with_number (content : str) : bool :=
  found (re_match re_list_marker content).

Definition is_some (A : Type) (o : option A) : bool :=
  match o with Some _ => true | None => false end.

Definition is_continuation (st : norm_state) (content : str) : bool :=
  negb (last_line_was_terminated st) && negb (has_page_number content) &&
  negb (starts_with_number content) && is_some (current_item st).

(** [clean_lines.append(('    ' * current_indent) + current_item)] when an
    item is open. *)
Definition flush (st : norm_state) : list str :=
  match current_item st with
  | Some item => clean_lines st ++ [str_mul (py "    ") (current_indent st) ++ item]
  | None => clean_lines st
  end.

(** One turn of the first loop. *)
Definition normalize_step (st : norm_state) (line : str) : norm_state :=
  let indent := indent_of line in
  let content := strip line in
  if is_continuation st content then
    match current_item st with
    | Some item =>
        NormState (clean_lines st) (Some (item ++ py " " ++ content))
                  (current_indent st) (last_line_was_terminated st)
    | None => st
    end
  else
    NormState (flush st) (Some content) (indent / 4) (has_page_number content).

(** The body of the second loop. *)
Definition standardize (line : str) : str :=
  let indent := indent_of line in
  let content := lstrip line in
  let content := re_sub re_page_token [Lit (py " "); Ref 2] content in
  let content := re_sub re_spaced_numeral [Lit (py " "); Ref 1] content in
  str_mul (py " ") indent ++ content.

(** [[line.rstrip() for line in raw_outline.expandtabs(4).splitlines() if line.strip()]] *)
Definition normalize_lines (raw_outline : str) : list str :=
  map rstrip (filter (fun line => negb (is_blank line))
                     (splitlines (expandtabs 4 raw_outline))).

Definition normalize_outline (raw_outline : str) : str :=
  let lines := normalize_lines raw_outline in
  let st := fold_left normalize_step lines norm_init in
  let clean_lines := flush st in
  let processed_lines := map standardize clean_lines in
  join (py (String LF EmptyString)) processed_lines.

(** ** parse_clean_outline

    The items are Python dicts that the loop mutates after they have been put
    into their parent's [children] list and onto the stack.  The heap below
    holds the dicts by address (address = position); a [children] list and
    the stack hold addresses.  The root dict is at address 0. *)

Record item : Type := Item {
  title : str;
  level : Z;
  page_number : Z;
  children : list nat
}.

Definition heap := list item.

Definition root_item : item := Item (py "ROOT") (-1) 0 [].

Record parse_state : Type := ParseState {
  st_heap : heap;
  st_stack : list nat;         (* the stack, top first *)
  last_page_number : Z
}.

Definition parse_init : parse_state := ParseState [root_item] [0] 0.

(** [while level <= stack[-1]["level"]: stack.pop()]; [None] is the
    IndexError of [stack[-1]] on an empty stack. *)
Fixpoint unwind (h : heap) (lvl : Z) (stack : list nat) : option (list nat) :=
  match stack with
  | [] => None
  | top :: below =>
      match nth_error h top with
      | Some it => if Z.leb lvl (level it) then unwind h lvl below else Some stack
      | None => None
      end
  end.

(** [h[parent]["children"].append(addr)] *)
Fixpoint append_child (h : heap) (parent addr : nat) : heap :=
  match h, parent with
  | [], _ => []
  | it :: h', O => Item (title it) (level it) (page_number it) (children it ++ [addr]) :: h'
  | it :: h', S p => it :: append_child h' p addr
  end.

(** The title and the page number of a line's content, with the new value
    of [last_page_number]; [None] when [convert_to_number] raises. *)
Definition split_title_page (content : str) (last : Z) : option (str * Z * Z) :=
  match re_search re_page_match content with
  | Some page_match =>
      let title := strip (firstn (m_start page_match) content) in
      let page_str := group content page_match 1 in
      match convert_to_number page_str with
      | Some page_number => Some (title, page_number, page_number)
      | None => None
      end
  | None => Some (content, last, last)
  end.

(** One turn of the loop over the lines. *)
Definition parse_step (st : parse_state) (line : str) : option parse_state :=
  if is_blank line then Some st
  else
    let indent := indent_of line in
    let lvl := Z.of_nat (indent / 4) in
    let content := lstrip line in
    match split_title_page content (last_page_number st) with
    | None => None
    | Some (title, page_number, last') =>
        let new_item := Item title lvl page_number [] in
        match unwind (st_heap st) lvl (st_stack st) with
        | Some (parent :: below) =>
            let addr := List.length (st_heap st) in
            Some (ParseState (append_child (st_heap st) parent addr ++ [new_item])
                             (addr :: parent :: below) last')
        | _ => None
        end
    end.

Fixpoint parse_loop (st : parse_state) (lines : list str) : option parse_state :=
  match lines with
  | [] => Some st
  | line :: lines' =>
      match parse_step st line with
      | Some st' => parse_loop st' lines'
      | None => None
      end
  end.

(** The value a dict denotes: a tree. *)
Unset Elimination Schemes.
Inductive node : Type :=
| Node (n_title : str) (n_level : Z) (n_page : Z) (n_children : list node).
Set Elimination Schemes.

Definition n_title (n : node) : str := let 'Node t _ _ _ := n in t.
Definition n_level (n : node) : Z := let 'Node _ l _ _ := n in l.
Definition n_page (n : node) : Z := let 'Node _ _ p _ := n in p.
Definition n_children (n : node) : list node := let 'Node _ _ _ cs := n in cs.

Fixpoint sequence (A : Type) (xs : list (option A)) : option (list A) :=
  match xs with
  | [] => Some []
  | Some x :: xs' =>
      match sequence xs' with Some ys => Some (x :: ys) | None => None end
  | None :: _ => None
  end.

(** Reading the tree at an address off the heap; the fuel bounds the depth. *)
Fixpoint read_node (fuel : nat) (h : heap) (a : nat) : option node :=
  match fuel with
  | O => None
  | S fuel' =>
      match nth_error h a with
      | Some it =>
          match sequence (map (read_node fuel' h) (children it)) with
          | Some cs => Some (Node (title it) (level it) (page_number it) cs)
          | None => None
          end
      | None => None
      end
  end.

(** [root["children"]] *)
Definition read_forest (h : heap) : option (list node) :=
  match nth_error h 0 with
  | Some root => sequence (map (read_node (List.length h) h) (children root))
  | None => None
  end.

Definition clean_lines_of (clean_outline : str) : list str :=
  filter (fun line => negb (is_blank line)) (splitlines clean_outline).

Definition parse_clean_outline (clean_outline : str) : option (list node) :=
  let lines := clean_lines_of clean_outline in
  match parse_loop parse_init lines with
  | Some st => read_forest (st_heap st)
  | None => None
  end.

(** ** parse_outline *)

Definition parse_outline (text : str) : option (list node) :=
  let clean_outline := normalize_outline text in
  parse_clean_outline clean_outline.

(** ** Descriptions used in the statements *)

(** *** Numerals *)

(** The value of a run of decimal digits, by place value. *)
Fixpoint decimal_value (s : str) : Z :=
  match s with
  | [] => 0
  | c :: s' => (digit_value c * 10 ^ Z.of_nat (List.length s') + decimal_value s')%Z
  end.

(** The values of the letters of a numeral, left to right; a character that
    is no Roman letter has the value 0. *)
Definition letter_values (s : str) : list Z :=
  map (fun ch => dict_get roman_map ch 0%Z) (upper s).

(** Every letter counts negatively when its value is less than the value of
    the letter to its right, and positively otherwise (the last letter has
    nothing to its right and counts positively). *)
Fixpoint neighbour_sum (vs : list Z) : Z :=
  match vs with
  | [] => 0
  | v :: rest => ((if Z.ltb v (hd 0 rest) then - v else v) + neighbour_sum rest)%Z
  end.

(** The scan as the specification words it: a letter counts negatively when
    its value is less than the largest value seen so far from the right. *)
Definition running_max_step (st : Z * Z) (char : N) : Z * Z :=
  let '(result, running_max) := st in
  let value := dict_get roman_map char 0%Z in
  ((result + (if Z.ltb value running_max then - value else value))%Z,
   Z.max running_max value).

Definition running_max_scan (page_str : str) : Z :=
  Z.max (fst (fold_left running_max_step (rev (upper page_str)) (0, 0)%Z)) 0.

(** *** What a pattern matches

    [matches r pos rest g pos' rest' g']: from position [pos], with [rest]
    still to read and the groups [g], the pattern [r] can consume text up to
    position [pos'], leaving [rest'] and the groups [g']. *)
Inductive matches : regex -> nat -> str -> caps -> nat -> str -> caps -> Prop :=
| M_Cls p c pos rest g :
    p c = true -> matches (Cls p) pos (c :: rest) g (S pos) rest g
| M_Rep p lo xs pos rest g :
    forallb p xs = true -> lo <= List.length xs ->
    matches (Rep p lo) pos (xs ++ rest) g (pos + List.length xs) rest g
| M_Seq r1 r2 pos rest g pos1 rest1 g1 pos2 rest2 g2 :
    matches r1 pos rest g pos1 rest1 g1 ->
    matches r2 pos1 rest1 g1 pos2 rest2 g2 ->
    matches (Seq r1 r2) pos rest g pos2 rest2 g2
| M_AltL r1 r2 pos rest g pos' rest' g' :
    matches r1 pos rest g pos' rest' g' ->
    matches (Alt r1 r2) pos rest g pos' rest' g'
| M_AltR r1 r2 pos rest g pos' rest' g' :
    matches r2 pos rest g pos' rest' g' ->
    matches (Alt r1 r2) pos rest g pos' rest' g'
| M_Grp n r pos rest g pos' rest' g' :
    matches r pos rest g pos' rest' g' ->
    matches (Grp n r) pos rest g pos' rest' ((n, (pos, pos')) :: g')
| M_Bol rest g : matches Bol 0 rest g 0 rest g
| M_Eol pos rest g :
    rest = [] \/ rest = [LF] -> matches Eol pos rest g pos rest g.

(** *** Forests *)

(** The nodes of a tree in document order. *)
Fixpoint preorder (n : node) : list node :=
  match n with
  | Node _ _ _ cs => n :: flat_map preorder cs
  end.

Definition forest_preorder (f : list node) : list node := flat_map preorder f.

(** The (parent, child) pairs of a tree. *)
Fixpoint edges (n : node) : list (node * node) :=
  match n with
  | Node _ _ _ cs => map (pair n) cs ++ flat_map edges cs
  end.

Definition forest_edges (f : list node) : list (node * node) := flat_map edges f.

(** *** How a tree lies in the heap

    The loop allocates the dicts in document order, so a tree occupies a
    block of consecutive addresses: the node, then the blocks of its
    children. *)

Fixpoint size (n : node) : nat :=
  match n with
  | Node _ _ _ cs => S (list_sum (map size cs))
  end.

Definition sizes (cs : list node) : nat := list_sum (map size cs).

Fixpoint child_addrs (a : nat) (cs : list node) : list nat :=
  match cs with
  | [] => []
  | c :: cs' => a :: child_addrs (a + size c) cs'
  end.

Fixpoint layout (a : nat) (n : node) {struct n} : heap :=
  match n with
  | Node t l p cs =>
      Item t l p (child_addrs (S a) cs) ::
      (fix layouts (b : nat) (cs : list node) {struct cs} : heap :=
         match cs with
         | [] => []
         | c :: cs' => layout b c ++ layouts (b + size c) cs'
         end) (S a) cs
  end.

Fixpoint layouts (b : nat) (cs : list node) : heap :=
  match cs with
  | [] => []
  | c :: cs' => layout b c ++ layouts (b + size c) cs'
  end.

(** An open dict of the stack: its fields and the children that are
    complete; its last child, when the stack goes on above it, is the next
    open dict. *)
Record frame : Type := Frame {
  f_title : str;
  f_level : Z;
  f_page : Z;
  f_closed : list node
}.

Definition close (f : frame) : node :=
  Node (f_title f) (f_level f) (f_page f) (f_closed f).

(** Popping the stack: the top [g] becomes a complete child of [f]. *)
Definition merge (g f : frame) : frame :=
  Frame (f_title f) (f_level f) (f_page f) (f_closed f ++ [close g]).

(** The address of the dict that sits above the frames [below] (top first). *)
Definition frame_addr (below : list frame) : nat :=
  list_sum (map (fun f => S (sizes (f_closed f))) below).

(** The heap below that address. *)
Fixpoint spine_prefix (below : list frame) : heap :=
  match below with
  | [] => []
  | f :: below' =>
      let a := frame_addr below' in
      spine_prefix below' ++
      Item (f_title f) (f_level f) (f_page f)
           (child_addrs (S a) (f_closed f) ++ [S a + sizes (f_closed f)]) ::
      layouts (S a) (f_closed f)
  end.

(** The heap and the stack that a list of open dicts (top first) stands for. *)
Definition spine_heap (zs : list frame) : heap :=
  match zs with
  | [] => []
  | top :: below => spine_prefix below ++ layout (frame_addr below) (close top)
  end.

Fixpoint spine_stack (zs : list frame) : list nat :=
  match zs with
  | [] => []
  | _ :: below => frame_addr below :: spine_stack below
  end.

(** Closing all the open dicts down to the root. *)
Fixpoint collapse (top : frame) (below : list frame) : frame :=
  match below with
  | [] => top
  | f :: below' => collapse (merge top f) below'
  end.

(** *** Entries in document order *)

(** The explicit trailing numeral token of a line, as [parse_clean_outline]
    finds it. *)
Definition page_token (line : str) : option str :=
  let content := lstrip line in
  match re_search re_page_match content with
  | Some page_match => Some (group content page_match 1)
  | None => None
  end.

(** A line whose numeral token is a run of more digits than [int] reads:
    on such a line the conversion of the token raises ValueError. *)
Definition long_token (line : str) : bool :=
  match page_token line with
  | Some tok => isdigit tok && (int_max_str_digits <? Z.of_nat (List.length tok))%Z
  | None => false
  end.

(** The page number of the nearest entry, among the preceding ones (nearest
    first, each with its line), whose line specified one; 0 if there is none. *)
Fixpoint nearest_specified (prev : list (str * Z)) : Z :=
  match prev with
  | [] => 0
  | (line, page) :: prev' =>
      if is_some (page_token line) then page else nearest_specified prev'
  end.

(** *** The state of the tree builder *)

(** Levels grow along every edge of a tree. *)
Definition levels_grow (n : node) : Prop :=
  forall p c, In (p, c) (edges n) -> (n_level p < n_level c)%Z.

Definition closed_ok (f : frame) : Prop :=
  Forall (fun c => (f_level f < n_level c)%Z /\ levels_grow c) (f_closed f).

(** The open dicts, top first: levels fall towards the root, which is last
    and has level -1. *)
Fixpoint frames_ok (top : frame) (below : list frame) : Prop :=
  closed_ok top /\
  match below with
  | [] => f_level top = (-1)%Z
  | g :: below' => (f_level g < f_level top)%Z /\ frames_ok g below'
  end.

Definition parse_inv (st : parse_state) (top : frame) (below : list frame) : Prop :=
  st_heap st = spine_heap (top :: below) /\
  st_stack st = spine_stack (top :: below) /\
  frames_ok top below.

(** The entry a dict holds. *)
Definition item_entry (it : item) : str * Z * Z :=
  (title it, level it, page_number it).

Definition node_entry (n : node) : str * Z * Z :=
  (n_title n, n_level n, n_page n).

(** *** The level rule as the specification words it *)

(** Every top-level node has level 0 and every child is exactly one level
    below its parent. *)
Definition levels_by_one (forest : list node) : Prop :=
  (forall n, In n forest -> n_level n = 0%Z) /\
  (forall p c, In (p, c) (forest_edges forest) -> n_level c = (n_level p + 1)%Z).

Definition entry_page (e : str * Z * Z) : Z := snd e.

(** A text given line by line (joined by LF), for the examples. *)
Definition text_of_lines (ls : list string) : str :=
  join [LF] (map py ls).

(** *** List markers *)

Fixpoint drop_while (p : ascii -> bool) (s : str) : str :=
  match s with
  | c :: s' => if p c then drop_while p s' else s
  | [] => []
  end.

Fixpoint take_while (p : ascii -> bool) (s : str) : str :=
  match s with
  | c :: s' => if p c then c :: take_while p s' else []
  | [] => []
  end.

(** What follows a list marker at the start of a line: a run of digits and a
    period, a capital letter and a period, a hyphen, or an asterisk. *)
Definition after_list_marker (content : str) : option str :=
  match content with
  | [] => None
  | c :: rest =>
      if isdecimal_char c then
        match drop_while isdecimal_char rest with
        | d :: rest' => if chr "." d then Some rest' else None
        | [] => None
        end
      else if cls_A_Z c then
        match rest with
        | d :: rest' => if chr "." d then Some rest' else None
        | [] => None
        end
      else if chr "-" c || chr "*" c then Some rest
      else None
  end.

(** The line begins with a list marker (the words of the specification). *)
Definition begins_with_list_marker (content : str) : bool :=
  is_some (after_list_marker content).

(** The line begins with a list marker that a white-space character
    follows. *)
Definition begins_with_spaced_list_marker (content : str) : bool :=
  match after_list_marker content with
  | Some (w :: _) => isspace_char w
  | _ => false
  end.

(** The state of the first loop of [normalize_outline] after the lines
    [done]. *)
Definition norm_state_after (done : list str) : norm_state :=
  fold_left normalize_step done norm_init.

(** The line is appended to the open item with one space, and nothing is
    flushed. *)
Definition appended_to_open_item (st st' : norm_state) (line : str) : Prop :=
  exists item,
    current_item st = Some item /\
    current_item st' = Some (item ++ py " " ++ strip line) /\
    clean_lines st' = clean_lines st /\
    current_indent st' = current_indent st.

(** The last element of a list, if any. *)
Definition last_line (done : list str) : option str :=
  match rev done with
  | [] => None
  | l :: _ => Some l
  end.

(** *** Shapes of lines *)

(** The text begins with a character that is not white space. *)
Definition head_ok (c : str) : bool :=
  match c with
  | x :: _ => negb (isspace_char x)
  | [] => false
  end.

(** The text ends with a character that is not white space. *)
Definition last_ok (c : str) : bool := head_ok (rev c).

(** No line boundary inside. *)
Definition no_break (l : str) : bool :=
  forallb (fun c => negb (is_linebreak c)) l.

(** Lines that [join] and [splitlines] take to each other: no line
    boundary inside a line, and the last line is not empty. *)
Fixpoint good_lines (ls : list str) : Prop :=
  match ls with
  | [] => True
  | x :: rest =>
      no_break x = true /\
      match rest with
      | [] => x <> []
      | _ => good_lines rest
      end
  end.

(** *** The canonical form of a line, in the words of the specification *)

(** The content has a trailing digit run. *)
Definition has_trailing_digits (content : str) : bool :=
  negb (is_empty (take_while isdecimal_char (rev content))).

(** Just before the trailing digit run there is one white-space character,
    and before that a character that is not white space. *)
Definition one_space_before_digits (content : str) : bool :=
  match drop_while isdecimal_char (rev content) with
  | w :: x :: _ => isspace_char w && negb (isspace_char x)
  | _ => false
  end.

Definition canonical_line (line : str) : bool :=
  Nat.eqb (indent_of line mod 4) 0 &&
  (negb (has_trailing_digits (strip line)) || one_space_before_digits (strip line)).

(** *** The lines that the loop of [beautify_outline] appends *)

Definition beautify_line (line : str) : str :=
  str_mul (str_mul (py " ") (indent_of line / 4)) 4 ++ beautify_content (strip line).

Fixpoint beautified_from (last_indent_level : Z) (lines : list str) : list str :=
  match lines with
  | [] => []
  | line :: lines' =>
      if is_blank line then beautified_from last_indent_level lines'
      else
        let indent_level := indent_of line / 4 in
        (if Nat.eqb indent_level 0 && negb (Z.eqb last_indent_level (-1))
         then [py ""] else []) ++
        beautify_line line :: beautified_from (Z.of_nat indent_level) lines'
  end.

(** *** The outline that a list of entries stands for *)

Definition entry_level (e : str * Z * Z) : Z := snd (fst e).

(** The entries of the lines, in order, as the loop of
    [parse_clean_outline] computes them, [last] being the value of
    [last_page_number] before the first line. *)
Fixpoint line_entries (last : Z) (lines : list str) : list (str * Z * Z) :=
  match lines with
  | [] => []
  | line :: lines' =>
      match split_title_page (lstrip line) last with
      | Some (t, p, last') =>
          (t, Z.of_nat (indent_of line / 4), p) :: line_entries last' lines'
      | None => []
      end
  end.

(** The longest run of entries, from the front, that are deeper than [lvl],
    and what follows it. *)
Fixpoint span_deeper (lvl : Z) (es : list (str * Z * Z))
  : list (str * Z * Z) * list (str * Z * Z) :=
  match es with
  | [] => ([], [])
  | e :: es' =>
      if Z.ltb lvl (entry_level e)
      then let (sub, after) := span_deeper lvl es' in (e :: sub, after)
      else ([], es)
  end.

(** Nesting by depth: an entry owns the longest run of entries after it
    that are deeper than it; the entries after that run are its later
    siblings.  The fuel bounds the number of entries. *)
Fixpoint outline_of (fuel : nat) (es : list (str * Z * Z)) : list node :=
  match fuel with
  | O => []
  | S fuel' =>
      match es with
      | [] => []
      | (t, l, p) :: rest =>
          let (sub, after) := span_deeper l rest in
          Node t l p (outline_of fuel' sub) :: outline_of fuel' after
      end
  end.

Definition nested_outline (es : list (str * Z * Z)) : list node :=
  outline_of (List.length es) es.

(** Levels that never grow from one element to the next. *)
Fixpoint non_increasing (ls : list Z) : Prop :=
  match ls with
  | a :: ((b :: _) as rest) => (b <= a)%Z /\ non_increasing rest
  | _ => True
  end.

(** A tree in which every child is deeper than its parent and the levels of
    the children of a node never grow from left to right. *)
Fixpoint nested_node (n : node) : Prop :=
  match n with
  | Node _ l _ cs =>
      non_increasing (map n_level cs) /\
      Forall (fun c => (l < n_level c)%Z) cs /\
      (fix all (cs : list node) : Prop :=
         match cs with
         | [] => True
         | c :: cs' => nested_node c /\ all cs'
         end) cs
  end.

Definition nested_forest (f : list node) : Prop :=
  non_increasing (map n_level f) /\ Forall nested_node f.

(** The open dicts, top first, with the nesting of their complete children:
    the complete children of a dict are not shallower than the open dict
    above it. *)
Fixpoint spine_nested (top : frame) (below : list frame) : Prop :=
  nested_forest (f_closed top) /\
  match below with
  | [] => True
  | g :: below' =>
      Forall (fun c => (f_level top <= n_level c)%Z) (f_closed g) /\
      spine_nested g below'
  end.

(** *** Roman numerals *)

(** The sum of the Roman letter values that are less than [v]: what a run
    of letters, each less than the one to its right, can take away after a
    letter of value [v]. *)
Definition smaller_values_sum (v : Z) : Z :=
  if Z.leb v 1 then 0
  else if Z.leb v 5 then 1
  else if Z.leb v 10 then 6
  else if Z.leb v 50 then 16
  else if Z.leb v 100 then 66
  else if Z.leb v 500 then 166
  else 666.

(** The standard Roman numeral of a number below 4000, digit by digit. *)
Definition roman_of (n : nat) : string :=
  (nth (n / 1000) [""; "M"; "MM"; "MMM"] "" ++
   nth (n / 100 mod 10) [""; "C"; "CC"; "CCC"; "CD"; "D"; "DC"; "DCC"; "DCCC"; "CM"] "" ++
   nth (n / 10 mod 10) [""; "X"; "XX"; "XXX"; "XL"; "L"; "LX"; "LXX"; "LXXX"; "XC"] "" ++
   nth (n mod 10) [""; "I"; "II"; "III"; "IV"; "V"; "VI"; "VII"; "VIII"; "IX"] "")%string.

(** A capital letter A..Z in lower case; other characters as they are. *)
Definition lower_char (c : ascii) : ascii :=
  if cls_A_Z c then ascii_of_N (ord c + 32) else c.

Definition lower_case (s : str) : str := map lower_char s.

(** ** Errors

    A computation that may raise: [None] stands for the exception, and the
    steps that follow a raising step are not run. *)
Definition bind (A B : Type) (x : option A) (f : A -> option B) : option B :=
  match x with
  | Some a => f a
  | None => None
  end.

Notation "'let*' x ':=' e 'in' k" := (bind e (fun x => k))
  (at level 10, x name, e at level 100, k at level 200).

(** ** convert_json_to_text (genie_outliner.py)

    The items are the dicts of a forest as [parse_outline] makes them and as
    the JSON export writes them: every key is present, so the defaults of
    [item.get] play no part. *)

(** The decimal numeral of an integer: its digits, with a minus sign for a
    negative number. *)
Fixpoint uint_chars (d : Decimal.uint) : str :=
  match d with
  | Decimal.Nil => []
  | Decimal.D0 d' => "0"%char :: uint_chars d'
  | Decimal.D1 d' => "1"%char :: uint_chars d'
  | Decimal.D2 d' => "2"%char :: uint_chars d'
  | Decimal.D3 d' => "3"%char :: uint_chars d'
  | Decimal.D4 d' => "4"%char :: uint_chars d'
  | Decimal.D5 d' => "5"%char :: uint_chars d'
  | Decimal.D6 d' => "6"%char :: uint_chars d'
  | Decimal.D7 d' => "7"%char :: uint_chars d'
  | Decimal.D8 d' => "8"%char :: uint_chars d'
  | Decimal.D9 d' => "9"%char :: uint_chars d'
  end.

Definition decimal_numeral (n : Z) : str :=
  if Z.ltb n 0 then "-"%char :: uint_chars (Nat.to_uint (Z.to_nat (- n)))
  else uint_chars (Nat.to_uint (Z.to_nat n)).

(** A number that [str] writes: it has no more digits than
    [int_max_str_digits] (the sign does not count). *)
Definition printable (n : Z) : bool :=
  (Z.of_nat (List.length (decimal_numeral (Z.abs n))) <=? int_max_str_digits)%Z.

(** [str(n)], and [n] in an f-string: the numeral, or [None] (ValueError)
    for a number of too many digits. *)
Definition str_of_int (n : Z) : option str :=
  if printable n then Some (decimal_numeral n) else None.

(** One turn of the loop: the line of the item, then the text of its
    children one level deeper (the inner loop is the recursive call of
    [convert_json_to_text]; for an item without children the call is skipped,
    and would add nothing). *)
Fixpoint json_item_text (level : nat) (item : node) {struct item} : option str :=
  match item with
  | Node title _ page children =>
      let indent := str_mul (py "    ") level in
      let* page_text := str_of_int page in
      let* below :=
        (fix items (cs : list node) : option str :=
           match cs with
           | [] => Some []
           | c :: cs' =>
               let* text := json_item_text (S level) c in
               let* rest := items cs' in
               Some (text ++ rest)
           end) children in
      Some ((indent ++ title ++ py " " ++ page_text ++ [LF]) ++ below)
  end.

Fixpoint convert_json_to_text (outline_data : list node) (level : nat) : option str :=
  match outline_data with
  | [] => Some []
  | item :: rest =>
      let* text := json_item_text level item in
      let* below := convert_json_to_text rest level in
      Some (text ++ below)
  end.

(** Every page number of a forest can be written. *)
Definition all_printable (f : list node) : bool :=
  forallb (fun n => printable (n_page n)) (forest_preorder f).

(** A forest that the text can carry: every title is not empty, has no
    white space at its ends and no line boundary inside; no page is negative
    or has more than [int_max_str_digits] digits; and the level of every
    node is its depth. *)
Fixpoint exportable_node (depth : nat) (n : node) : Prop :=
  match n with
  | Node t l p cs =>
      t <> [] /\ head_ok t = true /\ last_ok t = true /\ no_break t = true /\
      l = Z.of_nat depth /\ (0 <= p)%Z /\ printable p = true /\
      (fix all (cs : list node) : Prop :=
         match cs with
         | [] => True
         | c :: cs' => exportable_node (S depth) c /\ all cs'
         end) cs
  end.

Definition exportable (depth : nat) (f : list node) : Prop :=
  Forall (exportable_node depth) f.

(** The line of an entry at a depth. *)
Definition entry_line (depth : nat) (t : str) (p : Z) : str :=
  str_mul (py "    ") depth ++ t ++ py " " ++ decimal_numeral p.

(** The lines of a tree and of a forest, in document order. *)
Fixpoint node_lines (depth : nat) (n : node) {struct n} : list str :=
  match n with
  | Node t _ p cs =>
      entry_line depth t p ::
      (fix all (cs : list node) : list str :=
         match cs with
         | [] => []
         | c :: cs' => node_lines (S depth) c ++ all cs'
         end) cs
  end.

Fixpoint forest_lines (depth : nat) (f : list node) : list str :=
  match f with
  | [] => []
  | n :: rest => node_lines depth n ++ forest_lines depth rest
  end.

(** The text of a list of lines, each followed by LF. *)
Definition terminated (ls : list str) : str :=
  List.concat (map (fun l => l ++ [LF]) ls).

(** *** Normalizing a line on its own *)

(** The item that a line makes when it is not merged with another one, and
    its standard form. *)
Definition own_item (line : str) : str :=
  str_mul (py "    ") (indent_of line / 4) ++ strip line.

Definition normalized_alone (line : str) : str := standardize (own_item line).

(** A title that [normalize_outline] leaves alone in front of a page
    number: no TAB in it, and its last character is none of period, hyphen
    and space. *)
Definition plain_title (t : str) : bool :=
  forallb (fun c => negb (Ascii.eqb c TAB)) t && negb (cls_sep (last t SPACE)).

(** A line that [convert_json_to_text] writes for a node with a plain
    title. *)
Definition plain_line (l : str) : Prop :=
  exists depth t p,
    l = entry_line depth t p /\
    head_ok t = true /\ last_ok t = true /\ no_break t = true /\
    plain_title t = true /\ (0 <= p)%Z /\ printable p = true.

(** ** adjust_page_numbers (genie_outliner.py)

    The text that the method computes from the text of the editor (its
    [adjusted_text]).  What the method does with it afterwards, replacing the
    editor's text and setting the status line, belongs to the window. *)

(** The pattern of the last number of a line: three groups, white space,
    digits and white space (possibly none), at the end of the line. *)
Definition re_last_number : regex :=
  (Grp 1 (Rep cls_s 1) ;; Grp 2 (Rep cls_d 1) ;; Grp 3 (Rep cls_s 0) ;; Eol)%regex.

(** [s.split('\n')] *)
Fixpoint split_lf (s : str) : list str :=
  match s with
  | [] => [[]]
  | c :: s' =>
      if Ascii.eqb c LF then [] :: split_lf s'
      else
        match split_lf s' with
        | [] => [[c]]
        | l :: ls => (c :: l) :: ls
        end
  end.

(** One turn of the loop over the lines; [None] when [int] or [str]
    raises. *)
Definition adjust_line (adjustment : Z) (line : str) : option str :=
  match re_search re_last_number line with
  | Some mo =>
      let spaces_before := group line mo 1 in
      let page_num := group line mo 2 in
      let spaces_after := group line mo 3 in
      let* n := int page_num in
      let new_page := Z.max 1 (n + adjustment) in
      let* new_text := str_of_int new_page in
      Some (firstn (m_start mo) line ++ spaces_before ++ new_text ++ spaces_after)
  | None => Some line
  end.

Definition adjust_page_numbers (editor_text : str) (amount direction : Z)
  : option str :=
  let adjustment := (amount * direction)%Z in
  let outline_text := strip editor_text in
  let lines := split_lf outline_text in
  let* adjusted_lines := sequence (map (adjust_line adjustment) lines) in
  Some (join [LF] adjusted_lines).

(** The forest with every page number moved by an amount, and kept at 1 or
    more. *)
Fixpoint shift_pages (adjustment : Z) (n : node) : node :=
  match n with
  | Node t l p cs =>
      Node t l (Z.max 1 (p + adjustment)) (map (shift_pages adjustment) cs)
  end.

(** A line that [convert_json_to_text] writes for a node of an exportable
    forest. *)
Definition written_line (l : str) : Prop :=
  exists depth t p,
    l = entry_line depth t p /\
    head_ok t = true /\ last_ok t = true /\ no_break t = true /\ (0 <= p)%Z.

(** ** The XML form of an outline (genie_outliner.py)

    An element of [xml.etree.ElementTree] is a tag, a dict of attributes and
    a list of child elements. *)
Unset Elimination Schemes.
Inductive xml_element : Type :=
| Element (e_tag : str) (e_attrib : list (str * str)) (e_children : list xml_element).
Set Elimination Schemes.

Fixpoint str_eqb (a b : str) : bool :=
  match a, b with
  | [], [] => true
  | x :: a', y :: b' => Ascii.eqb x y && str_eqb a' b'
  | _, _ => false
  end.

(** [attrib[key] = value] and [attrib.get(key, default)] *)
Fixpoint attrib_set (d : list (str * str)) (key value : str) : list (str * str) :=
  match d with
  | [] => [(key, value)]
  | (k, v) :: d' =>
      if str_eqb k key then (k, value) :: d' else (k, v) :: attrib_set d' key value
  end.

Fixpoint attrib_get (d : list (str * str)) (key default : str) : str :=
  match d with
  | [] => default
  | (k, v) :: d' => if str_eqb k key then v else attrib_get d' key default
  end.

(** [element.set(key, value)], [element.get(key, default)] and the parent
    after [ET.SubElement(parent, tag)] has made the child what it is at the
    end of the turn. *)
Definition element_set (e : xml_element) (key value : str) : xml_element :=
  let 'Element t a cs := e in Element t (attrib_set a key value) cs.

Definition element_get (e : xml_element) (key default : str) : str :=
  let 'Element _ a _ := e in attrib_get a key default.

Definition with_sub_element (parent child : xml_element) : xml_element :=
  let 'Element t a cs := parent in Element t a (cs ++ [child]).

(** create_xml_from_outline: the element of one item, with the elements of
    its children under it (the inner loop is the recursive call, skipped for
    an item without children, where it would add nothing), and the parent
    element after the loop over the items; [None] when [str] raises. *)
Fixpoint item_element (item : node) {struct item} : option xml_element :=
  match item with
  | Node title _ page children =>
      let element := Element (py "item") [] [] in
      let element := element_set element (py "title") title in
      let* page_text := str_of_int page in
      let element := element_set element (py "page") page_text in
      (fix items (cs : list node) (parent_element : xml_element)
         : option xml_element :=
         match cs with
         | [] => Some parent_element
         | c :: cs' =>
             let* child := item_element c in
             items cs' (with_sub_element parent_element child)
         end) children element
  end.

Fixpoint create_xml_from_outline (outline_items : list node) (parent_element : xml_element)
  : option xml_element :=
  match outline_items with
  | [] => Some parent_element
  | item :: rest =>
      let* child := item_element item in
      create_xml_from_outline rest (with_sub_element parent_element child)
  end.

(** The element that an item gets when every page under it can be
    written. *)
Fixpoint element_of (item : node) : xml_element :=
  match item with
  | Node title _ page children =>
      Element (py "item") [(py "title", title); (py "page", decimal_numeral page)]
              (map element_of children)
  end.

(** convert_xml_to_text: [root.findall("item")] are the children of the
    root with tag item, in order. *)
Fixpoint convert_xml_to_text (root : xml_element) (level : nat) {struct root} : str :=
  match root with
  | Element _ _ children =>
      (fix items (es : list xml_element) : str :=
         match es with
         | [] => []
         | item :: es' =>
             (match item with
              | Element tag _ sub =>
                  if str_eqb tag (py "item") then
                    let title := element_get item (py "title") [] in
                    let page := element_get item (py "page") (py "0") in
                    let indent := str_mul (py "    ") level in
                    (indent ++ title ++ py " " ++ page ++ [LF]) ++
                    (match sub with
                     | [] => []
                     | _ :: _ => convert_xml_to_text item (S level)
                     end)
                  else []
              end) ++ items es'
         end) children
  end.

(** ** The tree view (genie_outliner.py)

    The items of the [ttk.Treeview]: each has a text and child items. *)
Unset Elimination Schemes.
Inductive tree_item : Type :=
| TreeItem (item_text : str) (item_children : list tree_item).
Set Elimination Schemes.

(** populate_treeview, on an empty tree: [add_node] inserts an item for the
    node and then one for each child under it; [None] when the formatting
    of a page raises. *)
Fixpoint add_node (n : node) : option tree_item :=
  match n with
  | Node title _ page children =>
      let* page_text := str_of_int page in
      let item_text := title ++ py " [Page: " ++ page_text ++ py "]" in
      let* items := sequence (map add_node children) in
      Some (TreeItem item_text items)
  end.

Definition populate_treeview (outline : list node) : option (list tree_item) :=
  sequence (map add_node outline).

(** The item that a node gets when every page under it can be written. *)
Fixpoint item_of (n : node) : tree_item :=
  match n with
  | Node title _ page children =>
      TreeItem (title ++ py " [Page: " ++ decimal_numeral page ++ py "]")
               (map item_of children)
  end.

(** The pattern of the page label of an item: [Page: digits] *)
Definition re_page_label : regex :=
  (Cls (chr "[") ;; Cls (chr "P") ;; Cls (chr "a") ;; Cls (chr "g") ;; Cls (chr "e") ;;
   Cls (chr ":") ;; Cls (chr " ") ;; Grp 1 (Rep cls_d 1) ;; Cls (chr "]"))%regex.

(** _build_outline_text: the line of one item, the text of an item with the
    items under it, and the text of a list of items. *)
Definition tree_item_line (level : nat) (item_text : str) : str :=
  let page_match := re_search re_page_label item_text in
  let title :=
    match page_match with
    | Some mo => strip (firstn (m_start mo) item_text)
    | None => item_text
    end in
  let page :=
    match page_match with
    | Some mo => group item_text mo 1
    | None => py "1"
    end in
  let indent := str_mul (py "    ") level in
  indent ++ title ++ py " " ++ page ++ [LF].

Fixpoint tree_item_text (level : nat) (item : tree_item) {struct item} : str :=
  match item with
  | TreeItem item_text children =>
      tree_item_line level item_text ++
      (fix items (cs : list tree_item) : str :=
         match cs with
         | [] => []
         | c :: cs' => tree_item_text (S level) c ++ items cs'
         end) children
  end.

Fixpoint _build_outline_text (items : list tree_item) (level : nat) : str :=
  match items with
  | [] => []
  | item :: rest => tree_item_text level item ++ _build_outline_text rest level
  end.

(** A title that the tree view shows and gives back: not empty, no white
    space at its ends and no opening bracket in it. *)
Definition shown_title (t : str) : bool :=
  head_ok t && last_ok t && forallb (fun c => negb (Ascii.eqb c "["%char)) t.

(** * Properties *)

Unset Implicit Arguments.

(** ** convert_to_number *)

Lemma int_decimal_value (s : str) (acc : Z) :
  fold_left (fun a c => a * 10 + digit_value c)%Z s acc
  = (acc * 10 ^ Z.of_nat (List.length s) + decimal_value s)%Z.
Proof.
  revert acc; induction s as [|c s IH]; intros acc;
    cbn [fold_left decimal_value List.length].
  - change (Z.of_nat 0) with 0%Z. lia.
  - rewrite IH, Nat2Z.inj_succ, Z.pow_succ_r by lia. ring.
Qed.

Lemma roman_scan_neighbour (chars : list N) :
  fold_left roman_step (rev chars) (0, 0)%Z
  = (neighbour_sum (map (fun ch => dict_get roman_map ch 0%Z) chars),
     hd 0%Z (map (fun ch => dict_get roman_map ch 0%Z) chars)).
Proof.
  induction chars as [|ch chars IH]; simpl.
  - reflexivity.
  - rewrite fold_left_app, IH. simpl. f_equal. lia.
Qed.

(** C1, as amended: the empty text converts to 0; a run of decimal digits
    converts to its value in base 10 when it has no more than 4300 digits,
    and raises ValueError when it has more; any other text that
    [str.isdigit] rejects converts to the sum in which a letter counts
    negatively when its value is less than the value of the letter
    immediately to its right, and positively otherwise, characters other
    than I, V, X, L, C, D, M (after upper-casing) having the value 0, the sum
    being floored at 0. *)
Theorem convert_to_number_neighbour_rule (s : str)
  (H : implb (isdigit s) (forallb isdecimal_char s) = true) :
  convert_to_number s =
    if is_empty s then Some 0%Z
    else if isdigit s then
      if (Z.of_nat (List.length s) <=? int_max_str_digits)%Z
      then Some (decimal_value s)
      else None
    else Some (Z.max (neighbour_sum (letter_values s)) 0).
Proof.
  unfold convert_to_number. destruct s as [|c s]; [reflexivity|].
  cbn [is_empty]. destruct (isdigit (c :: s)) eqn:Hd.
  - cbn [implb] in H. unfold int. rewrite H.
    destruct (Z.of_nat (List.length (c :: s)) <=? int_max_str_digits)%Z; [|reflexivity].
    f_equal. rewrite int_decimal_value. lia.
  - unfold letter_values. rewrite roman_scan_neighbour. reflexivity.
Qed.

Lemma convert_to_number_neighbour_rule_witness :
  implb (isdigit (py "MCMXCIV")) (forallb isdecimal_char (py "MCMXCIV")) = true /\
  convert_to_number (py "MCMXCIV") = Some 1994%Z.
Proof.
  split; [reflexivity|].
  rewrite (convert_to_number_neighbour_rule (py "MCMXCIV")); reflexivity.
Defined.

(** C1, as stated, fails: on IIX the module returns 10 (the first I is not
    less than the I to its right, so it is added), the running-maximum scan
    gives 8, and this malformed numeral does not convert to 0. *)
Lemma convert_to_number_not_running_max :
  convert_to_number (py "IIX") = Some 10%Z /\
  running_max_scan (py "IIX") = 8%Z /\
  convert_to_number (py "IIX") <> Some (running_max_scan (py "IIX")) /\
  convert_to_number (py "IIX") <> Some 0%Z.
Proof. repeat split; try reflexivity; vm_compute; discriminate. Qed.

(** ** The matcher and what a pattern matches *)

Section MatcherFacts.
Variable R : Type.
Implicit Types (k : cont R) (g : caps).

Lemma rep_sound p lo pos rest g k x :
  rep p lo pos rest g k = Some x ->
  exists xs rest',
    rest = xs ++ rest' /\ forallb p xs = true /\ lo <= List.length xs /\
    k (pos + List.length xs) rest' g = Some x.
Proof.
  revert lo pos; induction rest as [|c rest IH]; intros lo pos H; cbn [rep] in H.
  - destruct lo; [|discriminate].
    exists [], []. rewrite Nat.add_0_r. repeat split; auto.
  - assert (Hstop : match lo with O => k pos (c :: rest) g | S _ => None end = Some x ->
                    exists xs rest', c :: rest = xs ++ rest' /\ forallb p xs = true /\
                      lo <= List.length xs /\ k (pos + List.length xs) rest' g = Some x).
    { intros Hs. destruct lo; [|discriminate].
      exists [], (c :: rest). rewrite Nat.add_0_r. repeat split; auto. }
    destruct (p c) eqn:Hpc; [|auto].
    destruct (rep p (Nat.pred lo) (S pos) rest g k) eqn:Hrec; [|auto].
    injection H as ->. apply IH in Hrec as (xs & rest' & -> & Hall & Hlo & Hk).
    exists (c :: xs), rest'. cbn [forallb List.length app]. rewrite Hpc, Hall.
    repeat split; auto; [lia|]. rewrite <- Hk. f_equal. lia.
Qed.

Lemma rep_complete p lo pos xs rest g k x :
  forallb p xs = true -> lo <= List.length xs ->
  k (pos + List.length xs) rest g = Some x ->
  exists y, rep p lo pos (xs ++ rest) g k = Some y.
Proof.
  revert lo pos; induction xs as [|c xs IH]; intros lo pos Hall Hlo Hk.
  - cbn [List.length] in *. rewrite Nat.add_0_r in Hk.
    assert (lo = 0) as -> by lia. cbn [app].
    destruct rest as [|c rest]; cbn [rep].
    + eauto.
    + destruct (p c); [|eauto].
      destruct (rep p (Nat.pred 0) (S pos) rest g k); eauto.
  - cbn [forallb] in Hall. apply andb_true_iff in Hall as [Hc Hall].
    cbn [app rep]. rewrite Hc.
    destruct (IH (Nat.pred lo) (S pos)) as [y Hy]; auto.
    + cbn [List.length] in Hlo. lia.
    + rewrite <- Hk. f_equal. cbn [List.length]. lia.
    + rewrite Hy. eauto.
Qed.

Lemma m_sound r : forall pos rest g k x,
  m r pos rest g k = Some x ->
  exists pos' rest' g',
    matches r pos rest g pos' rest' g' /\ k pos' rest' g' = Some x.
Proof.
  induction r as [p|p lo|r1 IH1 r2 IH2|r1 IH1 r2 IH2|n r IH| |];
    intros pos rest g k x H; cbn [m] in H.
  - destruct rest as [|c rest]; [discriminate|].
    destruct (p c) eqn:Hp; [|discriminate].
    eexists _, _, _; split; [apply M_Cls; eauto|eauto].
  - apply rep_sound in H as (xs & rest' & -> & Hall & Hlo & Hk).
    eexists _, _, _; split; [apply M_Rep; eauto|eauto].
  - apply IH1 in H as (pos1 & rest1 & g1 & Hm1 & H).
    apply IH2 in H as (pos2 & rest2 & g2 & Hm2 & H).
    eexists _, _, _; split; [eapply M_Seq; eauto|eauto].
  - destruct (m r1 pos rest g k) eqn:H1.
    + injection H as ->. apply IH1 in H1 as (pos' & rest' & g' & Hm & Hk).
      eexists _, _, _; split; [apply M_AltL; eauto|eauto].
    + apply IH2 in H as (pos' & rest' & g' & Hm & Hk).
      eexists _, _, _; split; [apply M_AltR; eauto|eauto].
  - apply IH in H as (pos' & rest' & g' & Hm & Hk).
    eexists _, _, _; split; [apply M_Grp; eauto|eauto].
  - destruct pos; [|discriminate].
    eexists _, _, _; split; [apply M_Bol|eauto].
  - destruct rest as [|c [|c' rest]]; try discriminate.
    + eexists _, _, _; split; [apply M_Eol; auto|eauto].
    + destruct (Ascii.eqb c LF) eqn:E; [|discriminate].
      apply Ascii.eqb_eq in E as ->.
      eexists _, _, _; split; [apply M_Eol; auto|eauto].
Qed.

Lemma m_complete r pos rest g pos' rest' g' :
  matches r pos rest g pos' rest' g' ->
  forall k x, k pos' rest' g' = Some x -> exists y, m r pos rest g k = Some y.
Proof.
  induction 1 as [p c pos rest g Hp|p lo xs pos rest g Hall Hlo
                 |r1 r2 pos rest g pos1 rest1 g1 pos2 rest2 g2 _ IH1 _ IH2
                 |r1 r2 pos rest g pos' rest' g' _ IH
                 |r1 r2 pos rest g pos' rest' g' _ IH
                 |n r pos rest g pos' rest' g' _ IH
                 |rest g|pos rest g Hr]; intros k x Hk; cbn [m].
  - rewrite Hp. eauto.
  - eapply rep_complete; eauto.
  - destruct (IH2 _ _ Hk) as [y Hy]. eapply IH1. exact Hy.
  - destruct (IH _ _ Hk) as [y ->]. eauto.
  - destruct (m r1 pos rest g k); [eauto|]. eapply IH; eauto.
  - eapply (IH (fun pos' rest' g' => k pos' rest' ((n, (pos, pos')) :: g'))). exact Hk.
  - eauto.
  - destruct Hr as [-> | ->]; [eauto|]. rewrite Ascii.eqb_refl. eauto.
Qed.
End MatcherFacts.

Lemma match_at_sound r pos rest mo :
  match_at r pos rest = Some mo ->
  exists e rest' g,
    matches r pos rest [] e rest' g /\ mo = MatchObj pos e g.
Proof.
  unfold match_at. intros H. apply m_sound in H as (e & rest' & g & Hm & Hk).
  injection Hk as <-. eauto.
Qed.

Lemma match_at_complete r pos rest e rest' g :
  matches r pos rest [] e rest' g -> exists mo, match_at r pos rest = Some mo.
Proof.
  intros H. unfold match_at. eapply m_complete; eauto.
Qed.

(** The scan returns the match at the first position that has one. *)
Lemma search_from_spec r : forall rest pos mo,
  search_from r pos rest = Some mo ->
  exists j,
    j <= List.length rest /\
    match_at r (pos + j) (skipn j rest) = Some mo /\
    forall j', j' < j -> match_at r (pos + j') (skipn j' rest) = None.
Proof.
  induction rest as [|c rest IH]; intros pos mo H; cbn [search_from] in H.
  - destruct (match_at r pos []) eqn:E; [|discriminate]. injection H as ->.
    exists 0. rewrite Nat.add_0_r. repeat split; auto. intros; lia.
  - destruct (match_at r pos (c :: rest)) eqn:E.
    + injection H as ->. exists 0. rewrite Nat.add_0_r. repeat split; auto.
      * cbn; lia.
      * intros; lia.
    + apply IH in H as (j & Hj & Hm & Hnone). exists (S j).
      cbn [skipn List.length]. rewrite Nat.add_succ_r. repeat split; auto; [lia|].
      intros [|j'] Hlt; [rewrite Nat.add_0_r; exact E|].
      cbn [skipn]. rewrite Nat.add_succ_r. apply Hnone. lia.
Qed.

Lemma search_from_none r : forall rest pos,
  search_from r pos rest = None ->
  forall j, j <= List.length rest -> match_at r (pos + j) (skipn j rest) = None.
Proof.
  induction rest as [|c rest IH]; intros pos H j Hj; cbn [search_from] in H.
  - cbn in Hj. assert (j = 0) as -> by lia. rewrite Nat.add_0_r. cbn [skipn].
    destruct (match_at r pos []); [discriminate|reflexivity].
  - destruct (match_at r pos (c :: rest)) eqn:E; [discriminate|].
    destruct j as [|j]; [rewrite Nat.add_0_r; exact E|].
    cbn [skipn]. rewrite Nat.add_succ_r. apply (IH (S pos)); auto. cbn in Hj. lia.
Qed.

Lemma search_from_some r : forall rest pos j mo,
  j <= List.length rest ->
  match_at r (pos + j) (skipn j rest) = Some mo ->
  exists mo', search_from r pos rest = Some mo'.
Proof.
  intros rest pos j mo Hj Hm.
  destruct (search_from r pos rest) eqn:E; [eauto|].
  rewrite (search_from_none _ _ _ E j Hj) in Hm. discriminate.
Qed.

(** ** Trees in the heap *)

Lemma node_induction (P : node -> Prop) :
  (forall t l p cs, Forall P cs -> P (Node t l p cs)) -> forall n, P n.
Proof.
  intros H. fix IH 1. intros [t l p cs]. apply H.
  induction cs as [|c cs IHcs]; constructor; auto.
Qed.

Lemma layout_eq a t l p cs :
  layout a (Node t l p cs) = Item t l p (child_addrs (S a) cs) :: layouts (S a) cs.
Proof.
  reflexivity.
Qed.

Lemma sizes_cons c cs : sizes (c :: cs) = size c + sizes cs.
Proof. reflexivity. Qed.

Lemma sizes_app cs ds : sizes (cs ++ ds) = sizes cs + sizes ds.
Proof. unfold sizes. rewrite map_app, list_sum_app. reflexivity. Qed.

Lemma size_eq t l p cs : size (Node t l p cs) = S (sizes cs).
Proof. reflexivity. Qed.

Lemma length_layout n : forall a, List.length (layout a n) = size n.
Proof.
  induction n as [t l p cs IH] using node_induction. intros a.
  rewrite layout_eq, size_eq. cbn [List.length]. f_equal.
  generalize (S a). induction IH as [|c cs Hc _ IHcs]; intros b.
  - reflexivity.
  - cbn [layouts]. rewrite length_app, Hc, IHcs. reflexivity.
Qed.

Lemma length_layouts cs : forall a, List.length (layouts a cs) = sizes cs.
Proof.
  induction cs as [|c cs IH]; intros a; [reflexivity|].
  cbn [layouts]. rewrite length_app, length_layout, IH. reflexivity.
Qed.

Lemma layouts_app cs ds : forall a,
  layouts a (cs ++ ds) = layouts a cs ++ layouts (a + sizes cs) ds.
Proof.
  induction cs as [|c cs IH]; intros a; cbn [layouts app].
  - unfold sizes; cbn. rewrite Nat.add_0_r. reflexivity.
  - rewrite IH, sizes_cons, Nat.add_assoc, app_assoc. reflexivity.
Qed.

Lemma child_addrs_app cs ds : forall a,
  child_addrs a (cs ++ ds) = child_addrs a cs ++ child_addrs (a + sizes cs) ds.
Proof.
  induction cs as [|c cs IH]; intros a; cbn [child_addrs app].
  - unfold sizes; cbn. rewrite Nat.add_0_r. reflexivity.
  - rewrite IH, sizes_cons, Nat.add_assoc. reflexivity.
Qed.

Lemma frame_addr_cons f below :
  frame_addr (f :: below) = S (sizes (f_closed f)) + frame_addr below.
Proof. reflexivity. Qed.

Lemma length_spine_prefix below : List.length (spine_prefix below) = frame_addr below.
Proof.
  induction below as [|f below IH]; [reflexivity|].
  cbn [spine_prefix]. rewrite length_app, IH. cbn [List.length].
  rewrite length_layouts, frame_addr_cons. lia.
Qed.

Lemma length_spine_heap f below :
  List.length (spine_heap (f :: below)) = frame_addr (f :: below).
Proof.
  cbn [spine_heap]. rewrite length_app, length_spine_prefix, length_layout, frame_addr_cons.
  unfold close. rewrite size_eq. lia.
Qed.

(** Popping changes neither the heap nor the addresses below the top. *)
Lemma spine_heap_merge g f below :
  spine_heap (merge g f :: below) = spine_heap (g :: f :: below).
Proof.
  cbn [spine_heap spine_prefix]. rewrite <- app_assoc. f_equal.
  unfold close at 1, merge. cbn [f_title f_level f_page f_closed].
  rewrite layout_eq, child_addrs_app, layouts_app. cbn [child_addrs layouts app].
  rewrite app_nil_r, frame_addr_cons. cbn [app]. do 3 f_equal. lia.
Qed.

Lemma spine_heap_collapse below : forall top,
  spine_heap (top :: below) = layout 0 (close (collapse top below)).
Proof.
  induction below as [|f below IH]; intros top.
  - cbn [spine_heap spine_prefix collapse app]. reflexivity.
  - cbn [collapse]. rewrite <- IH, spine_heap_merge. reflexivity.
Qed.

Lemma top_item f below :
  nth_error (spine_heap (f :: below)) (frame_addr below)
  = Some (Item (f_title f) (f_level f) (f_page f)
               (child_addrs (S (frame_addr below)) (f_closed f))).
Proof.
  cbn [spine_heap]. rewrite nth_error_app2 by (rewrite length_spine_prefix; lia).
  rewrite length_spine_prefix, Nat.sub_diag. unfold close. rewrite layout_eq. reflexivity.
Qed.

Lemma append_child_at pre it post n a :
  n = List.length pre ->
  append_child (pre ++ it :: post) n a
  = pre ++ Item (title it) (level it) (page_number it) (children it ++ [a]) :: post.
Proof.
  intros ->. induction pre as [|x pre IH]; cbn [append_child List.length app].
  - reflexivity.
  - rewrite IH. reflexivity.
Qed.

(** Appending a new dict to the children of the top of the stack and
    pushing it. *)
Lemma spine_heap_push f below t l p :
  append_child (spine_heap (f :: below)) (frame_addr below)
               (List.length (spine_heap (f :: below))) ++ [Item t l p []]
  = spine_heap (Frame t l p [] :: f :: below).
Proof.
  rewrite length_spine_heap. cbn [spine_heap spine_prefix].
  unfold close at 1. rewrite layout_eq.
  rewrite append_child_at by (symmetry; apply length_spine_prefix).
  cbn [title level page_number children]. rewrite <- !app_assoc. f_equal.
  cbn [app]. f_equal.
  - rewrite frame_addr_cons.
    replace (S (sizes (f_closed f)) + frame_addr below)
      with (S (frame_addr below) + sizes (f_closed f)) by lia. reflexivity.
Qed.

Lemma sequence_map_some (A B : Type) (f : A -> option B) xs ys :
  Forall2 (fun x y => f x = Some y) xs ys -> sequence (map f xs) = Some ys.
Proof.
  induction 1 as [|x y xs ys Hxy _ IH]; cbn [map sequence]; [reflexivity|].
  rewrite Hxy, IH. reflexivity.
Qed.

(** Reading a block of the heap gives back the tree that lies there. *)
Lemma read_node_layout n : forall fuel h pre post a,
  h = pre ++ layout a n ++ post -> List.length pre = a -> size n <= fuel ->
  read_node fuel h a = Some n.
Proof.
  induction n as [t l p cs IH] using node_induction.
  intros fuel h pre post a Hh Hpre Hfuel. rewrite size_eq in Hfuel.
  destruct fuel as [|fuel]; [lia|]. cbn [read_node].
  rewrite layout_eq in Hh.
  assert (Hit : nth_error h a = Some (Item t l p (child_addrs (S a) cs))).
  { rewrite Hh, nth_error_app2 by lia. rewrite Hpre, Nat.sub_diag. reflexivity. }
  rewrite Hit. cbn [children title level page_number].
  enough (Hcs : sequence (map (read_node fuel h) (child_addrs (S a) cs)) = Some cs)
    by (rewrite Hcs; reflexivity).
  apply sequence_map_some.
  assert (Hsz : sizes cs <= fuel) by lia. clear Hit Hfuel.
  change (pre ++ (Item t l p (child_addrs (S a) cs) :: layouts (S a) cs) ++ post)
    with (pre ++ [Item t l p (child_addrs (S a) cs)] ++ layouts (S a) cs ++ post) in Hh.
  rewrite app_assoc in Hh.
  assert (Hlen : List.length (pre ++ [Item t l p (child_addrs (S a) cs)]) = S a)
    by (rewrite length_app; cbn; lia).
  revert Hh Hlen Hsz. generalize (pre ++ [Item t l p (child_addrs (S a) cs)]).
  generalize (S a). clear Hpre.
  induction IH as [|c cs Hc _ IHcs]; intros b pre' Hh Hlen Hsz; cbn [child_addrs].
  - constructor.
  - rewrite sizes_cons in Hsz. cbn [layouts] in Hh. rewrite <- app_assoc in Hh.
    constructor.
    + eapply Hc; eauto. lia.
    + apply (IHcs (b + size c) (pre' ++ layout b c)).
      * rewrite Hh, <- app_assoc. reflexivity.
      * rewrite length_app, length_layout. lia.
      * lia.
Qed.

Lemma read_forest_layout t l p forest :
  read_forest (layout 0 (Node t l p forest)) = Some forest.
Proof.
  set (h := layout 0 (Node t l p forest)).
  assert (H : read_node (S (List.length h)) h 0 = Some (Node t l p forest)).
  { apply (read_node_layout _ _ _ [] []); [rewrite app_nil_r; reflexivity|reflexivity|].
    unfold h. rewrite length_layout. lia. }
  unfold read_forest. cbn [read_node] in H.
  destruct (nth_error h 0) as [it|]; [|discriminate].
  destruct (sequence (map (read_node (List.length h) h) (children it))) as [cs|];
    [|discriminate].
  injection H as _ _ _ ->. reflexivity.
Qed.

(** ** The numeral token of a page match *)

Lemma skipn_skipn_add (A : Type) (l : list A) a b :
  skipn a (skipn b l) = skipn (b + a) l.
Proof.
  revert l; induction b as [|b IH]; intros l; [reflexivity|].
  destruct l as [|x l]; cbn [skipn Nat.add]; [apply skipn_nil|apply IH].
Qed.

Lemma slice_at s j ws xs rest :
  skipn j s = ws ++ xs ++ rest ->
  slice s (j + List.length ws) (j + List.length ws + List.length xs) = xs.
Proof.
  intros H. unfold slice.
  replace (j + List.length ws + List.length xs - (j + List.length ws))
    with (List.length xs) by lia.
  rewrite <- skipn_skipn_add, H, skipn_app, skipn_all, Nat.sub_diag.
  cbn [app skipn]. rewrite firstn_app, firstn_all, Nat.sub_diag. cbn [firstn].
  apply app_nil_r.
Qed.

Lemma roman_not_digit c : cls_roman c = true -> isdigit_char c = false.
Proof.
  unfold cls_roman, one_of. cbn [py list_ascii_of_string existsb].
  rewrite !orb_true_iff, !Ascii.eqb_eq.
  intros [->|[->|[->|[->|[->|[->|[->|H]]]]]]]; try reflexivity; discriminate.
Qed.

Lemma decimal_is_digit c : isdecimal_char c = true -> isdigit_char c = true.
Proof. unfold isdigit_char. intros ->. reflexivity. Qed.

Lemma decimal_token_isdigit tok :
  tok <> [] -> forallb cls_d tok = true -> isdigit tok = true.
Proof.
  intros Hne Hd. destruct tok as [|c tok]; [congruence|].
  unfold isdigit. apply forallb_forall. intros x Hx. apply decimal_is_digit.
  revert x Hx. apply forallb_forall. exact Hd.
Qed.

Lemma roman_token_not_digit tok :
  tok <> [] -> forallb cls_roman tok = true -> isdigit tok = false.
Proof.
  intros Hne Hr. destruct tok as [|c tok]; [congruence|].
  cbn [isdigit forallb]. cbn [forallb] in Hr. apply andb_true_iff in Hr as [Hc _].
  rewrite (roman_not_digit _ Hc). reflexivity.
Qed.

(** A numeral token converts unless it is a run of too many digits. *)
Lemma numeral_converts tok :
  tok <> [] -> forallb cls_d tok = true \/ forallb cls_roman tok = true ->
  isdigit tok && (int_max_str_digits <? Z.of_nat (List.length tok))%Z = false ->
  exists n, convert_to_number tok = Some n.
Proof.
  intros Hne [Hd | Hr] Hshort.
  - rewrite (decimal_token_isdigit tok Hne Hd) in Hshort. cbn [andb] in Hshort.
    apply Z.ltb_ge in Hshort. apply Z.leb_le in Hshort.
    unfold convert_to_number. rewrite (decimal_token_isdigit tok Hne Hd).
    destruct tok as [|c tok]; [congruence|].
    unfold int. unfold cls_d in Hd. rewrite Hd, Hshort. eauto.
  - unfold convert_to_number. rewrite (roman_token_not_digit tok Hne Hr).
    destruct tok as [|c tok]; [congruence|].
    destruct (fold_left roman_step _ _). eauto.
Qed.

Lemma numeral_too_long tok :
  isdigit tok && (int_max_str_digits <? Z.of_nat (List.length tok))%Z = true ->
  convert_to_number tok = None.
Proof.
  intros H. apply andb_true_iff in H as [Hd Hlong]. apply Z.ltb_lt in Hlong.
  unfold convert_to_number. rewrite Hd. destruct tok as [|c tok]; [discriminate|].
  unfold int. destruct (forallb isdecimal_char (c :: tok)); [|reflexivity].
  replace (Z.of_nat (List.length (c :: tok)) <=? int_max_str_digits)%Z with false
    by (symmetry; apply Z.leb_gt; exact Hlong).
  reflexivity.
Qed.

Ltac inv_matches :=
  repeat match goal with
  | H : matches (Seq _ _) _ _ _ _ _ _ |- _ => inversion H; subst; clear H
  | H : matches (Grp _ _) _ _ _ _ _ _ |- _ => inversion H; subst; clear H
  | H : matches (Alt _ _) _ _ _ _ _ _ |- _ => inversion H; subst; clear H
  | H : matches (Rep _ _) _ _ _ _ _ _ |- _ => inversion H; subst; clear H
  | H : matches (Cls _) _ _ _ _ _ _ |- _ => inversion H; subst; clear H
  | H : matches Bol _ _ _ _ _ _ |- _ => inversion H; subst; clear H
  | H : matches Eol _ _ _ _ _ _ |- _ => inversion H; subst; clear H
  end.

(** What a match of the page pattern consists of: white space, then a token
    of decimal digits only or of Roman capitals only, up to the end. *)
Lemma page_match_shape content mo :
  re_search re_page_match content = Some mo ->
  exists ws tok tail,
    skipn (m_start mo) content = ws ++ tok ++ tail /\
    ws <> [] /\ forallb cls_s ws = true /\
    tok <> [] /\ (forallb cls_d tok = true \/ forallb cls_roman tok = true) /\
    (tail = [] \/ tail = [LF]) /\
    group content mo 1 = tok /\
    m_start mo <= List.length content.
Proof.
  unfold re_search. intros H.
  apply search_from_spec in H as (j & Hj & Hm & _). cbn [Nat.add] in Hm.
  apply match_at_sound in Hm as (e & rest' & g & Hm & ->). cbn [m_start].
  unfold re_page_match, re_numeral in Hm.
  inv_matches;
    match goal with
    | Hs : forallb cls_s ?ws = true, Hl : 1 <= List.length ?ws,
      Ht : forallb _ ?tok = true, Hl' : 1 <= List.length ?tok,
      Heq : ?ws ++ ?tok ++ ?tail = skipn _ _ |- _ =>
        exists ws, tok, tail; repeat split; auto;
        try (intros ->; cbn in Hl, Hl'; lia);
        unfold group; cbn [m_caps span_of Nat.eqb];
        apply slice_at with (rest := tail); auto
    end.
Qed.

(** The title and the page of a line are found unless its token is a run
    of too many digits; then the conversion raises. *)
Lemma split_title_page_short line last :
  long_token line = false ->
  exists t p l', split_title_page (lstrip line) last = Some (t, p, l').
Proof.
  unfold long_token, page_token, split_title_page.
  destruct (re_search re_page_match (lstrip line)) as [mo|] eqn:E; [|eauto].
  intros Hshort.
  apply page_match_shape in E as (ws & tok & tail & _ & _ & _ & Hne & Hcls & _ & Hg & _).
  rewrite Hg in *. destruct (numeral_converts tok Hne Hcls Hshort) as [n ->]. eauto.
Qed.

Lemma split_title_page_long line last :
  long_token line = true -> split_title_page (lstrip line) last = None.
Proof.
  unfold long_token, page_token, split_title_page.
  destruct (re_search re_page_match (lstrip line)) as [mo|]; [|discriminate].
  intros Hlong. rewrite (numeral_too_long _ Hlong). reflexivity.
Qed.

(** ** The tree builder keeps its stack and heap in shape *)

Lemma in_edges_node t l p cs a b :
  In (a, b) (edges (Node t l p cs)) <->
  (a = Node t l p cs /\ In b cs) \/ exists c, In c cs /\ In (a, b) (edges c).
Proof.
  cbn [edges]. rewrite in_app_iff, in_map_iff, in_flat_map. split.
  - intros [(c & Hc & Hin) | H]; [left | right; exact H].
    injection Hc as <- <-. auto.
  - intros [[-> Hin] | H]; [left; exists b; auto | right; exact H].
Qed.

Lemma levels_grow_close f : closed_ok f -> levels_grow (close f).
Proof.
  unfold closed_ok, levels_grow, close. rewrite Forall_forall. intros H a b Hin.
  apply in_edges_node in Hin as [[-> Hin] | (c & Hc & Hin)].
  - cbn [n_level]. apply H. exact Hin.
  - destruct (H c Hc) as [_ Hg]. apply Hg. exact Hin.
Qed.

Lemma frames_ok_closed top below : frames_ok top below -> closed_ok top.
Proof. destruct below; cbn [frames_ok]; tauto. Qed.

Lemma frames_ok_merge top g below :
  frames_ok top (g :: below) -> frames_ok (merge top g) below.
Proof.
  cbn [frames_ok]. intros (Htop & Hlt & Hg).
  assert (Hm : closed_ok (merge top g)).
  { unfold closed_ok, merge. cbn [f_closed f_level]. apply Forall_app. split.
    - apply (frames_ok_closed _ _ Hg).
    - constructor; [|constructor]. split; [exact Hlt | apply levels_grow_close; exact Htop]. }
  destruct below as [|g' below]; cbn [frames_ok] in *; tauto.
Qed.

Lemma collapse_ok below : forall top,
  frames_ok top below ->
  closed_ok (collapse top below) /\ f_level (collapse top below) = (-1)%Z.
Proof.
  induction below as [|g below IH]; intros top H.
  - cbn [frames_ok collapse] in *. exact H.
  - cbn [collapse]. apply IH. apply frames_ok_merge. exact H.
Qed.

(** The unwinding loop stops at a dict of a lesser level, without an
    IndexError: the root is never popped. *)
Lemma unwind_ok below : forall top lvl,
  frames_ok top below -> (0 <= lvl)%Z ->
  exists top' below',
    unwind (spine_heap (top :: below)) lvl (spine_stack (top :: below))
      = Some (spine_stack (top' :: below')) /\
    spine_heap (top' :: below') = spine_heap (top :: below) /\
    frames_ok top' below' /\ (f_level top' < lvl)%Z.
Proof.
  induction below as [|g below IH]; intros top lvl Hok Hlvl;
    cbn [spine_stack unwind]; rewrite top_item; cbn [level];
    destruct (Z.leb lvl (f_level top)) eqn:E.
  - cbn [frames_ok] in Hok. apply Z.leb_le in E. lia.
  - exists top, []. apply Z.leb_gt in E. auto.
  - destruct (IH (merge top g) lvl (frames_ok_merge _ _ _ Hok) Hlvl)
      as (top' & below' & Hu & Hh & Hok' & Hlt).
    rewrite spine_heap_merge in Hu, Hh. exists top', below'. auto.
  - exists top, (g :: below). apply Z.leb_gt in E. auto.
Qed.

Lemma map_entry_append_child h : forall parent addr,
  map item_entry (append_child h parent addr) = map item_entry h.
Proof.
  induction h as [|it h IH]; intros [|parent] addr; cbn [append_child map];
    try reflexivity.
  rewrite IH. reflexivity.
Qed.

Lemma parse_step_inv st top below line :
  parse_inv st top below -> is_blank line = false -> long_token line = false ->
  exists st' top' below' t p,
    parse_step st line = Some st' /\ parse_inv st' top' below' /\
    split_title_page (lstrip line) (last_page_number st)
      = Some (t, p, last_page_number st') /\
    map item_entry (st_heap st')
      = map item_entry (st_heap st) ++ [(t, Z.of_nat (indent_of line / 4), p)].
Proof.
  intros (Hh & Hs & Hok) Hnb Hshort. unfold parse_step. rewrite Hnb.
  destruct (split_title_page_short line (last_page_number st) Hshort)
    as (t & p & l' & Hsplit).
  rewrite Hsplit, Hh, Hs.
  destruct (unwind_ok below top (Z.of_nat (indent_of line / 4)) Hok (Nat2Z.is_nonneg _))
    as (top' & below' & Hu & Hh' & Hok' & Hlt).
  rewrite Hu. cbn [spine_stack].
  eexists _, (Frame t (Z.of_nat (indent_of line / 4)) p []), (top' :: below'), t, p.
  split; [reflexivity|]. split; [|split].
  - unfold parse_inv. cbn [st_heap st_stack]. rewrite <- Hh', spine_heap_push.
    repeat split.
    + cbn [spine_stack]. rewrite length_spine_heap. reflexivity.
    + constructor.
    + exact Hlt.
    + exact Hok'.
  - cbn [last_page_number]. reflexivity.
  - cbn [st_heap]. rewrite map_app, map_entry_append_child. reflexivity.
Qed.

Lemma parse_init_inv : parse_inv parse_init (Frame (py "ROOT") (-1) 0 []) [].
Proof. repeat split. constructor. Qed.

(** The entries of a block of the heap are the entries of the tree in
    document order. *)
Lemma entries_layout n : forall a,
  map item_entry (layout a n) = map node_entry (preorder n).
Proof.
  induction n as [t l p cs IH] using node_induction. intros a.
  rewrite layout_eq. cbn [map preorder]. f_equal.
  generalize (S a). induction IH as [|c cs Hc _ IHcs]; intros b; [reflexivity|].
  cbn [layouts flat_map]. rewrite !map_app, Hc, IHcs. reflexivity.
Qed.

Lemma page_token_none_split line last :
  page_token line = None ->
  split_title_page (lstrip line) last = Some (lstrip line, last, last).
Proof.
  unfold page_token, split_title_page.
  destruct (re_search re_page_match (lstrip line)); [discriminate|reflexivity].
Qed.

Lemma page_token_some_split line last t p l' :
  is_some (page_token line) = true ->
  split_title_page (lstrip line) last = Some (t, p, l') -> l' = p.
Proof.
  unfold page_token, split_title_page.
  destruct (re_search re_page_match (lstrip line)); [|discriminate].
  intros _. destruct (convert_to_number _); [|discriminate]. congruence.
Qed.

(** The loop over lines without a long token does not fail; it adds one
    entry per line, in order, and an entry without a token of its own carries
    the page of the nearest earlier entry that had one ([prev] lists the
    lines and pages seen before the loop starts, nearest first). *)
Lemma parse_loop_inv lines : forall st top below prev,
  parse_inv st top below ->
  Forall (fun l => is_blank l = false) lines ->
  Forall (fun l => long_token l = false) lines ->
  last_page_number st = nearest_specified prev ->
  exists st' top' below' es,
    parse_loop st lines = Some st' /\ parse_inv st' top' below' /\
    map item_entry (st_heap st') = map item_entry (st_heap st) ++ es /\
    List.length es = List.length lines /\
    forall k line e,
      nth_error lines k = Some line -> nth_error es k = Some e ->
      page_token line = None ->
      entry_page e =
        nearest_specified
          (rev (combine (firstn k lines) (map entry_page (firstn k es))) ++ prev).
Proof.
  induction lines as [|l lines IH]; intros st top below prev Hinv Hnb Hsh Hlast.
  - exists st, top, below, []. cbn [parse_loop]. rewrite app_nil_r.
    split; [reflexivity|]. split; [exact Hinv|]. split; [reflexivity|].
    split; [reflexivity|]. intros [|k] line e H; discriminate.
  - inversion Hnb as [|? ? Hl Hnb']; subst.
    inversion Hsh as [|? ? Hs Hsh']; subst.
    destruct (parse_step_inv st top below l Hinv Hl Hs)
      as (st1 & top1 & below1 & t & p & Hstep & Hinv1 & Hsplit & Hent).
    assert (Hlast1 : last_page_number st1 = nearest_specified ((l, p) :: prev)).
    { cbn [nearest_specified]. destruct (is_some (page_token l)) eqn:E.
      - apply (page_token_some_split _ _ _ _ _ E Hsplit).
      - destruct (page_token l) eqn:E'; [discriminate|].
        rewrite (page_token_none_split _ _ E') in Hsplit. congruence. }
    destruct (IH st1 top1 below1 ((l, p) :: prev) Hinv1 Hnb' Hsh' Hlast1)
      as (st' & top' & below' & es & Hloop & Hinv' & Hent' & Hlen & Hpages).
    exists st', top', below', ((t, Z.of_nat (indent_of l / 4), p) :: es).
    cbn [parse_loop]. rewrite Hstep.
    split; [exact Hloop|]. split; [exact Hinv'|]. split; [|split].
    + rewrite Hent', Hent, <- app_assoc. reflexivity.
    + cbn [List.length]. lia.
    + intros [|k] line e Hline He Htok.
      * cbn [nth_error] in Hline, He. injection Hline as <-. injection He as <-.
        cbn [firstn combine rev app entry_page snd map].
        rewrite (page_token_none_split _ _ Htok) in Hsplit. congruence.
      * cbn [nth_error] in Hline, He. rewrite (Hpages k line e Hline He Htok).
        cbn [firstn map combine rev entry_page snd]. rewrite <- app_assoc. reflexivity.
Qed.

Lemma clean_lines_nonblank clean :
  Forall (fun l => is_blank l = false) (clean_lines_of clean).
Proof.
  unfold clean_lines_of. apply Forall_forall. intros l Hl.
  apply filter_In in Hl as [_ Hl]. apply negb_true_iff in Hl. exact Hl.
Qed.

(** The loop returns a state only if no line has a long token, and fails
    if one has. *)
Lemma parse_loop_short lines : forall st st',
  Forall (fun l => is_blank l = false) lines ->
  parse_loop st lines = Some st' ->
  Forall (fun l => long_token l = false) lines.
Proof.
  induction lines as [|l lines IH]; intros st st' Hnb H; [constructor|].
  inversion Hnb as [|? ? Hl Hnb']; subst. cbn [parse_loop] in H.
  destruct (parse_step st l) as [st1|] eqn:E; [|discriminate].
  constructor; [|exact (IH st1 st' Hnb' H)].
  destruct (long_token l) eqn:EL; [|reflexivity].
  unfold parse_step in E. rewrite Hl, (split_title_page_long _ _ EL) in E. discriminate.
Qed.

Lemma returned_short clean forest :
  parse_clean_outline clean = Some forest ->
  Forall (fun l => long_token l = false) (clean_lines_of clean).
Proof.
  unfold parse_clean_outline.
  destruct (parse_loop parse_init (clean_lines_of clean)) as [st|] eqn:E; [|discriminate].
  intros _. exact (parse_loop_short _ _ _ (clean_lines_nonblank clean) E).
Qed.

Lemma long_token_raises clean line :
  In line (clean_lines_of clean) -> long_token line = true ->
  parse_clean_outline clean = None.
Proof.
  intros Hin Hlong. destruct (parse_clean_outline clean) as [forest|] eqn:E; [|reflexivity].
  pose proof (returned_short _ _ E) as Hall. rewrite Forall_forall in Hall.
  rewrite (Hall line Hin) in Hlong. discriminate.
Qed.

(** A run of the tree builder on lines without a long token: it returns a
    forest, the children of a root frame in good shape, whose nodes in
    document order are the entries the loop made. *)
Lemma parse_clean_outline_run clean :
  Forall (fun l => long_token l = false) (clean_lines_of clean) ->
  exists root,
    parse_clean_outline clean = Some (f_closed root) /\
    closed_ok root /\ f_level root = (-1)%Z /\
    List.length (forest_preorder (f_closed root)) = List.length (clean_lines_of clean) /\
    forall k line n,
      nth_error (clean_lines_of clean) k = Some line ->
      nth_error (forest_preorder (f_closed root)) k = Some n ->
      page_token line = None ->
      n_page n =
        nearest_specified
          (rev (combine (firstn k (clean_lines_of clean))
                        (map n_page (firstn k (forest_preorder (f_closed root)))))).
Proof.
  intros Hshort.
  destruct (parse_loop_inv (clean_lines_of clean) parse_init _ _ []
              parse_init_inv (clean_lines_nonblank clean) Hshort eq_refl)
    as (st' & top' & below' & es & Hloop & (Hh & _ & Hok) & Hent & Hlen & Hpages).
  exists (collapse top' below').
  destruct (collapse_ok _ _ Hok) as [Hc Hl].
  rewrite spine_heap_collapse in Hh.
  assert (Hes : es = map node_entry (forest_preorder (f_closed (collapse top' below')))).
  { rewrite Hh in Hent. unfold close in Hent. rewrite layout_eq in Hent.
    cbn [map parse_init st_heap app] in Hent. injection Hent as _ _ _ Hent.
    rewrite <- Hent. clear. generalize 1.
    induction (f_closed (collapse top' below')) as [|c cs IH]; intros b; [reflexivity|].
    cbn [layouts forest_preorder flat_map]. rewrite !map_app, entries_layout.
    f_equal. apply IH. }
  split; [|split; [exact Hc|split; [exact Hl|split]]].
  - unfold parse_clean_outline. rewrite Hloop, Hh. apply read_forest_layout.
  - rewrite <- Hlen, Hes, length_map. reflexivity.
  - intros k line n Hline Hn Htok.
    assert (He : nth_error es k = Some (node_entry n))
      by (rewrite Hes, nth_error_map, Hn; reflexivity).
    specialize (Hpages k line _ Hline He Htok). rewrite app_nil_r in Hpages.
    cbn [entry_page node_entry snd] in Hpages. rewrite Hpages. do 3 f_equal.
    rewrite Hes, firstn_map, map_map. reflexivity.
Qed.

Lemma parse_outline_unfold text :
  parse_outline text = parse_clean_outline (normalize_outline text).
Proof. reflexivity. Qed.

Lemma returned_forest s forest :
  parse_clean_outline s = Some forest \/ parse_outline s = Some forest ->
  exists clean, parse_clean_outline clean = Some forest.
Proof.
  intros [H | H]; [exists s; exact H|].
  exists (normalize_outline s). exact H.
Qed.

Lemma forest_shape clean forest :
  parse_clean_outline clean = Some forest ->
  (forall n, In n forest -> (-1 < n_level n)%Z /\ levels_grow n).
Proof.
  intros H.
  destruct (parse_clean_outline_run clean (returned_short _ _ H))
    as (root & Hrun & Hc & Hl & _).
  rewrite Hrun in H. injection H as <-. unfold closed_ok in Hc.
  rewrite Forall_forall in Hc. intros n Hn. rewrite <- Hl. apply Hc. exact Hn.
Qed.

(** C8, as amended: [parse_outline] returns a forest for exactly the
    texts in which no line that the tree builder reads, after normalization,
    ends in a token of more than 4300 decimal digits: on such texts the stack
    gives no IndexError and the numeral conversion no ValueError, and on the
    others [int] raises ValueError; the empty text gives the empty forest. *)
Theorem parse_outline_returns (text : str) :
  ((exists forest, parse_outline text = Some forest) <->
   (forall line, In line (clean_lines_of (normalize_outline text)) ->
                 long_token line = false)) /\
  parse_outline (py "") = Some [].
Proof.
  split; [|reflexivity]. rewrite parse_outline_unfold. split.
  - intros [forest H]. apply Forall_forall. exact (returned_short _ _ H).
  - intros H.
    destruct (parse_clean_outline_run (normalize_outline text)) as (root & Hrun & _).
    + apply Forall_forall. exact H.
    + eauto.
Qed.

Lemma parse_outline_returns_witness :
  (forall line,
     In line (clean_lines_of
                (normalize_outline (text_of_lines ["Preface IV"; "    Notes 12"]%string))) ->
     long_token line = false) /\
  exists forest,
    parse_outline (text_of_lines ["Preface IV"; "    Notes 12"]%string) = Some forest.
Proof.
  assert (H : forall line,
            In line (clean_lines_of
                       (normalize_outline
                          (text_of_lines ["Preface IV"; "    Notes 12"]%string))) ->
            long_token line = false).
  { intros line Hin. vm_compute in Hin. destruct Hin as [<- | [<- | []]]; reflexivity. }
  split; [exact H|].
  exact (proj2 (proj1 (parse_outline_returns
                         (text_of_lines ["Preface IV"; "    Notes 12"]%string))) H).
Defined.

(** C8, as stated, fails: on a line whose page token is a run of 4301
    digits, [int] raises ValueError and [parse_outline] returns no forest. *)
Lemma parse_outline_raises_on_long_token :
  parse_outline (py "A " ++ repeat "1"%char 4301) = None.
Proof. vm_compute. reflexivity. Qed.

(** C9: in every forest that [parse_clean_outline] (and so [parse_outline])
    returns, the level of every child is strictly greater than the level of
    its parent. *)
Theorem child_level_above_parent (s : str) (forest : list node)
  (H : parse_clean_outline s = Some forest \/ parse_outline s = Some forest) :
  forall p c, In (p, c) (forest_edges forest) -> (n_level p < n_level c)%Z.
Proof.
  apply returned_forest in H as [clean H]. intros p c Hin.
  apply in_flat_map in Hin as (n & Hn & Hin).
  destruct (forest_shape clean forest H n Hn) as [_ Hg]. apply Hg. exact Hin.
Qed.

Lemma child_level_above_parent_witness :
  parse_outline (text_of_lines ["A 1"; "    B 2"; "            C 3"]%string)
  = Some [Node (py "A") 0 1 [Node (py "B") 1 2 [Node (py "C") 3 3 []]]] /\
  (n_level (Node (py "B") 1 2 [Node (py "C") 3 3 []]) < n_level (Node (py "C") 3 3 []))%Z.
Proof.
  split; [reflexivity|].
  apply (child_level_above_parent
           (text_of_lines ["A 1"; "    B 2"; "            C 3"]%string)
           [Node (py "A") 0 1 [Node (py "B") 1 2 [Node (py "C") 3 3 []]]]).
  - right. reflexivity.
  - cbn. auto.
Defined.

(** C2, as amended: in every forest that [parse_outline] or
    [parse_clean_outline] returns, every node's level is at least its
    parent's level + 1, and every top-level node has a level of at least 0. *)
Theorem level_at_least_parent_plus_one (s : str) (forest : list node)
  (H : parse_clean_outline s = Some forest \/ parse_outline s = Some forest) :
  (forall n, In n forest -> (0 <= n_level n)%Z) /\
  (forall p c, In (p, c) (forest_edges forest) -> (n_level p + 1 <= n_level c)%Z).
Proof.
  apply returned_forest in H as [clean H]. split.
  - intros n Hn. destruct (forest_shape clean forest H n Hn) as [Hl _]. lia.
  - intros p c Hin. apply in_flat_map in Hin as (n & Hn & Hin).
    destruct (forest_shape clean forest H n Hn) as [_ Hg].
    specialize (Hg p c Hin). lia.
Qed.

Lemma level_at_least_parent_plus_one_witness :
  parse_outline (text_of_lines ["    A"; "                B 7"]%string)
  = Some [Node (py "A") 1 0 [Node (py "B") 4 7 []]] /\
  (0 <= n_level (Node (py "A") 1 0 [Node (py "B") 4 7 []]))%Z.
Proof.
  split; [reflexivity|].
  apply (level_at_least_parent_plus_one
           (text_of_lines ["    A"; "                B 7"]%string)
           [Node (py "A") 1 0 [Node (py "B") 4 7 []]]).
  - right. reflexivity.
  - left. reflexivity.
Defined.

(** C2, as stated, fails: a text whose first line is indented by four
    columns gives a top-level node of level 1, and under it a line indented
    by twelve columns gives a child of level 3. *)
Lemma levels_not_by_one :
  parse_outline (text_of_lines ["    A 1"; "            B 2"]%string)
  = Some [Node (py "A") 1 1 [Node (py "B") 3 2 []]] /\
  ~ levels_by_one [Node (py "A") 1 1 [Node (py "B") 3 2 []]].
Proof.
  split; [reflexivity|]. intros [Htop _].
  specialize (Htop _ (or_introl eq_refl)). discriminate.
Qed.

(** C7: an entry whose line has no numeral token of its own has the page
    number of the nearest earlier entry, in line order, whose line had one,
    and 0 when no earlier line had one.  The entries are the nodes of the
    forest in document order, one per non-blank line; for [parse_outline]
    the text [clean] is [normalize_outline text]. *)
Theorem page_inherited_in_line_order (clean : str) (forest : list node)
  (H : parse_clean_outline clean = Some forest) :
  let lines := clean_lines_of clean in
  let entries := forest_preorder forest in
  List.length entries = List.length lines /\
  forall k line n,
    nth_error lines k = Some line -> nth_error entries k = Some n ->
    page_token line = None ->
    n_page n =
      nearest_specified (rev (combine (firstn k lines) (map n_page (firstn k entries)))).
Proof.
  destruct (parse_clean_outline_run clean (returned_short _ _ H))
    as (root & Hrun & _ & _ & Hlen & Hpages).
  rewrite Hrun in H. injection H as <-. split; assumption.
Qed.

Lemma page_inherited_in_line_order_witness :
  parse_clean_outline (text_of_lines ["A 3"; "    B"; "C XIV"; "    D"]%string)
  = Some [Node (py "A") 0 3 [Node (py "B") 1 3 []];
          Node (py "C") 0 14 [Node (py "D") 1 14 []]] /\
  n_page (Node (py "D") 1 14 [])
  = nearest_specified [(py "C XIV", 14%Z); (py "    B", 3%Z); (py "A 3", 3%Z)].
Proof.
  split; [reflexivity|].
  apply (proj2 (page_inherited_in_line_order
                  (text_of_lines ["A 3"; "    B"; "C XIV"; "    D"]%string)
                  [Node (py "A") 0 3 [Node (py "B") 1 3 []];
                   Node (py "C") 0 14 [Node (py "D") 1 14 []]]
                  eq_refl) 3 (py "    D")); reflexivity.
Defined.

(** ** normalize_outline: continuation lines *)

Lemma drop_while_app_stop p xs c rest :
  forallb p xs = true -> p c = false ->
  drop_while p (xs ++ c :: rest) = c :: rest.
Proof.
  intros Hxs Hc. induction xs as [|x xs IH]; cbn [drop_while app].
  - rewrite Hc. reflexivity.
  - cbn [forallb] in Hxs. apply andb_true_iff in Hxs as [-> Hxs]. auto.
Qed.

Lemma take_drop_while p s : take_while p s ++ drop_while p s = s.
Proof.
  induction s as [|c s IH]; [reflexivity|]. cbn [take_while drop_while].
  destruct (p c); [cbn [app]; rewrite IH|]; reflexivity.
Qed.

Lemma take_while_all p s : forallb p (take_while p s) = true.
Proof.
  induction s as [|c s IH]; [reflexivity|]. cbn [take_while].
  destruct (p c) eqn:E; [cbn [forallb]; rewrite E, IH|]; reflexivity.
Qed.

Lemma chr_eq (c : string) (x y : ascii) :
  c = String y EmptyString -> chr c x = true -> x = y.
Proof.
  intros ->. unfold chr, one_of. cbn [py list_ascii_of_string existsb].
  rewrite orb_false_r. apply Ascii.eqb_eq.
Qed.

(** The list-marker pattern says what its name says: a marker and a
    white-space character after it. *)
Lemma starts_with_number_spec content :
  starts_with_number content = begins_with_spaced_list_marker content.
Proof.
  unfold starts_with_number, re_match.
  destruct (match_at re_list_marker 0 content) as [mo|] eqn:E; cbn [found].
  - symmetry. apply match_at_sound in E as (e & rest' & g & Hm & _).
    unfold re_list_marker in Hm. unfold begins_with_spaced_list_marker.
    inv_matches.
    + (* digits and a period *)
      match goal with
      | Hd : forallb cls_d ?xs = true, Hl : 1 <= List.length ?xs |- _ =>
          destruct xs as [|x xs]; [cbn in Hl; lia|];
          cbn [forallb] in Hd; apply andb_true_iff in Hd as [Hx Hd]
      end.
      match goal with Hc : chr "." ?c = true |- _ =>
        apply (chr_eq _ _ "."%char eq_refl) in Hc; subst c end.
      cbn [app after_list_marker]. unfold cls_d in Hx. rewrite Hx.
      rewrite drop_while_app_stop by (auto; reflexivity).
      match goal with Hs : cls_s ?w = true |- _ => exact Hs end.
    + (* a capital and a period *)
      match goal with Hc : chr "." ?c = true |- _ =>
        apply (chr_eq _ _ "."%char eq_refl) in Hc; subst c end.
      match goal with Ha : cls_A_Z ?c = true |- _ =>
        cbn [after_list_marker];
        replace (isdecimal_char c) with false
          by (unfold cls_A_Z, isdecimal_char, in_range in *;
              destruct (ord c); try reflexivity; symmetry;
              apply andb_false_iff; apply andb_true_iff in Ha as [Ha1 Ha2];
              apply N.leb_le in Ha1; right; apply N.leb_gt; lia);
        rewrite Ha
      end.
      match goal with Hs : cls_s ?w = true |- _ => exact Hs end.
    + match goal with Hc : chr "-" ?c = true |- _ =>
        apply (chr_eq _ _ "-"%char eq_refl) in Hc; subst c end.
      match goal with Hs : cls_s ?w = true |- _ => exact Hs end.
    + match goal with Hc : chr "*" ?c = true |- _ =>
        apply (chr_eq _ _ "*"%char eq_refl) in Hc; subst c end.
      match goal with Hs : cls_s ?w = true |- _ => exact Hs end.
  - symmetry. destruct (begins_with_spaced_list_marker content) eqn:B; [|reflexivity].
    exfalso. unfold begins_with_spaced_list_marker in B.
    destruct (after_list_marker content) as [[|w rest]|] eqn:A; try discriminate.
    assert (Hm : exists e g, matches re_list_marker 0 content [] e rest g).
    { unfold after_list_marker in A. destruct content as [|c content]; [discriminate|].
      unfold re_list_marker.
      destruct (isdecimal_char c) eqn:Hc.
      - pose proof (take_drop_while isdecimal_char content) as Htd.
        destruct (drop_while isdecimal_char content) as [|d rest0] eqn:Hdw; [discriminate|].
        destruct (chr "." d) eqn:Hd; [|discriminate]. injection A as ->.
        rewrite <- Htd. eexists _, _.
        eapply M_Seq; [apply M_Bol|]. eapply M_Seq; [|apply M_Cls; exact B].
        apply M_Grp. apply M_AltL. eapply M_Seq; [|apply M_Cls; exact Hd].
        apply (@M_Rep cls_d 1 (c :: take_while isdecimal_char content)).
        + cbn [forallb]. unfold cls_d. rewrite Hc. apply take_while_all.
        + cbn [List.length]. lia.
      - destruct (cls_A_Z c) eqn:Ha.
        + destruct content as [|d rest0]; [discriminate|].
          destruct (chr "." d) eqn:Hd; [|discriminate]. injection A as ->.
          eexists _, _.
          eapply M_Seq; [apply M_Bol|]. eapply M_Seq; [|apply M_Cls; exact B].
          apply M_Grp. apply M_AltR, M_AltL.
          eapply M_Seq; apply M_Cls; eauto.
        + destruct (chr "-" c) eqn:Hh; cbn [orb] in A.
          * injection A as ->. eexists _, _.
            eapply M_Seq; [apply M_Bol|]. eapply M_Seq; [|apply M_Cls; exact B].
            apply M_Grp. apply M_AltR, M_AltR, M_AltL. apply M_Cls; auto.
          * destruct (chr "*" c) eqn:Hs; [|discriminate].
            injection A as ->. eexists _, _.
            eapply M_Seq; [apply M_Bol|]. eapply M_Seq; [|apply M_Cls; exact B].
            apply M_Grp. apply M_AltR, M_AltR, M_AltR. apply M_Cls; auto. }
    destruct Hm as (e & g & Hm). apply match_at_complete in Hm as [mo Hmo].
    congruence.
Qed.

Lemma norm_state_after_snoc done line :
  norm_state_after (done ++ [line]) = normalize_step (norm_state_after done) line.
Proof. unfold norm_state_after. rewrite fold_left_app. reflexivity. Qed.

Lemma last_line_snoc done line : last_line (done ++ [line]) = Some line.
Proof. unfold last_line. rewrite rev_app_distr. reflexivity. Qed.

(** After at least one line an item is open, and the flag tells whether the
    line before ended with a page-number token. *)
Lemma norm_state_flag done :
  match last_line done with
  | None =>
      current_item (norm_state_after done) = None /\
      last_line_was_terminated (norm_state_after done) = true
  | Some prev =>
      current_item (norm_state_after done) <> None /\
      last_line_was_terminated (norm_state_after done) = has_page_number (strip prev)
  end.
Proof.
  induction done as [|line done IH] using rev_ind.
  - cbn. auto.
  - rewrite last_line_snoc, norm_state_after_snoc. unfold normalize_step.
    set (st := norm_state_after done) in *.
    destruct (is_continuation st (strip line)) eqn:C.
    + unfold is_continuation in C. apply andb_true_iff in C as [C Hopen].
      apply andb_true_iff in C as [C _]. apply andb_true_iff in C as [Hflag Hpage].
      apply negb_true_iff in Hflag, Hpage.
      destruct (current_item st) as [item|]; [|discriminate].
      cbn [current_item last_line_was_terminated]. split; congruence.
    + cbn [current_item last_line_was_terminated]. split; congruence.
Qed.

(** C3, as amended: a line is appended to the open item, with one joining
    space, if and only if the line before it did not end with a detected
    page-number token, the line itself carries no detected page-number
    token, the line does not begin with a list marker that is followed by a
    white-space character, and an item is open. *)
Theorem continuation_iff (done : list str) (line : str) :
  let st := norm_state_after done in
  appended_to_open_item st (normalize_step st line) line <->
  (forall prev, last_line done = Some prev -> has_page_number (strip prev) = false) /\
  has_page_number (strip line) = false /\
  begins_with_spaced_list_marker (strip line) = false /\
  current_item st <> None.
Proof.
  cbn zeta. pose proof (norm_state_flag done) as Hflag.
  set (st := norm_state_after done) in *.
  assert (Hcont : is_continuation st (strip line) = true <->
            (forall prev, last_line done = Some prev -> has_page_number (strip prev) = false) /\
            has_page_number (strip line) = false /\
            begins_with_spaced_list_marker (strip line) = false /\
            current_item st <> None).
  { unfold is_continuation. rewrite starts_with_number_spec, !andb_true_iff, !negb_true_iff.
    destruct (last_line done) as [prev|].
    - destruct Hflag as [Hopen Hterm]. rewrite Hterm. split.
      + intros [[[H1 H2] H3] _]. repeat split; auto. intros ? [= <-]. exact H1.
      + intros (H1 & H2 & H3 & H4). repeat split; auto.
        destruct (current_item st); [reflexivity|congruence].
    - destruct Hflag as [Hopen Hterm]. rewrite Hopen, Hterm. split.
      + intros [[[H1 _] _] _]. discriminate.
      + intros (_ & _ & _ & H). congruence. }
  rewrite <- Hcont. unfold normalize_step, appended_to_open_item.
  destruct (is_continuation st (strip line)) eqn:C.
  - split; [reflexivity|]. intros _.
    unfold is_continuation in C. apply andb_true_iff in C as [_ Hopen].
    destruct (current_item st) as [item|]; [|discriminate].
    exists item. cbn [current_item clean_lines current_indent]. auto.
  - split; [|discriminate]. intros (item & Hitem & Hnew & _).
    cbn [current_item] in Hnew. injection Hnew as Hnew.
    apply (f_equal (@List.length ascii)) in Hnew.
    rewrite !length_app in Hnew. cbn [List.length py list_ascii_of_string] in Hnew. lia.
Qed.

(** C3, as stated, fails: after an open line without a page number, a line
    that begins with a hyphen and no space after it is appended. *)
Lemma hyphen_line_is_appended :
  appended_to_open_item (norm_state_after [py "Title"])
    (normalize_step (norm_state_after [py "Title"]) (py "-foo")) (py "-foo") /\
  begins_with_list_marker (strip (py "-foo")) = true /\
  normalize_outline (text_of_lines ["Title"; "-foo"]%string) = py "Title -foo".
Proof.
  split; [|split; reflexivity].
  exists (py "Title"). repeat split; reflexivity.
Qed.

(** ** Stripping *)

Lemma lstrip_drop_while s : lstrip s = drop_while isspace_char s.
Proof. induction s as [|c s IH]; cbn [lstrip drop_while]; [|rewrite IH]; reflexivity. Qed.

Lemma lstrip_head_ok c : head_ok c = true -> lstrip c = c.
Proof.
  destruct c as [|x c]; [discriminate|]. cbn [head_ok lstrip].
  intros H. apply negb_true_iff in H. rewrite H. reflexivity.
Qed.

Lemma lstrip_spaces ws c : forallb isspace_char ws = true -> lstrip (ws ++ c) = lstrip c.
Proof.
  induction ws as [|w ws IH]; [reflexivity|]. cbn [forallb app lstrip].
  intros H. apply andb_true_iff in H as [-> H]. auto.
Qed.

Lemma lstrip_result s : lstrip s = [] \/ head_ok (lstrip s) = true.
Proof.
  induction s as [|c s IH]; [left; reflexivity|]. cbn [lstrip].
  destruct (isspace_char c) eqn:E; [exact IH|]. right. cbn [head_ok]. rewrite E. reflexivity.
Qed.

Lemma lstrip_decomp s :
  s = take_while isspace_char s ++ lstrip s /\
  forallb isspace_char (take_while isspace_char s) = true.
Proof.
  rewrite lstrip_drop_while, take_drop_while. split; [reflexivity|apply take_while_all].
Qed.

Lemma head_ok_app a b : a <> [] -> head_ok (a ++ b) = head_ok a.
Proof. destruct a; [congruence|reflexivity]. Qed.

Lemma last_ok_app a b : b <> [] -> last_ok (a ++ b) = last_ok b.
Proof.
  intros H. unfold last_ok. rewrite rev_app_distr. apply head_ok_app.
  intros E. apply (f_equal (@rev ascii)) in E. rewrite rev_involutive in E. auto.
Qed.

Lemma forallb_rev (p : ascii -> bool) s : forallb p (rev s) = forallb p s.
Proof.
  induction s as [|c s IH]; [reflexivity|]. cbn [rev forallb].
  rewrite forallb_app, IH. cbn [forallb]. rewrite andb_true_r, andb_comm. reflexivity.
Qed.

Lemma rstrip_last_ok c : last_ok c = true -> rstrip c = c.
Proof.
  unfold last_ok, rstrip. intros H. rewrite (lstrip_head_ok _ H). apply rev_involutive.
Qed.

Lemma rstrip_spaces c ws : forallb isspace_char ws = true -> rstrip (c ++ ws) = rstrip c.
Proof.
  intros H. unfold rstrip. rewrite rev_app_distr, lstrip_spaces; [reflexivity|].
  rewrite forallb_rev. exact H.
Qed.

(** Stripping a text that has something other than white space. *)
Lemma strip_decomp line :
  is_blank line = false ->
  exists ws1 ws2,
    line = ws1 ++ strip line ++ ws2 /\
    forallb isspace_char ws1 = true /\ forallb isspace_char ws2 = true /\
    head_ok (strip line) = true /\ last_ok (strip line) = true /\
    lstrip line = strip line ++ ws2.
Proof.
  unfold is_blank, strip, rstrip. intros Hnb.
  destruct (lstrip_decomp line) as [Hl Hws1].
  destruct (lstrip_decomp (rev (lstrip line))) as [Hr Hws2].
  set (x := lstrip line) in *. set (y := lstrip (rev x)) in *.
  assert (Hy : y <> []) by (intros E; rewrite E in Hnb; discriminate).
  assert (Hx : x = rev y ++ rev (take_while isspace_char (rev x))).
  { rewrite <- rev_app_distr, <- Hr, rev_involutive. reflexivity. }
  assert (Hry : rev y <> []).
  { intros E. apply (f_equal (@rev ascii)) in E. rewrite rev_involutive in E. auto. }
  exists (take_while isspace_char line), (rev (take_while isspace_char (rev x))).
  split; [rewrite <- Hx; exact Hl|]. split; [exact Hws1|].
  split; [rewrite forallb_rev; exact Hws2|]. split; [|split].
  - rewrite <- (head_ok_app _ (rev (take_while isspace_char (rev x))) Hry), <- Hx.
    destruct (lstrip_result line) as [E | E]; [|exact E].
    fold x in E. rewrite E in Hx. destruct (rev y); [congruence|discriminate].
  - unfold last_ok. rewrite rev_involutive.
    destruct (lstrip_result (rev x)) as [E | E]; [contradiction|exact E].
  - exact Hx.
Qed.

Lemma strip_frame ws1 c ws2 :
  forallb isspace_char ws1 = true -> forallb isspace_char ws2 = true ->
  head_ok c = true -> last_ok c = true ->
  strip (ws1 ++ c ++ ws2) = c.
Proof.
  intros H1 H2 Hh Hl. unfold strip.
  assert (Hc : c <> []) by (destruct c; [discriminate|congruence]).
  rewrite lstrip_spaces, lstrip_head_ok by (auto; rewrite head_ok_app; auto).
  rewrite rstrip_spaces by auto. apply rstrip_last_ok. exact Hl.
Qed.

Lemma strip_tight c : head_ok c = true -> last_ok c = true -> strip c = c.
Proof.
  intros Hh Hl. rewrite <- (strip_frame [] c []) at 2 by auto.
  rewrite app_nil_r. reflexivity.
Qed.

Lemma indent_of_frame ws c :
  forallb isspace_char ws = true -> head_ok c = true ->
  indent_of (ws ++ c) = List.length ws.
Proof.
  intros Hws Hc. unfold indent_of.
  rewrite lstrip_spaces, lstrip_head_ok, length_app by auto. lia.
Qed.

Lemma is_blank_frame ws c :
  forallb isspace_char ws = true -> head_ok c = true -> last_ok c = true ->
  is_blank (ws ++ c) = false.
Proof.
  intros Hws Hh Hl. unfold is_blank.
  rewrite <- (app_nil_r c) at 1. rewrite strip_frame by auto.
  destruct c; [discriminate|reflexivity].
Qed.

Lemma str_mul_spaces n : str_mul (str_mul (py " ") n) 4 = repeat SPACE (n * 4).
Proof.
  unfold str_mul. cbn [repeat List.concat]. rewrite app_nil_r.
  assert (H : List.concat (repeat (py " ") n) = repeat SPACE n).
  { induction n as [|n IH]; [reflexivity|]. cbn [repeat List.concat]. rewrite IH. reflexivity. }
  rewrite H, <- !repeat_app. f_equal. lia.
Qed.

Lemma forallb_repeat_space n : forallb isspace_char (repeat SPACE n) = true.
Proof. induction n as [|n IH]; [reflexivity|exact IH]. Qed.
(** ** Lines *)

Lemma linebreak_is_space c : is_linebreak c = true -> isspace_char c = true.
Proof.
  destruct c as [[] [] [] [] [] [] [] []]; vm_compute; congruence.
Qed.

Lemma decimal_not_space c : isdecimal_char c = true -> isspace_char c = false.
Proof.
  destruct c as [[] [] [] [] [] [] [] []]; vm_compute; congruence.
Qed.

Lemma splitlines_nil s : splitlines s = [] <-> s = [].
Proof.
  split; [|intros ->; reflexivity].
  induction s as [|c s IH]; [reflexivity|]. cbn [splitlines].
  destruct (is_linebreak c); [discriminate|].
  destruct (splitlines s); discriminate.
Qed.

Lemma splitlines_no_break : forall n s,
  List.length s <= n -> Forall (fun l => no_break l = true) (splitlines s).
Proof.
  induction n as [|n IH]; intros s Hn.
  - destruct s; [constructor|cbn in Hn; lia].
  - destruct s as [|c s]; [constructor|]. cbn [List.length] in Hn. cbn [splitlines].
    destruct (is_linebreak c) eqn:Hc.
    + constructor; [reflexivity|].
      destruct (Ascii.eqb c CR); [|apply IH; lia].
      destruct s as [|c' s]; [constructor|].
      destruct (Ascii.eqb c' LF); apply IH; cbn [List.length] in *; lia.
    + assert (H : Forall (fun l => no_break l = true) (splitlines s)) by (apply IH; lia).
      destruct (splitlines s) as [|l ls].
      * constructor; [|constructor]. cbn [no_break forallb]. rewrite Hc. reflexivity.
      * inversion H as [|? ? Hl Hls]; subst. constructor; [|exact Hls].
        cbn [no_break forallb]. rewrite Hc. exact Hl.
Qed.

Lemma splitlines_line_then l rest :
  no_break l = true -> splitlines (l ++ LF :: rest) = l :: splitlines rest.
Proof.
  induction l as [|c l IH]; intros H.
  - reflexivity.
  - cbn [no_break forallb] in H. apply andb_true_iff in H as [Hc Hl].
    apply negb_true_iff in Hc. cbn [app splitlines]. rewrite Hc, (IH Hl). reflexivity.
Qed.

Lemma splitlines_one_line l :
  no_break l = true -> l <> [] -> splitlines l = [l].
Proof.
  induction l as [|c l IH]; intros H Hne; [congruence|].
  cbn [no_break forallb] in H. apply andb_true_iff in H as [Hc Hl].
  apply negb_true_iff in Hc. cbn [splitlines]. rewrite Hc.
  destruct l as [|c' l]; [reflexivity|].
  rewrite (IH Hl) by congruence. reflexivity.
Qed.

(** Splitting what [join] made gives the lines back. *)
Lemma splitlines_join ls : good_lines ls -> splitlines (join [LF] ls) = ls.
Proof.
  induction ls as [|x ls IH]; [reflexivity|]. intros [Hx Hrest].
  destruct ls as [|y ls].
  - cbn [join]. apply splitlines_one_line; assumption.
  - change (join [LF] (x :: y :: ls)) with (x ++ LF :: join [LF] (y :: ls)).
    rewrite (splitlines_line_then _ _ Hx), (IH Hrest). reflexivity.
Qed.

Lemma no_break_app a b : no_break (a ++ b) = no_break a && no_break b.
Proof. apply forallb_app. Qed.

Lemma no_break_repeat_space n : no_break (repeat SPACE n) = true.
Proof. induction n as [|n IH]; [reflexivity|exact IH]. Qed.
(** ** The patterns of is_beautified *)

Lemma take_while_app_stop p xs a r :
  forallb p xs = true -> p a = false -> take_while p (xs ++ a :: r) = xs.
Proof.
  intros Hxs Ha. induction xs as [|x xs IH]; cbn [take_while app].
  - rewrite Ha. reflexivity.
  - cbn [forallb] in Hxs. apply andb_true_iff in Hxs as [-> Hxs]. rewrite IH; auto.
Qed.

Lemma take_while_all_id p xs : forallb p xs = true -> take_while p xs = xs.
Proof.
  induction xs as [|x xs IH]; [reflexivity|]. cbn [forallb take_while].
  intros H. apply andb_true_iff in H as [-> H]. rewrite IH; auto.
Qed.

Lemma drop_while_all p xs : forallb p xs = true -> drop_while p xs = [].
Proof.
  induction xs as [|x xs IH]; [reflexivity|]. cbn [forallb drop_while].
  intros H. apply andb_true_iff in H as [-> H]. auto.
Qed.

Lemma space_not_decimal c : isspace_char c = true -> isdecimal_char c = false.
Proof.
  intros H. destruct (isdecimal_char c) eqn:E; [|reflexivity].
  rewrite (decimal_not_space _ E) in H. discriminate.
Qed.

Lemma last_ok_not_lf x : last_ok (x ++ [LF]) = false.
Proof. unfold last_ok. rewrite rev_app_distr. reflexivity. Qed.

Lemma tail_is_empty pre tail :
  last_ok (pre ++ tail) = true -> tail = [] \/ tail = [LF] -> tail = [].
Proof.
  intros H [-> | ->]; [reflexivity|]. rewrite last_ok_not_lf in H. discriminate.
Qed.

Lemma nonempty_length (A : Type) (xs : list A) n : S n <= List.length xs -> xs <> [].
Proof. destruct xs; cbn; [lia|congruence]. Qed.

Lemma rev_nonempty (A : Type) (xs : list A) : xs <> [] -> rev xs <> [].
Proof.
  intros H E. apply (f_equal (@rev A)) in E. rewrite rev_involutive in E. auto.
Qed.

Lemma found_search_iff r c :
  found (re_search r c) = true <->
  exists j mo, j <= List.length c /\ match_at r j (skipn j c) = Some mo.
Proof.
  unfold re_search. split.
  - destruct (search_from r 0 c) as [mo|] eqn:E; [|discriminate]. intros _.
    apply search_from_spec in E as (j & Hj & Hm & _). eauto.
  - intros (j & mo & Hj & Hm).
    destruct (search_from_some r c 0 j mo Hj Hm) as [mo' ->]. reflexivity.
Qed.

(** [\d+$] finds something exactly when the content ends with a digit. *)
Lemma trailing_digits_spec c :
  last_ok c = true ->
  found (re_search re_trailing_digits c) = has_trailing_digits c.
Proof.
  intros Hl. apply eq_true_iff_eq. rewrite found_search_iff. unfold has_trailing_digits.
  split.
  - intros (j & mo & Hj & Hm).
    apply match_at_sound in Hm as (e & rest' & g & Hm & _).
    unfold re_trailing_digits in Hm. inv_matches.
    match goal with
    | Heq : ?ds ++ ?tail = skipn j c, Hd : forallb cls_d ?ds = true,
      Hn : 1 <= List.length ?ds, Ht : ?tail = [] \/ _ |- _ =>
        rewrite <- (firstn_skipn j c), <- Heq, app_assoc in Hl;
        apply (tail_is_empty _ _ Hl) in Ht; subst tail;
        rewrite <- (firstn_skipn j c), <- Heq, app_nil_r, rev_app_distr;
        apply (nonempty_length _ ds 0), (@rev_nonempty ascii) in Hn;
        rewrite <- forallb_rev in Hd;
        destruct (rev ds) as [|d rds]; [congruence|];
        cbn [forallb] in Hd; apply andb_true_iff in Hd as [Hd _];
        unfold cls_d in Hd; cbn [app take_while]; rewrite Hd; reflexivity
    end.
  - intros H. destruct (rev c) as [|d rc] eqn:E; [discriminate|].
    cbn [take_while] in H. destruct (isdecimal_char d) eqn:Hd; [|discriminate].
    apply (f_equal (@rev ascii)) in E. rewrite rev_involutive in E. cbn [rev] in E.
    assert (Hm : matches re_trailing_digits (List.length (rev rc)) [d] []
                   (List.length (rev rc) + 1) [] []).
    { unfold re_trailing_digits. eapply M_Seq; [|apply M_Eol; auto].
      apply (@M_Rep cls_d 1 [d]); [cbn; unfold cls_d; rewrite Hd; reflexivity|cbn; lia]. }
    apply match_at_complete in Hm as [mo Hmo].
    exists (List.length (rev rc)), mo. subst c. rewrite length_app, skipn_app, skipn_all.
    rewrite Nat.sub_diag. cbn [skipn app List.length]. split; [lia|exact Hmo].
Qed.

(** [^.*[^\s]\s[0-9]+$] matches exactly when the content ends with a digit
    run that has one white-space character just before it and a character
    that is not white space before that. *)
Lemma one_space_number_spec c :
  last_ok c = true -> no_break c = true ->
  found (re_match re_one_space_number c)
  = has_trailing_digits c && one_space_before_digits c.
Proof.
  intros Hl Hnb. apply eq_true_iff_eq. rewrite andb_true_iff.
  unfold re_match, has_trailing_digits, one_space_before_digits. split.
  - destruct (match_at re_one_space_number 0 c) as [mo|] eqn:Hm; [|discriminate].
    intros _. apply match_at_sound in Hm as (e & rest' & g & Hm & _).
    unfold re_one_space_number in Hm. inv_matches.
    match goal with
    | Hd : forallb cls_0_9 ?ds = true, Hn : 1 <= List.length ?ds,
      Hx : cls_not_s ?x = true, Hw : cls_s ?w = true, Ht : ?tail = [] \/ _ |- _ =>
        change (?xs ++ x :: w :: ds ++ tail) with (xs ++ [x; w] ++ ds ++ tail) in Hl;
        rewrite !app_assoc in Hl; apply (tail_is_empty _ _ Hl) in Ht; subst tail;
        rewrite app_nil_r;
        change (?xs ++ x :: w :: ds) with (xs ++ [x; w] ++ ds);
        rewrite !rev_app_distr; cbn [rev app]; rewrite <- !app_assoc; cbn [app];
        apply (nonempty_length _ ds 0), (@rev_nonempty ascii) in Hn;
        rewrite <- forallb_rev in Hd;
        rewrite (take_while_app_stop isdecimal_char (rev ds) w)
          by (auto; apply space_not_decimal; exact Hw);
        rewrite (drop_while_app_stop isdecimal_char (rev ds) w)
          by (auto; apply space_not_decimal; exact Hw);
        split; [destruct (rev ds); [congruence|reflexivity]|];
        unfold cls_s in Hw; unfold cls_not_s in Hx; rewrite Hw, Hx; reflexivity
    end.
  - intros [Ht Ho].
    pose proof (take_drop_while isdecimal_char (rev c)) as Hc.
    pose proof (take_while_all isdecimal_char (rev c)) as Hds.
    destruct (drop_while isdecimal_char (rev c)) as [|w [|x r]]; try discriminate.
    apply andb_true_iff in Ho as [Hw Hx].
    set (rds := take_while isdecimal_char (rev c)) in *.
    apply (f_equal (@rev ascii)) in Hc. rewrite rev_involutive, rev_app_distr in Hc.
    cbn [rev] in Hc. rewrite <- !app_assoc in Hc. cbn [app] in Hc.
    assert (Hany : forallb cls_any (rev r) = true).
    { rewrite <- Hc in Hnb. rewrite no_break_app in Hnb.
      apply andb_true_iff in Hnb as [Hnb _]. unfold no_break in Hnb.
      apply forallb_forall. intros y Hy.
      rewrite forallb_forall in Hnb. specialize (Hnb y Hy).
      unfold cls_any. destruct (Ascii.eqb y LF) eqn:E; [|reflexivity].
      apply Ascii.eqb_eq in E. subst y. discriminate. }
    assert (Hm : exists e, matches re_one_space_number 0 c [] e [] []).
    { rewrite <- Hc. unfold re_one_space_number. eexists.
      eapply M_Seq; [apply M_Bol|].
      eapply M_Seq; [apply (@M_Rep cls_any 0 (rev r)); [exact Hany|lia]|].
      eapply M_Seq; [apply M_Cls; exact Hx|].
      eapply M_Seq; [apply M_Cls; exact Hw|].
      rewrite <- (app_nil_r (rev rds)).
      eapply M_Seq; [|apply M_Eol; auto].
      apply (@M_Rep cls_0_9 1 (rev rds)).
      - rewrite forallb_rev. exact Hds.
      - rewrite length_rev. destruct rds; [discriminate|cbn; lia]. }
    destruct Hm as [e Hm]. apply match_at_complete in Hm as [mo ->]. reflexivity.
Qed.

(** [\s{2,}\d+$] finds nothing when one white-space character separates the
    digits from what is before. *)
Lemma many_spaces_number_spec c :
  last_ok c = true -> one_space_before_digits c = true ->
  found (re_search re_many_spaces_number c) = false.
Proof.
  intros Hl Ho. destruct (found (re_search re_many_spaces_number c)) eqn:F; [|reflexivity].
  exfalso. apply found_search_iff in F as (j & mo & Hj & Hm).
  apply match_at_sound in Hm as (e & rest' & g & Hm & _).
  unfold re_many_spaces_number in Hm. inv_matches.
  match goal with
  | Heq : ?ws ++ ?ds ++ ?tail = skipn j c, Hd : forallb cls_d ?ds = true,
    Hws : forallb cls_s ?ws = true, Hn : 2 <= List.length ?ws,
    Ht : ?tail = [] \/ _ |- _ =>
      rewrite <- (firstn_skipn j c), <- Heq, !app_assoc in Hl;
      apply (tail_is_empty _ _ Hl) in Ht; subst tail;
      unfold one_space_before_digits in Ho;
      rewrite <- (firstn_skipn j c), <- Heq, app_nil_r, !rev_app_distr,
        <- app_assoc in Ho;
      rewrite <- forallb_rev in Hd, Hws; rewrite <- length_rev in Hn;
      destruct (rev ws) as [|w1 [|w2 rws]]; cbn [List.length] in Hn; try lia;
      cbn [forallb] in Hws; apply andb_true_iff in Hws as [Hw1 Hws];
      apply andb_true_iff in Hws as [Hw2 _]; unfold cls_s in Hw1, Hw2;
      cbn [app] in Ho;
      rewrite (drop_while_app_stop isdecimal_char (rev ds) w1)
        in Ho by (auto; apply space_not_decimal; exact Hw1);
      rewrite Hw1, Hw2 in Ho; discriminate
  end.
Qed.

(** ** is_beautified *)

Lemma no_break_strip line :
  is_blank line = false -> no_break line = true -> no_break (strip line) = true.
Proof.
  intros Hb Hn. destruct (strip_decomp line Hb) as (ws1 & ws2 & Hline & _).
  rewrite Hline, !no_break_app in Hn.
  apply andb_true_iff in Hn as [_ Hn]. apply andb_true_iff in Hn as [Hn _]. exact Hn.
Qed.

(** The three pattern tests of the loop body amount to the canonical form. *)
Lemma line_tests_spec c :
  last_ok c = true -> no_break c = true ->
  (if found (re_search re_trailing_digits c) then
     if negb (found (re_match re_one_space_number c)) then false
     else if found (re_search re_many_spaces_number c) then false else true
   else true)
  = (negb (has_trailing_digits c) || one_space_before_digits c).
Proof.
  intros Hl Hn. rewrite trailing_digits_spec, one_space_number_spec by assumption.
  destruct (has_trailing_digits c); [|reflexivity]. cbn [andb negb orb].
  destruct (one_space_before_digits c) eqn:Ho; [|reflexivity]. cbn [negb].
  rewrite many_spaces_number_spec by assumption. reflexivity.
Qed.

Lemma is_beautified_loop_spec lines :
  Forall (fun l => no_break l = true) lines ->
  is_beautified_loop lines = forallb (fun l => is_blank l || canonical_line l) lines.
Proof.
  induction 1 as [|line lines Hline _ IH]; [reflexivity|].
  cbn [is_beautified_loop forallb]. rewrite IH.
  destruct (is_blank line) eqn:Hb; [reflexivity|].
  cbn [orb]. unfold canonical_line.
  destruct (strip_decomp line Hb) as (_ & _ & _ & _ & _ & _ & Hl & _).
  pose proof (line_tests_spec (strip line) Hl (no_break_strip _ Hb Hline)) as Ht.
  destruct (Nat.eqb (indent_of line mod 4) 0); cbn [negb andb]; [|reflexivity].
  rewrite <- Ht.
  destruct (found (re_search re_trailing_digits (strip line))); [|reflexivity].
  destruct (negb (found (re_match re_one_space_number (strip line)))); [reflexivity|].
  destruct (found (re_search re_many_spaces_number (strip line))); reflexivity.
Qed.

(** C4, as amended: for a text of characters U+0000..U+00FF (the texts of
    this development, where [\d] and [[0-9]] are the same class),
    [is_beautified] holds of the text exactly when the text is not empty and
    every line of it that is not blank is in canonical form: its indentation
    is a multiple of 4, and its content either does not end with a digit run
    or has, just before the trailing digit run, one white-space character
    with a character that is not white space before it.  The empty text is
    not beautified. *)
Theorem is_beautified_iff (T : str) :
  is_beautified T = true <->
  T <> [] /\
  forall line, In line (splitlines T) -> is_blank line = false ->
               canonical_line line = true.
Proof.
  unfold is_beautified. cbn zeta.
  pose proof (splitlines_no_break (List.length T) T (le_n _)) as Hnb.
  pose proof (splitlines_nil T) as Hnil.
  destruct (splitlines T) as [|l ls] eqn:E.
  - split; [discriminate|]. intros [H _]. exfalso. apply H, Hnil. reflexivity.
  - rewrite (is_beautified_loop_spec _ Hnb), forallb_forall. split.
    + intros H. split.
      * intros ->. discriminate.
      * intros line Hin Hb. specialize (H line Hin). rewrite Hb in H. exact H.
    + intros [_ H] line Hin. destruct (is_blank line) eqn:Hb; [reflexivity|].
      apply H; assumption.
Qed.

(** C4, as stated, fails on the empty text: every non-blank line of it is
    canonical (it has no line), and [is_beautified] returns false. *)
Lemma is_beautified_empty_text :
  (forall line, In line (splitlines (py "")) -> is_blank line = false ->
                canonical_line line = true) /\
  is_beautified (py "") = false.
Proof. split; [intros line []|reflexivity]. Qed.
(** ** beautify_outline *)

Lemma split_page_matches j ws ds :
  ws <> [] -> forallb isspace_char ws = true ->
  ds <> [] -> forallb isdecimal_char ds = true ->
  exists mo, match_at re_split_page j (ws ++ ds) = Some mo.
Proof.
  intros Hws1 Hws2 Hds1 Hds2.
  assert (Hm : matches re_split_page j (ws ++ ds ++ []) []
                 (j + List.length ws + List.length ds) []
                 [(1, (j + List.length ws, j + List.length ws + List.length ds))]).
  { unfold re_split_page. eapply M_Seq.
    - apply (@M_Rep cls_s 1 ws); [exact Hws2|destruct ws; [congruence|cbn; lia]].
    - eapply M_Seq; [|apply M_Eol; auto].
      apply M_Grp. apply (@M_Rep cls_d 1 ds); [exact Hds2|destruct ds; [congruence|cbn; lia]]. }
  rewrite app_nil_r in Hm. apply match_at_complete in Hm. exact Hm.
Qed.

(** Where the split pattern is found in a content without white space at
    its ends: before the white space that precedes the trailing digits. *)
Lemma split_page_shape c mo :
  head_ok c = true -> last_ok c = true ->
  re_search re_split_page c = Some mo ->
  exists pre ws ds,
    c = pre ++ ws ++ ds /\
    head_ok pre = true /\ last_ok pre = true /\
    ws <> [] /\ forallb isspace_char ws = true /\
    ds <> [] /\ forallb isdecimal_char ds = true /\
    firstn (m_start mo) c = pre /\ group c mo 1 = ds /\ skipn (m_end mo) c = [].
Proof.
  intros Hh Hl H. unfold re_search in H.
  apply search_from_spec in H as (j & Hj & Hm & Hmin). cbn [Nat.add] in Hm, Hmin.
  apply match_at_sound in Hm as (e & rest' & g & Hm & ->). cbn [m_start m_end].
  unfold re_split_page in Hm. inv_matches.
  match goal with
  | Heq : ?ws ++ ?ds ++ ?tail = skipn j c, Hd : forallb cls_d ?ds = true,
    Hws : forallb cls_s ?ws = true, Hn : 1 <= List.length ?ws,
    Hn' : 1 <= List.length ?ds, Ht : ?tail = [] \/ _ |- _ =>
      rename ws into ws0; rename ds into ds0; rename Heq into Hskip;
      rename Hd into Hds; rename Hn into Hwn; rename Hn' into Hdn;
      rename Hws into Hspaces;
      assert (Htail : tail = [])
        by (rewrite <- (firstn_skipn j c), <- Hskip, !app_assoc in Hl;
            apply (tail_is_empty _ _ Hl Ht));
      subst tail; clear Ht
  end.
  rewrite app_nil_r in Hskip.
  apply nonempty_length in Hwn, Hdn.
  assert (Hc : c = firstn j c ++ ws0 ++ ds0) by (rewrite Hskip; symmetry; apply firstn_skipn).
  assert (Hpre : firstn j c <> []).
  { intros E. rewrite E in Hc. cbn [app] in Hc. rewrite Hc in Hh.
    destruct ws0 as [|w ws0]; [congruence|].
    cbn [forallb] in Hspaces. apply andb_true_iff in Hspaces as [Hw _].
    cbn [app head_ok] in Hh. unfold cls_s in Hw. rewrite Hw in Hh. discriminate. }
  exists (firstn j c), ws0, ds0.
  split; [exact Hc|]. split; [|split; [|repeat split; auto]].
  - rewrite <- (head_ok_app _ (ws0 ++ ds0) Hpre), <- Hc. exact Hh.
  - destruct (last_ok (firstn j c)) eqn:Hlast; [reflexivity|]. exfalso.
    unfold last_ok in Hlast. apply rev_nonempty in Hpre.
    destruct (rev (firstn j c)) as [|w rp] eqn:Erev; [congruence|].
    cbn [head_ok] in Hlast. apply negb_false_iff in Hlast.
    apply (f_equal (@rev ascii)) in Erev. rewrite rev_involutive in Erev. cbn [rev] in Erev.
    assert (Hlen : List.length (firstn j c) = j) by (apply firstn_length_le; exact Hj).
    rewrite Erev, length_app in Hlen. cbn [List.length] in Hlen.
    assert (Hsk : skipn (List.length (rev rp)) c = (w :: ws0) ++ ds0).
    { rewrite Hc, Erev, <- app_assoc, skipn_app, skipn_all, Nat.sub_diag. reflexivity. }
    destruct (split_page_matches (List.length (rev rp)) (w :: ws0) ds0) as [mo' Hmo'];
      auto; try congruence.
    { cbn [forallb]. rewrite Hlast. exact Hspaces. }
    rewrite <- Hsk, Hmin in Hmo' by lia. discriminate.
  - unfold group. cbn [m_caps span_of Nat.eqb].
    apply slice_at with (rest := []). rewrite app_nil_r. auto.
  - replace (j + List.length ws0 + List.length ds0) with (List.length c).
    + apply skipn_all.
    + rewrite Hc at 1. rewrite !length_app, firstn_length_le by exact Hj. lia.
Qed.

Lemma last_ok_digits ds :
  ds <> [] -> forallb isdecimal_char ds = true -> last_ok ds = true.
Proof.
  intros Hne Hds. unfold last_ok. apply rev_nonempty in Hne.
  rewrite <- forallb_rev in Hds. destruct (rev ds) as [|d r]; [congruence|].
  cbn [forallb] in Hds. apply andb_true_iff in Hds as [Hd _].
  cbn [head_ok]. rewrite (decimal_not_space _ Hd). reflexivity.
Qed.

(** Two ways to cut a content into a part without white space at its end,
    white space and trailing digits are the same. *)
Lemma split_page_unique pre ws ds pre' ws' ds' :
  pre ++ ws ++ ds = pre' ++ ws' ++ ds' ->
  last_ok pre = true -> last_ok pre' = true ->
  ws <> [] -> ws' <> [] ->
  forallb isspace_char ws = true -> forallb isspace_char ws' = true ->
  forallb isdecimal_char ds = true -> forallb isdecimal_char ds' = true ->
  pre = pre' /\ ds = ds'.
Proof.
  intros Heq Hp Hp' Hw Hw' Hws Hws' Hds Hds'.
  apply (f_equal (@rev ascii)) in Heq. rewrite !rev_app_distr, <- !app_assoc in Heq.
  apply rev_nonempty in Hw, Hw'. rewrite <- forallb_rev in Hws, Hws', Hds, Hds'.
  unfold last_ok in Hp, Hp'.
  destruct (rev ws) as [|w rw]; [congruence|]. destruct (rev ws') as [|w' rw']; [congruence|].
  assert (Hwd : isdecimal_char w = false)
    by (apply space_not_decimal; cbn [forallb] in Hws; apply andb_true_iff in Hws; tauto).
  assert (Hwd' : isdecimal_char w' = false)
    by (apply space_not_decimal; cbn [forallb] in Hws'; apply andb_true_iff in Hws'; tauto).
  cbn [app] in Heq.
  pose proof (f_equal (take_while isdecimal_char) Heq) as Ht.
  pose proof (f_equal (drop_while isdecimal_char) Heq) as Hd.
  rewrite !take_while_app_stop in Ht by auto.
  rewrite !drop_while_app_stop in Hd by auto.
  split.
  - apply (f_equal (drop_while isspace_char)) in Hd.
    destruct (rev pre) as [|x rp] eqn:Ep; [discriminate|].
    destruct (rev pre') as [|x' rp'] eqn:Ep'; [discriminate|].
    cbn [head_ok] in Hp, Hp'. apply negb_true_iff in Hp, Hp'.
    change (w :: rw ++ x :: rp) with ((w :: rw) ++ x :: rp) in Hd.
    change (w' :: rw' ++ x' :: rp') with ((w' :: rw') ++ x' :: rp') in Hd.
    rewrite !drop_while_app_stop in Hd by auto.
    rewrite <- Ep, <- Ep' in Hd.
    apply (f_equal (@rev ascii)) in Hd. rewrite !rev_involutive in Hd. exact Hd.
  - apply (f_equal (@rev ascii)) in Ht. rewrite !rev_involutive in Ht. exact Ht.
Qed.

Lemma head_ok_nonempty c : head_ok c = true -> c <> [].
Proof. destruct c; [discriminate|congruence]. Qed.

(** The rebuilt content of a line is a fixed point of the rebuilding. *)
Lemma beautify_content_fixed c :
  head_ok c = true -> last_ok c = true ->
  head_ok (beautify_content c) = true /\
  last_ok (beautify_content c) = true /\
  beautify_content (beautify_content c) = beautify_content c /\
  (no_break c = true -> no_break (beautify_content c) = true).
Proof.
  intros Hh Hl.
  assert (Hcases :
    (beautify_content c = c /\ re_search re_split_page c = None) \/
    exists pre ws ds,
      c = pre ++ ws ++ ds /\ beautify_content c = pre ++ py " " ++ ds /\
      head_ok pre = true /\ last_ok pre = true /\
      ds <> [] /\ forallb isdecimal_char ds = true).
  { unfold beautify_content, re_split1. rewrite (strip_tight c Hh Hl).
    destruct (re_search re_split_page c) as [mo|] eqn:E; [right|left; auto].
    destruct (split_page_shape c mo Hh Hl E)
      as (pre & ws & ds & Hc & Hph & Hpl & _ & _ & Hd1 & Hd2 & -> & -> & _).
    exists pre, ws, ds. rewrite (rstrip_last_ok pre Hpl). auto 10. }
  destruct Hcases as [[Hsame Hnone] | (pre & ws & ds & Hc & Hb & Hph & Hpl & Hd1 & Hd2)].
  - rewrite !Hsame. auto.
  - rewrite Hb.
    assert (Hh' : head_ok (pre ++ py " " ++ ds) = true)
      by (rewrite head_ok_app; auto using head_ok_nonempty).
    assert (Hl' : last_ok (pre ++ py " " ++ ds) = true)
      by (rewrite app_assoc, last_ok_app; auto using last_ok_digits).
    split; [exact Hh'|]. split; [exact Hl'|]. split.
    + unfold beautify_content, re_split1. rewrite (strip_tight _ Hh' Hl').
      destruct (split_page_matches (List.length pre) (py " ") ds) as [mo0 Hmo0];
        auto; try discriminate.
      destruct (search_from_some re_split_page (pre ++ py " " ++ ds) 0
                  (List.length pre) mo0) as [mo Hmo].
      { rewrite length_app. lia. }
      { rewrite skipn_app, skipn_all, Nat.sub_diag. exact Hmo0. }
      fold (re_search re_split_page (pre ++ py " " ++ ds)) in Hmo. rewrite Hmo.
      destruct (split_page_shape _ mo Hh' Hl' Hmo)
        as (pre' & ws' & ds' & Hc' & _ & Hpl' & Hw1 & Hw2 & _ & Hd2' & -> & -> & _).
      destruct (split_page_unique pre (py " ") ds pre' ws' ds' Hc') as [<- <-];
        auto; try discriminate.
      rewrite (rstrip_last_ok pre Hpl). reflexivity.
    + rewrite Hc, !no_break_app, !andb_true_iff. intros (Hp & _ & Hd).
      repeat split; auto.
Qed.

(** The line the loop emits is emitted again as it is. *)
Lemma beautify_line_fixed line :
  is_blank line = false ->
  is_blank (beautify_line line) = false /\
  indent_of (beautify_line line) / 4 = indent_of line / 4 /\
  beautify_line (beautify_line line) = beautify_line line /\
  beautify_line line <> [] /\
  (no_break line = true -> no_break (beautify_line line) = true).
Proof.
  intros Hb. destruct (strip_decomp line Hb) as (_ & _ & _ & _ & _ & Hh & Hl & _).
  destruct (beautify_content_fixed _ Hh Hl) as (Hh' & Hl' & Hfix & Hnb).
  assert (Hbl : beautify_line line
                = repeat SPACE (indent_of line / 4 * 4) ++ beautify_content (strip line))
    by (unfold beautify_line; rewrite str_mul_spaces; reflexivity).
  rewrite !Hbl.
  set (n := indent_of line / 4) in *. set (c' := beautify_content (strip line)) in *.
  assert (Hind : indent_of (repeat SPACE (n * 4) ++ c') / 4 = n).
  { rewrite indent_of_frame by auto using forallb_repeat_space.
    rewrite repeat_length. apply Nat.div_mul. lia. }
  split; [apply is_blank_frame; auto using forallb_repeat_space|].
  split; [exact Hind|]. split; [|split].
  - unfold beautify_line. rewrite Hind, str_mul_spaces. f_equal.
    rewrite <- (app_nil_r c') at 1.
    rewrite strip_frame by auto using forallb_repeat_space. exact Hfix.
  - apply head_ok_nonempty in Hh'. destruct (repeat SPACE (n * 4)); cbn [app];
      [exact Hh'|congruence].
  - intros Hline. rewrite no_break_app, no_break_repeat_space. cbn [andb].
    apply Hnb. apply no_break_strip; assumption.
Qed.

Lemma beautified_from_idem lines : forall last,
  beautified_from last (beautified_from last lines) = beautified_from last lines.
Proof.
  induction lines as [|line lines IH]; intros last; [reflexivity|].
  cbn [beautified_from]. destruct (is_blank line) eqn:Hb; [apply IH|].
  destruct (beautify_line_fixed line Hb) as (Hb' & Hind & Hfix & _).
  set (sep := Nat.eqb (indent_of line / 4) 0 && negb (Z.eqb last (-1))).
  assert (Hline : beautified_from last
                    (beautify_line line :: beautified_from (Z.of_nat (indent_of line / 4)) lines)
                  = (if sep then [py ""] else []) ++
                    beautify_line line :: beautified_from (Z.of_nat (indent_of line / 4)) lines).
  { cbn [beautified_from]. rewrite Hb', Hind, Hfix, IH. reflexivity. }
  destruct sep; cbn [app]; [|exact Hline].
  cbn [beautified_from]. change (is_blank (py "")) with true. cbv iota.
  exact Hline.
Qed.

Lemma good_lines_beautified lines : forall last,
  Forall (fun l => no_break l = true) lines -> good_lines (beautified_from last lines).
Proof.
  induction lines as [|line lines IH]; intros last Hn; [exact I|].
  inversion Hn as [|? ? Hline Hlines]; subst. cbn [beautified_from].
  destruct (is_blank line) eqn:Hb; [apply IH; exact Hlines|].
  destruct (beautify_line_fixed line Hb) as (_ & _ & _ & Hne & Hnb).
  assert (Hg : good_lines (beautify_line line ::
                           beautified_from (Z.of_nat (indent_of line / 4)) lines)).
  { cbn [good_lines]. split; [auto|].
    specialize (IH (Z.of_nat (indent_of line / 4)) Hlines).
    destruct (beautified_from (Z.of_nat (indent_of line / 4)) lines); [exact Hne|exact IH]. }
  destruct (Nat.eqb (indent_of line / 4) 0 && negb (Z.eqb last (-1))); cbn [app];
    [|exact Hg].
  split; [reflexivity|exact Hg].
Qed.

Lemma fold_beautify_step lines : forall acc last,
  fst (fold_left beautify_step lines (acc, last)) = acc ++ beautified_from last lines.
Proof.
  induction lines as [|line lines IH]; intros acc last.
  - cbn. rewrite app_nil_r. reflexivity.
  - cbn [fold_left beautified_from]. unfold beautify_step at 2.
    destruct (is_blank line); [apply IH|].
    rewrite IH. fold (beautify_line line).
    destruct (Nat.eqb (indent_of line / 4) 0 && negb (Z.eqb last (-1)));
      rewrite <- !app_assoc; reflexivity.
Qed.

Lemma beautify_outline_unfold T :
  beautify_outline T =
    if is_beautified T then T else join [LF] (beautified_from (-1) (splitlines T)).
Proof.
  unfold beautify_outline. destruct (is_beautified T); [reflexivity|].
  pose proof (fold_beautify_step (splitlines T) [] (-1)%Z) as H.
  destruct (fold_left beautify_step (splitlines T) ([], (-1)%Z)) as [b l].
  cbn [fst app] in H. rewrite H. reflexivity.
Qed.

(** C6: [beautify_outline] is idempotent, and it returns a text on which
    [is_beautified] holds as it is. *)
Theorem beautify_outline_idempotent (T : str) :
  beautify_outline (beautify_outline T) = beautify_outline T /\
  (is_beautified T = true -> beautify_outline T = T).
Proof.
  split.
  - rewrite (beautify_outline_unfold T). destruct (is_beautified T) eqn:E.
    + rewrite beautify_outline_unfold, E. reflexivity.
    + rewrite beautify_outline_unfold.
      destruct (is_beautified (join [LF] (beautified_from (-1) (splitlines T))));
        [reflexivity|].
      rewrite splitlines_join, beautified_from_idem; [reflexivity|].
      apply good_lines_beautified. apply (splitlines_no_break (List.length T)). lia.
  - intros E. rewrite beautify_outline_unfold, E. reflexivity.
Qed.

Lemma beautify_outline_idempotent_witness :
  is_beautified (text_of_lines ["Preface 1"; "    Notes 12"]%string) = true /\
  beautify_outline (text_of_lines ["Preface 1"; "    Notes 12"]%string)
  = text_of_lines ["Preface 1"; "    Notes 12"]%string.
Proof.
  split; [reflexivity|].
  apply (proj2 (beautify_outline_idempotent
                  (text_of_lines ["Preface 1"; "    Notes 12"]%string))).
  reflexivity.
Defined.

(** C10: [is_beautified] is not a complete test for the fixed points of
    [beautify_outline]: the one-line text 42 is left unchanged by
    [beautify_outline], and [is_beautified] rejects it. *)
Theorem is_beautified_misses_fixed_point :
  exists T, T = py "42" /\ beautify_outline T = T /\ is_beautified T = false.
Proof. exists (py "42"). repeat split; reflexivity. Qed.

(** ** Lower-case Roman numerals *)

(** C5: the module at a line that ends in a separator and a lower-case
    Roman numeral.  The upper-case token is detected, rewritten and split
    off as page 4; the lower-case token is not detected by the normalizer and
    stays in the title, the page defaulting to 0, although
    [convert_to_number] itself converts the lower-case numeral. *)
Theorem lowercase_roman_token_stays_in_title :
  has_page_number (py "Preface ..... IV") = true /\
  has_page_number (py "Preface ..... iv") = false /\
  normalize_outline (py "Preface ..... IV") = py "Preface IV" /\
  normalize_outline (py "Preface ..... iv") = py "Preface ..... iv" /\
  parse_outline (py "Preface ..... IV") = Some [Node (py "Preface") 0 4 []] /\
  parse_outline (py "Preface ..... iv") = Some [Node (py "Preface ..... iv") 0 0 []] /\
  page_token (py "Preface iv") = None /\
  convert_to_number (py "iv") = Some 4%Z.
Proof. repeat split; reflexivity. Qed.
(** * Further properties *)

(** ** The tree builder nests by depth *)

Lemma nested_node_eq t l p cs :
  nested_node (Node t l p cs) <->
  non_increasing (map n_level cs) /\
  Forall (fun c => (l < n_level c)%Z) cs /\ Forall nested_node cs.
Proof.
  cbn [nested_node].
  assert (H : (fix all (cs : list node) : Prop :=
                 match cs with
                 | [] => True
                 | c :: cs' => nested_node c /\ all cs'
                 end) cs <-> Forall nested_node cs).
  { induction cs as [|c cs IH]; split; intros H.
    - constructor.
    - exact I.
    - destruct H as [Hc Hcs]. constructor; [exact Hc|apply IH; exact Hcs].
    - inversion H; subst. split; [assumption|apply IH; assumption]. }
  rewrite H. reflexivity.
Qed.

Lemma non_increasing_snoc ls a :
  non_increasing ls -> Forall (fun b => (a <= b)%Z) ls -> non_increasing (ls ++ [a]).
Proof.
  induction ls as [|b ls IH]; intros Hn Ha; [exact I|].
  inversion Ha as [|? ? Hb Hls]; subst.
  destruct ls as [|c ls]; cbn [app non_increasing].
  - split; [exact Hb|exact I].
  - cbn [non_increasing] in Hn. destruct Hn as [Hcb Hn]. split; [exact Hcb|].
    apply IH; assumption.
Qed.

Lemma nested_close f :
  nested_forest (f_closed f) -> closed_ok f -> nested_node (close f).
Proof.
  intros [Hn Hf] Hc. unfold close. apply nested_node_eq. split; [exact Hn|]. split.
  - unfold closed_ok in Hc. rewrite Forall_forall in *. intros c Hin. apply Hc. exact Hin.
  - exact Hf.
Qed.

Lemma nested_forest_snoc f n :
  nested_forest f -> nested_node n ->
  Forall (fun c => (n_level n <= n_level c)%Z) f ->
  nested_forest (f ++ [n]).
Proof.
  intros [Hn Hf] Hnode Hle. split.
  - rewrite map_app. apply non_increasing_snoc; [exact Hn|].
    rewrite Forall_map. exact Hle.
  - apply Forall_app. split; [exact Hf|]. constructor; [exact Hnode|constructor].
Qed.

Lemma spine_nested_closed top below :
  spine_nested top below -> nested_forest (f_closed top).
Proof. destruct below; cbn [spine_nested]; tauto. Qed.

Lemma spine_nested_merge top g below :
  frames_ok top (g :: below) -> spine_nested top (g :: below) ->
  spine_nested (merge top g) below.
Proof.
  intros Hok (Htop & Hle & Hg).
  assert (Hm : nested_forest (f_closed (merge top g))).
  { unfold merge. cbn [f_closed]. apply nested_forest_snoc.
    - apply (spine_nested_closed _ _ Hg).
    - apply nested_close; [exact Htop|apply (frames_ok_closed _ _ Hok)].
    - exact Hle. }
  destruct below as [|h below].
  - split; [exact Hm|exact I].
  - destruct Hg as (_ & Hh & Hrest). split; [exact Hm|]. split; [exact Hh|exact Hrest].
Qed.

Lemma collapse_nested below : forall top,
  frames_ok top below -> spine_nested top below ->
  nested_forest (f_closed (collapse top below)).
Proof.
  induction below as [|g below IH]; intros top Hok Hn.
  - cbn [collapse]. apply (spine_nested_closed _ _ Hn).
  - cbn [collapse]. apply IH; [apply frames_ok_merge|apply spine_nested_merge]; assumption.
Qed.

(** The unwinding loop, with the nesting: the dict it stops at has no
    complete child shallower than the new line. *)
Lemma unwind_nested below : forall top lvl,
  frames_ok top below -> spine_nested top below ->
  Forall (fun c => (lvl <= n_level c)%Z) (f_closed top) -> (0 <= lvl)%Z ->
  exists top' below',
    unwind (spine_heap (top :: below)) lvl (spine_stack (top :: below))
      = Some (spine_stack (top' :: below')) /\
    spine_heap (top' :: below') = spine_heap (top :: below) /\
    frames_ok top' below' /\ (f_level top' < lvl)%Z /\
    spine_nested top' below' /\
    Forall (fun c => (lvl <= n_level c)%Z) (f_closed top').
Proof.
  induction below as [|g below IH]; intros top lvl Hok Hn Hcl Hlvl;
    cbn [spine_stack unwind]; rewrite top_item; cbn [level];
    destruct (Z.leb lvl (f_level top)) eqn:E.
  - cbn [frames_ok] in Hok. apply Z.leb_le in E. lia.
  - exists top, []. apply Z.leb_gt in E. auto 10.
  - apply Z.leb_le in E.
    assert (Hcl' : Forall (fun c => (lvl <= n_level c)%Z) (f_closed (merge top g))).
    { unfold merge. cbn [f_closed]. apply Forall_app. split.
      - destruct Hn as (_ & Hle & _). rewrite Forall_forall in *.
        intros c Hc. specialize (Hle c Hc). lia.
      - constructor; [cbn [close n_level]; exact E|constructor]. }
    destruct (IH (merge top g) lvl (frames_ok_merge _ _ _ Hok)
                 (spine_nested_merge _ _ _ Hok Hn) Hcl' Hlvl)
      as (top' & below' & Hu & Hh & Hok' & Hlt & Hn' & Hc').
    rewrite spine_heap_merge in Hu, Hh. exists top', below'. auto 10.
  - exists top, (g :: below). apply Z.leb_gt in E. auto 10.
Qed.

Lemma parse_step_nested st top below line :
  parse_inv st top below -> spine_nested top below -> f_closed top = [] ->
  is_blank line = false -> long_token line = false ->
  exists st' top' below' t p,
    parse_step st line = Some st' /\ parse_inv st' top' below' /\
    spine_nested top' below' /\ f_closed top' = [] /\
    split_title_page (lstrip line) (last_page_number st)
      = Some (t, p, last_page_number st') /\
    map item_entry (st_heap st')
      = map item_entry (st_heap st) ++ [(t, Z.of_nat (indent_of line / 4), p)].
Proof.
  intros (Hh & Hs & Hok) Hn Hleaf Hnb Hshort. unfold parse_step. rewrite Hnb.
  destruct (split_title_page_short line (last_page_number st) Hshort)
    as (t & p & l' & Hsplit).
  rewrite Hsplit, Hh, Hs.
  assert (Hcl : Forall (fun c => (Z.of_nat (indent_of line / 4) <= n_level c)%Z)
                       (f_closed top)) by (rewrite Hleaf; constructor).
  destruct (unwind_nested below top (Z.of_nat (indent_of line / 4)) Hok Hn Hcl
              (Nat2Z.is_nonneg _))
    as (top' & below' & Hu & Hh' & Hok' & Hlt & Hn' & Hcl').
  rewrite Hu. cbn [spine_stack].
  eexists _, (Frame t (Z.of_nat (indent_of line / 4)) p []), (top' :: below'), t, p.
  split; [reflexivity|]. split; [|split; [|split; [|split]]].
  - unfold parse_inv. cbn [st_heap st_stack]. rewrite <- Hh', spine_heap_push.
    split; [reflexivity|]. split.
    + cbn [spine_stack]. rewrite length_spine_heap. reflexivity.
    + cbn [frames_ok f_level]. split; [constructor|]. split; [exact Hlt|exact Hok'].
  - cbn [spine_nested f_closed f_level]. split; [split; [exact I|constructor]|].
    split; [exact Hcl'|exact Hn'].
  - reflexivity.
  - cbn [last_page_number]. reflexivity.
  - cbn [st_heap]. rewrite map_app, map_entry_append_child. reflexivity.
Qed.

Lemma parse_loop_nested lines : forall st top below,
  parse_inv st top below -> spine_nested top below -> f_closed top = [] ->
  Forall (fun l => is_blank l = false) lines ->
  Forall (fun l => long_token l = false) lines ->
  exists st' top' below',
    parse_loop st lines = Some st' /\ parse_inv st' top' below' /\
    spine_nested top' below' /\
    map item_entry (st_heap st')
      = map item_entry (st_heap st) ++ line_entries (last_page_number st) lines /\
    List.length (line_entries (last_page_number st) lines) = List.length lines.
Proof.
  induction lines as [|l lines IH]; intros st top below Hinv Hn Hleaf Hnb Hsh.
  - exists st, top, below. cbn [parse_loop line_entries]. rewrite app_nil_r. auto.
  - inversion Hnb as [|? ? Hl Hnb']; subst.
    inversion Hsh as [|? ? Hs Hsh']; subst.
    destruct (parse_step_nested st top below l Hinv Hn Hleaf Hl Hs)
      as (st1 & top1 & below1 & t & p & Hstep & Hinv1 & Hn1 & Hleaf1 & Hsplit & Hent).
    destruct (IH st1 top1 below1 Hinv1 Hn1 Hleaf1 Hnb' Hsh')
      as (st' & top' & below' & Hloop & Hinv' & Hn' & Hent' & Hlen).
    exists st', top', below'. cbn [parse_loop line_entries]. rewrite Hstep, Hsplit.
    split; [exact Hloop|]. split; [exact Hinv'|]. split; [exact Hn'|]. split.
    + rewrite Hent', Hent, <- app_assoc. reflexivity.
    + cbn [List.length]. rewrite Hlen. reflexivity.
Qed.

Lemma entries_layouts cs : forall b,
  map item_entry (layouts b cs) = map node_entry (forest_preorder cs).
Proof.
  induction cs as [|c cs IH]; intros b; [reflexivity|].
  cbn [layouts forest_preorder flat_map]. rewrite !map_app, entries_layout.
  f_equal. apply IH.
Qed.

(** A run of the tree builder on lines without a long token, with the
    nesting of the forest and its entries in document order. *)
Lemma parse_clean_outline_nested clean :
  Forall (fun l => long_token l = false) (clean_lines_of clean) ->
  exists forest,
    parse_clean_outline clean = Some forest /\
    nested_forest forest /\
    Forall (fun n => (-1 < n_level n)%Z) forest /\
    map node_entry (forest_preorder forest) = line_entries 0 (clean_lines_of clean) /\
    List.length (line_entries 0 (clean_lines_of clean))
      = List.length (clean_lines_of clean).
Proof.
  intros Hshort.
  destruct (parse_loop_nested (clean_lines_of clean) parse_init _ _
              parse_init_inv (conj (conj I (Forall_nil _)) I) eq_refl
              (clean_lines_nonblank clean) Hshort)
    as (st' & top' & below' & Hloop & (Hh & _ & Hok) & Hn & Hent & Hlen).
  exists (f_closed (collapse top' below')).
  destruct (collapse_ok _ _ Hok) as [Hc Hl].
  rewrite spine_heap_collapse in Hh.
  split; [|split; [|split; [|split]]].
  - unfold parse_clean_outline. rewrite Hloop, Hh. apply read_forest_layout.
  - apply collapse_nested; assumption.
  - unfold closed_ok in Hc. rewrite Hl in Hc. rewrite Forall_forall in *.
    intros n Hin. apply Hc. exact Hin.
  - rewrite Hh in Hent. unfold close in Hent. rewrite layout_eq in Hent.
    cbn [map parse_init st_heap app last_page_number] in Hent.
    injection Hent as _ _ _ Hent. rewrite <- Hent. symmetry. apply entries_layouts.
  - exact Hlen.
Qed.

Lemma nested_node_preorder n :
  nested_node n -> Forall nested_node (preorder n).
Proof.
  induction n as [t l p cs IH] using node_induction. intros Hn.
  cbn [preorder]. constructor; [exact Hn|].
  apply nested_node_eq in Hn as (_ & _ & Hcs).
  induction cs as [|c cs IHcs]; [constructor|].
  inversion IH; subst. inversion Hcs; subst.
  cbn [flat_map]. apply Forall_app. split; auto.
Qed.

Lemma nested_forest_preorder f :
  nested_forest f -> Forall nested_node (forest_preorder f).
Proof.
  intros [_ Hf]. induction Hf as [|n f Hn _ IH]; [constructor|].
  cbn [forest_preorder flat_map]. apply Forall_app. split; [|exact IH].
  apply nested_node_preorder. exact Hn.
Qed.

(** In a nested tree every node below the root is deeper than the root. *)
Lemma nested_node_deeper n :
  nested_node n ->
  Forall (fun m => (n_level n < n_level m)%Z) (flat_map preorder (n_children n)).
Proof.
  induction n as [t l p cs IH] using node_induction. intros Hn.
  apply nested_node_eq in Hn as (_ & Hlt & Hcs). cbn [n_children n_level].
  induction cs as [|c cs IHcs]; [constructor|].
  inversion IH as [|? ? Hc IH']; subst. inversion Hlt; subst. inversion Hcs; subst.
  cbn [flat_map]. apply Forall_app. split; [|auto].
  destruct c as [tc lc pc ccs]. cbn [preorder n_level] in *.
  constructor; [assumption|].
  specialize (Hc ltac:(assumption)). cbn [n_children n_level] in Hc.
  rewrite Forall_forall in *. intros m Hm. specialize (Hc m Hm). lia.
Qed.

Lemma span_deeper_app lvl sub after :
  Forall (fun e => (lvl < entry_level e)%Z) sub ->
  match after with [] => True | e :: _ => (entry_level e <= lvl)%Z end ->
  span_deeper lvl (sub ++ after) = (sub, after).
Proof.
  intros Hsub Hafter. induction Hsub as [|e sub He _ IH]; cbn [app span_deeper].
  - destruct after as [|e after]; [reflexivity|]. cbn [span_deeper].
    replace (Z.ltb lvl (entry_level e)) with false by (symmetry; apply Z.ltb_ge; lia).
    reflexivity.
  - replace (Z.ltb lvl (entry_level e)) with true by (symmetry; apply Z.ltb_lt; lia).
    rewrite IH. reflexivity.
Qed.

Lemma forest_preorder_head n f :
  exists rest, forest_preorder (n :: f) = n :: rest.
Proof. destruct n as [t l p cs]. cbn [forest_preorder flat_map preorder app]. eauto. Qed.

Lemma forest_preorder_cons t l p cs f :
  forest_preorder (Node t l p cs :: f)
  = Node t l p cs :: forest_preorder cs ++ forest_preorder f.
Proof. reflexivity. Qed.

(** Nesting the entries of a nested forest by depth gives the forest back. *)
Lemma outline_of_entries : forall fuel f,
  nested_forest f -> List.length (forest_preorder f) <= fuel ->
  outline_of fuel (map node_entry (forest_preorder f)) = f.
Proof.
  induction fuel as [|fuel IH]; intros f Hf Hlen.
  - destruct f as [|n f]; [reflexivity|].
    destruct (forest_preorder_head n f) as [rest E]. rewrite E in Hlen. cbn in Hlen. lia.
  - destruct f as [|[t l p cs] f]; [reflexivity|].
    destruct Hf as [Hni Hall]. inversion Hall as [|? ? Hn Hf]; subst.
    rewrite forest_preorder_cons in Hlen |- *.
    cbn [List.length] in Hlen. rewrite length_app in Hlen.
    cbn [map outline_of node_entry n_title n_level n_page]. rewrite map_app.
    rewrite span_deeper_app.
    + pose proof (proj1 (nested_node_eq _ _ _ _) Hn) as (Hcni & _ & Hcall).
      rewrite (IH cs), (IH f); [reflexivity| | | |]; try lia.
      * split; [|exact Hf]. cbn [map] in Hni.
        destruct f; [exact I|]. cbn [map non_increasing] in Hni. tauto.
      * split; assumption.
    + pose proof (nested_node_deeper _ Hn) as Hd. cbn [n_children n_level] in Hd.
      fold (forest_preorder cs) in Hd. rewrite Forall_map. rewrite Forall_forall in *. intros m Hm.
      specialize (Hd m Hm). destruct m; exact Hd.
    + destruct f as [|n' f]; [exact I|].
      destruct (forest_preorder_head n' f) as [rest E]. rewrite E. cbn [map].
      cbn [map non_increasing] in Hni. destruct Hni as [Hle _].
      destruct n'; exact Hle.
Qed.

(** X1: a forest that [parse_clean_outline] returns is the nesting by
    depth of the entries of the lines: each entry owns the longest run of
    entries after it that are deeper than it. *)
Theorem parse_clean_outline_nests_by_depth (clean : str) (forest : list node)
  (H : parse_clean_outline clean = Some forest) :
  forest = nested_outline (line_entries 0 (clean_lines_of clean)).
Proof.
  destruct (parse_clean_outline_nested clean (returned_short _ _ H))
    as (forest' & Hp & Hn & _ & He & _).
  rewrite Hp in H. injection H as <-. unfold nested_outline. rewrite <- He.
  symmetry. apply outline_of_entries; [exact Hn|]. rewrite length_map. lia.
Qed.

Lemma parse_clean_outline_nests_by_depth_witness :
  parse_clean_outline (text_of_lines ["A 3"; "        B"; "    C XIV"; "D"]%string)
  = Some [Node (py "A") 0 3 [Node (py "B") 2 3 []; Node (py "C") 1 14 []];
          Node (py "D") 0 14 []] /\
  [Node (py "A") 0 3 [Node (py "B") 2 3 []; Node (py "C") 1 14 []];
   Node (py "D") 0 14 []]
  = nested_outline
      (line_entries 0 (clean_lines_of
                         (text_of_lines ["A 3"; "        B"; "    C XIV"; "D"]%string))).
Proof.
  split; [reflexivity|].
  apply (parse_clean_outline_nests_by_depth
           (text_of_lines ["A 3"; "        B"; "    C XIV"; "D"]%string)).
  reflexivity.
Defined.

(** X2: in every forest that [parse_clean_outline] or [parse_outline]
    returns, the levels of the top-level nodes never grow from left to right,
    and neither do the levels of the children of any node. *)
Theorem sibling_levels_never_grow (s : str) (forest : list node)
  (H : parse_clean_outline s = Some forest \/ parse_outline s = Some forest) :
  non_increasing (map n_level forest) /\
  forall n, In n (forest_preorder forest) ->
            non_increasing (map n_level (n_children n)).
Proof.
  apply returned_forest in H as [clean H].
  destruct (parse_clean_outline_nested clean (returned_short _ _ H))
    as (forest' & Hp & Hn & _).
  rewrite Hp in H. injection H as <-. split; [exact (proj1 Hn)|].
  intros n Hin. pose proof (nested_forest_preorder _ Hn) as Hall.
  rewrite Forall_forall in Hall. specialize (Hall n Hin).
  destruct n as [t l p cs]. apply nested_node_eq in Hall. cbn [n_children]. tauto.
Qed.

Lemma sibling_levels_never_grow_witness :
  parse_outline (text_of_lines ["A 1"; "        B 2"; "    C 3"; "D 4"]%string)
  = Some [Node (py "A") 0 1 [Node (py "B") 2 2 []; Node (py "C") 1 3 []];
          Node (py "D") 0 4 []] /\
  non_increasing (map n_level [Node (py "B") 2 2 []; Node (py "C") 1 3 []]).
Proof.
  split; [reflexivity|].
  apply (proj2 (sibling_levels_never_grow
                  (text_of_lines ["A 1"; "        B 2"; "    C 3"; "D 4"]%string)
                  [Node (py "A") 0 1 [Node (py "B") 2 2 []; Node (py "C") 1 3 []];
                   Node (py "D") 0 4 []]
                  (or_intror eq_refl))
               (Node (py "A") 0 1 [Node (py "B") 2 2 []; Node (py "C") 1 3 []])).
  left. reflexivity.
Defined.

(** ** Pages and titles of the entries *)

Lemma digit_value_nonneg c : isdecimal_char c = true -> (0 <= digit_value c)%Z.
Proof.
  unfold isdecimal_char, in_range, digit_value. intros H.
  apply andb_true_iff in H as [H _]. apply N.leb_le in H. lia.
Qed.

Lemma int_nonneg s n : int s = Some n -> (0 <= n)%Z.
Proof.
  unfold int. destruct s as [|c s]; [discriminate|].
  destruct (forallb isdecimal_char (c :: s)) eqn:E; [|discriminate].
  destruct (Z.of_nat (List.length (c :: s)) <=? int_max_str_digits)%Z; [|discriminate].
  intros [= <-]. enough (H : forall acc, (0 <= acc)%Z ->
    (0 <= fold_left (fun a x => a * 10 + digit_value x) (c :: s) acc)%Z)
    by (apply (H 0%Z); lia).
  revert E. generalize (c :: s). clear. intros s.
  induction s as [|x s IH]; intros E acc Hacc; cbn [fold_left]; [exact Hacc|].
  cbn [forallb] in E. apply andb_true_iff in E as [Hx E]. apply IH; [exact E|].
  pose proof (digit_value_nonneg x Hx). lia.
Qed.

Lemma convert_to_number_nonneg s n : convert_to_number s = Some n -> (0 <= n)%Z.
Proof.
  unfold convert_to_number. destruct s as [|c s]; [intros [= <-]; lia|].
  destruct (isdigit (c :: s)); [apply int_nonneg|].
  destruct (fold_left roman_step _ _). intros [= <-]. lia.
Qed.

Lemma split_title_page_nonneg content last t p l' :
  split_title_page content last = Some (t, p, l') -> (0 <= last)%Z ->
  (0 <= p)%Z /\ (0 <= l')%Z.
Proof.
  unfold split_title_page. destruct (re_search re_page_match content).
  - destruct (convert_to_number _) as [n|] eqn:E; [|discriminate].
    intros [= _ <- <-] _. apply convert_to_number_nonneg in E. auto.
  - intros [= _ <- <-] H. auto.
Qed.

Lemma line_entries_pages lines : forall last,
  (0 <= last)%Z -> Forall (fun e => (0 <= entry_page e)%Z) (line_entries last lines).
Proof.
  induction lines as [|l lines IH]; intros last Hlast; cbn [line_entries]; [constructor|].
  destruct (split_title_page (lstrip l) last) as [[[t p] l']|] eqn:E; [|constructor].
  destruct (split_title_page_nonneg _ _ _ _ _ E Hlast) as [Hp Hl'].
  constructor; [exact Hp|apply IH; exact Hl'].
Qed.

(** X3: no node of a returned forest has a negative page number. *)
Theorem page_numbers_not_negative (s : str) (forest : list node)
  (H : parse_clean_outline s = Some forest \/ parse_outline s = Some forest) :
  forall n, In n (forest_preorder forest) -> (0 <= n_page n)%Z.
Proof.
  apply returned_forest in H as [clean H].
  destruct (parse_clean_outline_nested clean (returned_short _ _ H))
    as (forest' & Hp & _ & _ & He & _).
  rewrite Hp in H. injection H as <-. intros n Hin.
  pose proof (line_entries_pages (clean_lines_of clean) 0 (Z.le_refl 0)) as Hall.
  rewrite <- He, Forall_map, Forall_forall in Hall. exact (Hall n Hin).
Qed.

Lemma page_numbers_not_negative_witness :
  parse_outline (text_of_lines ["Preface IV"; "    Notes"]%string)
  = Some [Node (py "Preface") 0 4 [Node (py "Notes") 1 4 []]] /\
  (0 <= n_page (Node (py "Notes") 1 4 []))%Z.
Proof.
  split; [reflexivity|].
  apply (page_numbers_not_negative
           (text_of_lines ["Preface IV"; "    Notes"]%string)
           [Node (py "Preface") 0 4 [Node (py "Notes") 1 4 []]]
           (or_intror eq_refl)).
  right. left. reflexivity.
Defined.

Lemma drop_while_snoc_stop p ys a :
  p a = false -> drop_while p (ys ++ [a]) = drop_while p ys ++ [a].
Proof.
  intros Ha. induction ys as [|y ys IH]; cbn [app drop_while].
  - rewrite Ha. reflexivity.
  - destruct (p y); [exact IH|reflexivity].
Qed.

Lemma head_ok_strip x : head_ok x = true -> head_ok (strip x) = true.
Proof.
  intros H. unfold strip. rewrite (lstrip_head_ok _ H).
  destruct x as [|a r]; [discriminate|]. cbn [head_ok] in H.
  apply negb_true_iff in H. unfold rstrip. cbn [rev].
  rewrite lstrip_drop_while, drop_while_snoc_stop by exact H.
  rewrite rev_app_distr. cbn [rev app head_ok]. rewrite H. reflexivity.
Qed.

Lemma head_ok_lstrip line : is_blank line = false -> head_ok (lstrip line) = true.
Proof.
  intros Hb. destruct (strip_decomp line Hb) as (_ & ws2 & _ & _ & _ & Hh & _ & ->).
  rewrite head_ok_app; [exact Hh|]. apply head_ok_nonempty. exact Hh.
Qed.

Lemma split_title_page_title content last t p l' :
  head_ok content = true ->
  split_title_page content last = Some (t, p, l') -> head_ok t = true.
Proof.
  intros Hh. unfold split_title_page.
  destruct (re_search re_page_match content) as [mo|] eqn:E.
  - destruct (convert_to_number _); [|discriminate]. intros [= <- _ _].
    apply page_match_shape in E
      as (ws & tok & tail & Hskip & Hws & Hsp & _ & _ & _ & _ & _).
    apply head_ok_strip.
    rewrite <- (firstn_skipn (m_start mo) content), Hskip in Hh.
    destruct (firstn (m_start mo) content) as [|a r]; [|exact Hh].
    exfalso. cbn [app] in Hh. destruct ws as [|w ws]; [congruence|].
    cbn [forallb] in Hsp. apply andb_true_iff in Hsp as [Hw _].
    cbn [app head_ok] in Hh. unfold cls_s in Hw. rewrite Hw in Hh. discriminate.
  - intros [= <- _ _]. exact Hh.
Qed.

Lemma line_entries_titles lines : forall last,
  Forall (fun l => is_blank l = false) lines ->
  Forall (fun e => head_ok (fst (fst e)) = true) (line_entries last lines).
Proof.
  induction lines as [|l lines IH]; intros last Hnb; cbn [line_entries]; [constructor|].
  inversion Hnb as [|? ? Hl Hnb']; subst.
  destruct (split_title_page (lstrip l) last) as [[[t p] l']|] eqn:E; [|constructor].
  constructor; [|apply IH; exact Hnb']. cbn [fst].
  apply (split_title_page_title _ _ _ _ _ (head_ok_lstrip _ Hl) E).
Qed.

(** X4: the title of every node of a returned forest is not empty and
    does not begin with white space. *)
Theorem titles_not_empty (s : str) (forest : list node)
  (H : parse_clean_outline s = Some forest \/ parse_outline s = Some forest) :
  forall n, In n (forest_preorder forest) ->
            n_title n <> [] /\ lstrip (n_title n) = n_title n.
Proof.
  apply returned_forest in H as [clean H].
  destruct (parse_clean_outline_nested clean (returned_short _ _ H))
    as (forest' & Hp & _ & _ & He & _).
  rewrite Hp in H. injection H as <-. intros n Hin.
  pose proof (line_entries_titles _ 0 (clean_lines_nonblank clean)) as Hall.
  rewrite <- He, Forall_map, Forall_forall in Hall. specialize (Hall n Hin).
  cbn [node_entry fst] in Hall.
  split; [apply head_ok_nonempty; exact Hall|apply lstrip_head_ok; exact Hall].
Qed.

Lemma titles_not_empty_witness :
  parse_outline (text_of_lines ["Preface (IV"; "  12"]%string)
  = Some [Node (py "Preface") 0 4 []; Node (py "12") 0 4 []] /\
  n_title (Node (py "12") 0 4 []) <> [] /\
  lstrip (n_title (Node (py "12") 0 4 [])) = n_title (Node (py "12") 0 4 []).
Proof.
  split; [reflexivity|].
  apply (titles_not_empty
           (text_of_lines ["Preface (IV"; "  12"]%string)
           [Node (py "Preface") 0 4 []; Node (py "12") 0 4 []]
           (or_intror eq_refl)).
  right. left. reflexivity.
Defined.

(** ** Roman numerals *)

Lemma roman_value_cases ch :
  In (dict_get roman_map ch 0%Z) [0; 1; 5; 10; 50; 100; 500; 1000]%Z.
Proof.
  cbn [dict_get roman_map In].
  repeat match goal with |- context [N.eqb ch ?k] => destruct (N.eqb ch k) end; tauto.
Qed.

(** The scan never goes below what the letters still to come could take
    away; in particular it never goes below 0. *)
Lemma neighbour_sum_bound chars :
  (smaller_values_sum (hd 0 (map (fun ch => dict_get roman_map ch 0) chars))
   <= neighbour_sum (map (fun ch => dict_get roman_map ch 0) chars))%Z.
Proof.
  induction chars as [|ch chars IH]; [cbn; lia|].
  cbn [map neighbour_sum hd].
  set (rest := map (fun ch => dict_get roman_map ch 0%Z) chars) in *.
  assert (Hh : In (hd 0%Z rest) [0; 1; 5; 10; 50; 100; 500; 1000]%Z).
  { subst rest. destruct chars as [|ch' chars]; [left; reflexivity|].
    apply roman_value_cases. }
  pose proof (roman_value_cases ch) as Hv.
  cbn [In] in Hh, Hv.
  destruct Hv as [Hv | [Hv | [Hv | [Hv | [Hv | [Hv | [Hv | [Hv | []]]]]]]]];
    destruct Hh as [Hh | [Hh | [Hh | [Hh | [Hh | [Hh | [Hh | [Hh | []]]]]]]]];
    rewrite <- Hv; rewrite <- Hh in IH |- *; unfold smaller_values_sum in IH |- *;
    repeat match goal with
           | |- context [Z.ltb ?a ?b] => destruct (Z.ltb_spec a b)
           | |- context [Z.leb ?a ?b] => destruct (Z.leb_spec a b)
           | H : context [Z.leb ?a ?b] |- _ => destruct (Z.leb_spec a b)
           end; lia.
Qed.

(** X5: on a text that is not a digit string the floor at 0 never acts:
    the sum that the scan computes is not negative, and it is what
    [convert_to_number] returns. *)
Theorem roman_scan_never_negative (s : str) (H : isdigit s = false) :
  (0 <= neighbour_sum (letter_values s))%Z /\
  convert_to_number s = Some (neighbour_sum (letter_values s)).
Proof.
  assert (Hb : (0 <= neighbour_sum (letter_values s))%Z).
  { pose proof (neighbour_sum_bound (upper s)) as Hb. unfold letter_values.
    unfold smaller_values_sum in Hb.
    repeat match type of Hb with context [Z.leb ?a ?b] => destruct (Z.leb a b) end; lia. }
  split; [exact Hb|].
  unfold convert_to_number. destruct s as [|c s]; [reflexivity|].
  rewrite H. unfold letter_values in *. rewrite roman_scan_neighbour. f_equal. lia.
Qed.

Lemma roman_scan_never_negative_witness :
  isdigit (py "IVXLCDM") = false /\
  convert_to_number (py "IVXLCDM") = Some 334%Z.
Proof.
  split; [reflexivity|].
  exact (proj2 (roman_scan_never_negative (py "IVXLCDM") eq_refl)).
Defined.

Lemma standard_numerals_check :
  forallb (fun n =>
             match convert_to_number (py (roman_of n)),
                   convert_to_number (lower_case (py (roman_of n))) with
             | Some a, Some b => Z.eqb a (Z.of_nat n) && Z.eqb b (Z.of_nat n)
             | _, _ => false
             end) (seq 1 3999) = true.
Proof. vm_compute. reflexivity. Qed.

(** X6: [convert_to_number] gives every standard Roman numeral its value:
    for every number from 1 to 3999, the numeral of the number converts to
    the number, in capitals and in lower case. *)
Theorem standard_roman_numerals (n : nat) (H : 1 <= n <= 3999) :
  convert_to_number (py (roman_of n)) = Some (Z.of_nat n) /\
  convert_to_number (lower_case (py (roman_of n))) = Some (Z.of_nat n).
Proof.
  pose proof standard_numerals_check as Hall. rewrite forallb_forall in Hall.
  specialize (Hall n). rewrite in_seq in Hall. specialize (Hall ltac:(lia)).
  destruct (convert_to_number (py (roman_of n))) as [a|]; [|discriminate].
  destruct (convert_to_number (lower_case (py (roman_of n)))) as [b|]; [|discriminate].
  apply andb_true_iff in Hall as [Ha Hb]. apply Z.eqb_eq in Ha, Hb. subst. auto.
Qed.

Lemma standard_roman_numerals_witness :
  1 <= 1994 <= 3999 /\
  convert_to_number (py "MCMXCIV") = Some 1994%Z.
Proof.
  split; [lia|].
  exact (proj1 (standard_roman_numerals 1994 ltac:(lia))).
Defined.

(** ** Where the page pattern is found *)

Lemma page_match_matches j ws tok :
  ws <> [] -> forallb isspace_char ws = true ->
  tok <> [] -> forallb cls_d tok = true \/ forallb cls_roman tok = true ->
  exists mo, match_at re_page_match j (ws ++ tok) = Some mo.
Proof.
  intros Hws1 Hws2 Ht1 Ht2.
  assert (Hm : matches re_page_match j (ws ++ tok ++ []) []
                 (j + List.length ws + List.length tok) []
                 [(1, (j + List.length ws, j + List.length ws + List.length tok))]).
  { unfold re_page_match, re_numeral. eapply M_Seq.
    - apply (@M_Rep cls_s 1 ws); [exact Hws2|destruct ws; [congruence|cbn; lia]].
    - eapply M_Seq; [|apply M_Eol; auto]. apply M_Grp.
      destruct Ht2 as [Hd | Hr]; [apply M_AltL|apply M_AltR];
        apply (@M_Rep _ 1 tok); auto; destruct tok; try congruence; cbn; lia. }
  rewrite app_nil_r in Hm. apply match_at_complete in Hm. exact Hm.
Qed.

(** In a content without white space at its ends the page pattern is found
    just after the text that precedes the white space before the token. *)
Lemma page_match_shape_tight c mo :
  head_ok c = true -> last_ok c = true ->
  re_search re_page_match c = Some mo ->
  exists pre ws tok,
    c = pre ++ ws ++ tok /\
    head_ok pre = true /\ last_ok pre = true /\
    ws <> [] /\ forallb isspace_char ws = true /\
    tok <> [] /\ (forallb cls_d tok = true \/ forallb cls_roman tok = true) /\
    firstn (m_start mo) c = pre /\ group c mo 1 = tok.
Proof.
  intros Hh Hl H.
  destruct (page_match_shape c mo H)
    as (ws & tok & tail & Hskip & Hws1 & Hws2 & Ht1 & Ht2 & Htail & Hg & Hj).
  unfold re_search in H. apply search_from_spec in H as (j & _ & Hm & Hmin).
  cbn [Nat.add] in Hm, Hmin.
  assert (Hstart : m_start mo = j).
  { apply match_at_sound in Hm as (e & rest' & g & _ & ->). reflexivity. }
  rewrite Hstart in *. clear Hstart Hm.
  assert (Hc : c = firstn j c ++ ws ++ tok ++ tail)
    by (rewrite <- Hskip; symmetry; apply firstn_skipn).
  assert (Htl : tail = []).
  { rewrite Hc, !app_assoc in Hl. apply (tail_is_empty _ _ Hl Htail). }
  subst tail. rewrite app_nil_r in Hc, Hskip.
  assert (Hpre : firstn j c <> []).
  { intros E. rewrite E in Hc. cbn [app] in Hc. rewrite Hc in Hh.
    destruct ws as [|w ws]; [congruence|].
    cbn [forallb] in Hws2. apply andb_true_iff in Hws2 as [Hw _].
    cbn [app head_ok] in Hh. unfold cls_s in Hw. rewrite Hw in Hh. discriminate. }
  exists (firstn j c), ws, tok.
  split; [exact Hc|]. split; [|split; [|repeat split; auto]].
  - rewrite <- (head_ok_app _ (ws ++ tok) Hpre), <- Hc. exact Hh.
  - destruct (last_ok (firstn j c)) eqn:Hlast; [reflexivity|]. exfalso.
    unfold last_ok in Hlast. apply rev_nonempty in Hpre.
    destruct (rev (firstn j c)) as [|w rp] eqn:Erev; [congruence|].
    cbn [head_ok] in Hlast. apply negb_false_iff in Hlast.
    apply (f_equal (@rev ascii)) in Erev. rewrite rev_involutive in Erev. cbn [rev] in Erev.
    assert (Hlen : List.length (firstn j c) = j) by (apply firstn_length_le; exact Hj).
    rewrite Erev, length_app in Hlen. cbn [List.length] in Hlen.
    assert (Hsk : skipn (List.length (rev rp)) c = (w :: ws) ++ tok).
    { rewrite Hc, Erev, <- app_assoc, skipn_app, skipn_all, Nat.sub_diag. reflexivity. }
    destruct (page_match_matches (List.length (rev rp)) (w :: ws) tok) as [mo' Hmo'];
      auto; try congruence.
    { cbn [forallb]. rewrite Hlast. exact Hws2. }
    rewrite <- Hsk, Hmin in Hmo' by lia. discriminate.
Qed.

Lemma last_char_class (p q : ascii -> bool) xs :
  xs <> [] -> forallb p xs = true -> forallb q xs = true ->
  exists x, p x = true /\ q x = true.
Proof.
  destruct xs as [|x xs]; [congruence|]. cbn [forallb]. intros _ Hp Hq.
  apply andb_true_iff in Hp as [Hp _]. apply andb_true_iff in Hq as [Hq _]. eauto.
Qed.

(** A content that is a title, white space and a digit run: the page
    pattern finds the digit run as the token and the title before it. *)
Lemma page_match_digits pre ws ds :
  head_ok pre = true -> last_ok pre = true ->
  ws <> [] -> forallb isspace_char ws = true ->
  ds <> [] -> forallb isdecimal_char ds = true ->
  exists mo,
    re_search re_page_match (pre ++ ws ++ ds) = Some mo /\
    firstn (m_start mo) (pre ++ ws ++ ds) = pre /\
    group (pre ++ ws ++ ds) mo 1 = ds.
Proof.
  intros Hph Hpl Hw1 Hw2 Hd1 Hd2.
  assert (Hh : head_ok (pre ++ ws ++ ds) = true)
    by (rewrite head_ok_app; auto using head_ok_nonempty).
  assert (Hl : last_ok (pre ++ ws ++ ds) = true)
    by (rewrite app_assoc, last_ok_app; auto using last_ok_digits).
  destruct (page_match_matches (List.length pre) ws ds) as [mo0 Hmo0]; auto.
  destruct (search_from_some re_page_match (pre ++ ws ++ ds) 0 (List.length pre) mo0)
    as [mo Hmo].
  { rewrite length_app. lia. }
  { rewrite skipn_app, skipn_all, Nat.sub_diag. exact Hmo0. }
  fold (re_search re_page_match (pre ++ ws ++ ds)) in Hmo. exists mo.
  split; [exact Hmo|].
  destruct (page_match_shape_tight _ mo Hh Hl Hmo)
    as (pre' & ws' & tok' & Hc' & _ & Hpl' & Hw1' & Hw2' & Ht1' & Ht2' & -> & ->).
  assert (Htok : forallb isdecimal_char tok' = true).
  { destruct Ht2' as [Hd | Hr]; [exact Hd|]. exfalso.
    (* the last character of the content is a digit and a Roman capital *)
    apply (f_equal (@rev ascii)) in Hc'. rewrite !rev_app_distr in Hc'.
    apply rev_nonempty in Hd1, Ht1'. rewrite <- forallb_rev in Hd2, Hr.
    destruct (rev ds) as [|d rd]; [congruence|].
    destruct (rev tok') as [|r rt]; [congruence|].
    cbn [app] in Hc'. injection Hc' as -> _.
    cbn [forallb] in Hd2, Hr. apply andb_true_iff in Hd2 as [Hd _].
    apply andb_true_iff in Hr as [Hr _].
    pose proof (roman_not_digit _ Hr) as Hn.
    rewrite (decimal_is_digit _ Hd) in Hn. discriminate. }
  destruct (split_page_unique pre ws ds pre' ws' tok' Hc') as [<- <-]; auto.
Qed.

(** The title and the page of such a content. *)
Lemma split_title_page_token pre ws ds last :
  head_ok pre = true -> last_ok pre = true ->
  ws <> [] -> forallb isspace_char ws = true ->
  ds <> [] -> forallb isdecimal_char ds = true ->
  split_title_page (pre ++ ws ++ ds) last
  = match convert_to_number ds with
    | Some page_number => Some (pre, page_number, page_number)
    | None => None
    end.
Proof.
  intros Hph Hpl Hw1 Hw2 Hd1 Hd2.
  destruct (page_match_digits pre ws ds) as (mo & Hmo & Hf & Hg); auto.
  unfold split_title_page. rewrite Hmo, Hf, Hg, (strip_tight pre Hph Hpl).
  reflexivity.
Qed.

Lemma convert_decimal ds :
  ds <> [] -> forallb isdecimal_char ds = true ->
  (Z.of_nat (List.length ds) <= int_max_str_digits)%Z ->
  convert_to_number ds = Some (decimal_value ds).
Proof.
  intros Hd1 Hd2 Hlen. unfold convert_to_number.
  rewrite (decimal_token_isdigit ds Hd1 Hd2). destruct ds as [|d ds]; [congruence|].
  unfold int. rewrite Hd2. apply Z.leb_le in Hlen. rewrite Hlen, int_decimal_value.
  reflexivity.
Qed.

Lemma split_title_page_digits pre ws ds last :
  head_ok pre = true -> last_ok pre = true ->
  ws <> [] -> forallb isspace_char ws = true ->
  ds <> [] -> forallb isdecimal_char ds = true ->
  (Z.of_nat (List.length ds) <= int_max_str_digits)%Z ->
  split_title_page (pre ++ ws ++ ds) last
  = Some (pre, decimal_value ds, decimal_value ds).
Proof.
  intros Hph Hpl Hw1 Hw2 Hd1 Hd2 Hlen.
  rewrite split_title_page_token, convert_decimal; auto.
Qed.

(** ** What beautify_outline keeps *)

Lemma indent_of_beautify_line line :
  is_blank line = false ->
  indent_of (beautify_line line) = indent_of line / 4 * 4 /\
  lstrip (beautify_line line) = beautify_content (strip line).
Proof.
  intros Hb. destruct (strip_decomp line Hb) as (_ & _ & _ & _ & _ & Hh & Hl & _).
  destruct (beautify_content_fixed _ Hh Hl) as (Hh' & _).
  unfold beautify_line. rewrite str_mul_spaces. split.
  - rewrite indent_of_frame by auto using forallb_repeat_space. apply repeat_length.
  - rewrite lstrip_spaces by apply forallb_repeat_space. apply lstrip_head_ok. exact Hh'.
Qed.

Lemma in_beautified_from lines : forall last f,
  In f (beautified_from last lines) ->
  f = [] \/ exists l, In l lines /\ is_blank l = false /\ f = beautify_line l.
Proof.
  induction lines as [|l lines IH]; intros last f Hin; [destruct Hin|].
  cbn [beautified_from] in Hin. destruct (is_blank l) eqn:Hb.
  - destruct (IH _ _ Hin) as [E | (l' & Hl' & Hb' & E)]; [left; exact E|].
    right. exists l'. split; [right; exact Hl'|auto].
  - apply in_app_iff in Hin as [Hin | [Hin | Hin]].
    + destruct (Nat.eqb (indent_of l / 4) 0 && negb (Z.eqb last (-1))); [|destruct Hin].
      destruct Hin as [<- | []]. left. reflexivity.
    + right. exists l. split; [left; reflexivity|auto].
    + destruct (IH _ _ Hin) as [E | (l' & Hl' & Hb' & E)]; [left; exact E|].
      right. exists l'. split; [right; exact Hl'|auto].
Qed.

Lemma splitlines_beautified T :
  splitlines (join [LF] (beautified_from (-1) (splitlines T)))
  = beautified_from (-1) (splitlines T).
Proof.
  apply splitlines_join, good_lines_beautified.
  apply (splitlines_no_break (List.length T)). lia.
Qed.

(** X7: every non-blank line of the text that [beautify_outline] returns
    is indented by a multiple of 4. *)
Theorem beautified_indentation (T line : str)
  (Hin : In line (splitlines (beautify_outline T)))
  (Hnb : is_blank line = false) :
  indent_of line mod 4 = 0.
Proof.
  rewrite beautify_outline_unfold in Hin. destruct (is_beautified T) eqn:E.
  - unfold is_beautified in E. cbn zeta in E.
    destruct (splitlines T) as [|l ls] eqn:El; [discriminate|]. rewrite <- El in *.
    rewrite is_beautified_loop_spec in E
      by (apply (splitlines_no_break (List.length T)); lia).
    rewrite forallb_forall in E. specialize (E line Hin). rewrite Hnb in E.
    cbn [orb] in E. unfold canonical_line in E. apply andb_true_iff in E as [E _].
    apply Nat.eqb_eq. exact E.
  - rewrite splitlines_beautified in Hin.
    apply in_beautified_from in Hin as [-> | (l & _ & Hb & ->)]; [discriminate|].
    destruct (indent_of_beautify_line l Hb) as [-> _]. apply Nat.Div0.mod_mul.
Qed.

Lemma beautified_indentation_witness :
  In (py "    ef 1")
     (splitlines (beautify_outline (text_of_lines ["  ab   42"; "      ef 1"]%string))) /\
  is_blank (py "    ef 1") = false /\
  indent_of (py "    ef 1") mod 4 = 0.
Proof.
  assert (Hin : In (py "    ef 1")
            (splitlines (beautify_outline (text_of_lines ["  ab   42"; "      ef 1"]%string))))
    by (right; left; reflexivity).
  split; [exact Hin|]. split; [reflexivity|].
  exact (beautified_indentation _ _ Hin eq_refl).
Defined.

Lemma filter_beautified lines : forall last,
  filter (fun line => negb (is_blank line)) (beautified_from last lines)
  = map beautify_line (filter (fun line => negb (is_blank line)) lines).
Proof.
  induction lines as [|l lines IH]; intros last; [reflexivity|].
  cbn [beautified_from filter]. destruct (is_blank l) eqn:Hb; cbn [negb]; [apply IH|].
  destruct (beautify_line_fixed l Hb) as (Hb' & _).
  rewrite filter_app. cbn [filter map]. rewrite Hb', IH. cbn [negb].
  destruct (Nat.eqb (indent_of l / 4) 0 && negb (Z.eqb last (-1))); reflexivity.
Qed.

Lemma lstrip_no_trailing line :
  is_blank line = false -> rstrip line = line -> lstrip line = strip line.
Proof.
  intros Hb Hr.
  destruct (strip_decomp line Hb) as (ws1 & ws2 & Hline & Hw1 & Hw2 & Hh & Hl & Hls).
  rewrite Hls. rewrite Hline in Hr at 1.
  rewrite !app_assoc, rstrip_spaces in Hr by exact Hw2.
  rewrite rstrip_last_ok in Hr
    by (rewrite last_ok_app; [exact Hl|apply head_ok_nonempty; exact Hh]).
  rewrite Hline in Hr at 2. rewrite app_assoc in Hr.
  rewrite <- (app_nil_r (ws1 ++ strip line)) in Hr at 1.
  apply app_inv_head in Hr. rewrite <- Hr. apply app_nil_r.
Qed.

(** The rebuilt content has the title and the page of the content. *)
Lemma split_title_page_beautified c last :
  head_ok c = true -> last_ok c = true ->
  split_title_page (beautify_content c) last = split_title_page c last.
Proof.
  intros Hh Hl. unfold beautify_content, re_split1. rewrite (strip_tight c Hh Hl).
  destruct (re_search re_split_page c) as [mo|] eqn:E; [|reflexivity].
  destruct (split_page_shape c mo Hh Hl E)
    as (pre & ws & ds & Hc & Hph & Hpl & Hw1 & Hw2 & Hd1 & Hd2 & -> & -> & _).
  cbv beta iota zeta. rewrite (rstrip_last_ok pre Hpl).
  transitivity (split_title_page (pre ++ ws ++ ds) last); [|rewrite <- Hc; reflexivity].
  rewrite !split_title_page_token; auto; discriminate.
Qed.

Lemma parse_step_beautified st line :
  is_blank line = false -> rstrip line = line ->
  parse_step st (beautify_line line) = parse_step st line.
Proof.
  intros Hb Hr. destruct (beautify_line_fixed line Hb) as (Hb' & Hind & _).
  destruct (indent_of_beautify_line line Hb) as [_ Hls].
  destruct (strip_decomp line Hb) as (_ & _ & _ & _ & _ & Hh & Hl & _).
  unfold parse_step. rewrite Hb, Hb', Hind, Hls, (lstrip_no_trailing _ Hb Hr).
  rewrite (split_title_page_beautified _ _ Hh Hl). reflexivity.
Qed.

Lemma parse_loop_beautified lines : forall st,
  Forall (fun l => is_blank l = false /\ rstrip l = l) lines ->
  parse_loop st (map beautify_line lines) = parse_loop st lines.
Proof.
  induction lines as [|l lines IH]; intros st H; [reflexivity|].
  inversion H as [|? ? [Hb Hr] H']; subst. cbn [map parse_loop].
  rewrite (parse_step_beautified st l Hb Hr).
  destruct (parse_step st l); [apply IH; exact H'|reflexivity].
Qed.

(** X8: beautifying a text whose lines have no trailing white space does
    not change the forest that [parse_clean_outline] builds from it. *)
Theorem beautify_keeps_the_forest (T : str)
  (H : forall line, In line (splitlines T) -> rstrip line = line) :
  parse_clean_outline (beautify_outline T) = parse_clean_outline T.
Proof.
  rewrite beautify_outline_unfold. destruct (is_beautified T); [reflexivity|].
  unfold parse_clean_outline, clean_lines_of.
  rewrite splitlines_beautified, filter_beautified, parse_loop_beautified; [reflexivity|].
  apply Forall_forall. intros l Hl. apply filter_In in Hl as [Hin Hb].
  apply negb_true_iff in Hb. auto.
Qed.

Lemma beautify_keeps_the_forest_witness :
  (forall line,
     In line (splitlines (text_of_lines ["  Part   I"; "      ef    12"]%string)) ->
     rstrip line = line) /\
  parse_clean_outline
    (beautify_outline (text_of_lines ["  Part   I"; "      ef    12"]%string))
  = Some [Node (py "Part") 0 1 [Node (py "ef") 1 12 []]].
Proof.
  assert (H : forall line,
            In line (splitlines (text_of_lines ["  Part   I"; "      ef    12"]%string)) ->
            rstrip line = line)
    by (intros line [<- | [<- | []]]; reflexivity).
  split; [exact H|].
  rewrite (beautify_keeps_the_forest _ H). reflexivity.
Defined.

(** ** convert_json_to_text and back *)

Lemma uint_chars_decimal d : forallb isdecimal_char (uint_chars d) = true.
Proof. induction d; cbn [uint_chars forallb]; try rewrite IHd; reflexivity. Qed.

Lemma uint_chars_fold d : forall acc,
  fold_left (fun a c => a * 10 + digit_value c)%Z (uint_chars d) (Z.of_nat acc)
  = Z.of_nat (Nat.of_uint_acc d acc).
Proof.
  induction d; intros acc; cbn [uint_chars fold_left Nat.of_uint_acc];
    [reflexivity|..]; rewrite <- IHd; f_equal; rewrite Nat.tail_mul_spec;
    unfold digit_value; cbn [ord N_of_ascii N_of_digits]; lia.
Qed.

Lemma uint_chars_value n :
  decimal_value (uint_chars (Nat.to_uint n)) = Z.of_nat n.
Proof.
  pose proof (uint_chars_fold (Nat.to_uint n) 0) as H.
  change (Nat.of_uint_acc (Nat.to_uint n) 0) with (Nat.of_uint (Nat.to_uint n)) in H.
  rewrite DecimalNat.Unsigned.of_to in H. rewrite int_decimal_value in H.
  change (Z.of_nat 0) with 0%Z in H. lia.
Qed.

Lemma uint_chars_nonempty n : uint_chars (Nat.to_uint n) <> [].
Proof.
  intros E. assert (Hnil : Nat.to_uint n = Decimal.Nil)
    by (destruct (Nat.to_uint n); [reflexivity|discriminate..]).
  pose proof (DecimalNat.Unsigned.of_to n) as H. rewrite Hnil in H. cbn in H.
  subst n. discriminate.
Qed.

(** The numeral of a page that is not negative: a run of decimal digits
    that reads as the page. *)
Lemma decimal_numeral_digits p :
  (0 <= p)%Z ->
  decimal_numeral p <> [] /\ forallb isdecimal_char (decimal_numeral p) = true /\
  decimal_value (decimal_numeral p) = p.
Proof.
  intros Hp. unfold decimal_numeral.
  replace (Z.ltb p 0) with false by (symmetry; apply Z.ltb_ge; exact Hp).
  split; [apply uint_chars_nonempty|]. split; [apply uint_chars_decimal|].
  rewrite uint_chars_value. lia.
Qed.

Lemma str_mul_indent d : str_mul (py "    ") d = repeat SPACE (d * 4).
Proof.
  unfold str_mul. induction d as [|d IH]; [reflexivity|].
  cbn [repeat List.concat]. rewrite IH. reflexivity.
Qed.

Lemma printable_length p :
  (0 <= p)%Z -> printable p = true ->
  (Z.of_nat (List.length (decimal_numeral p)) <= int_max_str_digits)%Z.
Proof.
  intros Hp H. unfold printable in H. rewrite Z.abs_eq in H by exact Hp.
  apply Z.leb_le. exact H.
Qed.

Lemma str_of_int_printable p : printable p = true -> str_of_int p = Some (decimal_numeral p).
Proof. intros H. unfold str_of_int. rewrite H. reflexivity. Qed.

Lemma str_of_int_raises p : printable p = false -> str_of_int p = None.
Proof. intros H. unfold str_of_int. rewrite H. reflexivity. Qed.

(** The line of an entry is parsed back into the entry. *)
Lemma entry_line_parsed depth t p last :
  head_ok t = true -> last_ok t = true -> (0 <= p)%Z -> printable p = true ->
  is_blank (entry_line depth t p) = false /\
  indent_of (entry_line depth t p) / 4 = depth /\
  split_title_page (lstrip (entry_line depth t p)) last = Some (t, p, p).
Proof.
  intros Hh Hl Hp Hpr. destruct (decimal_numeral_digits p Hp) as (Hne & Hd & Hv).
  pose proof (printable_length p Hp Hpr) as Hlen.
  unfold entry_line. rewrite str_mul_indent.
  assert (Hch : head_ok (t ++ py " " ++ decimal_numeral p) = true)
    by (rewrite head_ok_app; auto using head_ok_nonempty).
  assert (Hcl : last_ok (t ++ py " " ++ decimal_numeral p) = true)
    by (rewrite app_assoc, last_ok_app; auto using last_ok_digits).
  split; [apply is_blank_frame; auto using forallb_repeat_space|]. split.
  - rewrite indent_of_frame by auto using forallb_repeat_space.
    rewrite repeat_length. apply Nat.div_mul. lia.
  - rewrite lstrip_spaces by apply forallb_repeat_space.
    rewrite (lstrip_head_ok _ Hch).
    rewrite split_title_page_digits; auto; [rewrite Hv; reflexivity|discriminate].
Qed.

Lemma no_break_entry_line depth t p :
  no_break t = true -> (0 <= p)%Z -> no_break (entry_line depth t p) = true.
Proof.
  intros Ht Hp. destruct (decimal_numeral_digits p Hp) as (_ & Hd & _).
  unfold entry_line. rewrite str_mul_indent, !no_break_app, no_break_repeat_space, Ht.
  cbn [andb]. unfold no_break. apply forallb_forall. intros x Hx.
  rewrite forallb_forall in Hd. specialize (Hd x Hx).
  destruct (is_linebreak x) eqn:E; [|reflexivity].
  apply linebreak_is_space in E. rewrite (decimal_not_space _ Hd) in E. discriminate.
Qed.

Lemma exportable_node_eq depth t l p cs :
  exportable_node depth (Node t l p cs) <->
  t <> [] /\ head_ok t = true /\ last_ok t = true /\ no_break t = true /\
  l = Z.of_nat depth /\ (0 <= p)%Z /\ printable p = true /\ exportable (S depth) cs.
Proof.
  cbn [exportable_node].
  assert (H : (fix all (cs : list node) : Prop :=
                 match cs with
                 | [] => True
                 | c :: cs' => exportable_node (S depth) c /\ all cs'
                 end) cs <-> exportable (S depth) cs).
  { unfold exportable. induction cs as [|c cs IH]; split; intros H.
    - constructor.
    - exact I.
    - destruct H as [Hc Hcs]. constructor; [exact Hc|apply IH; exact Hcs].
    - inversion H; subst. split; [assumption|apply IH; assumption]. }
  rewrite H. reflexivity.
Qed.

Lemma node_lines_eq depth t l p cs :
  node_lines depth (Node t l p cs) = entry_line depth t p :: forest_lines (S depth) cs.
Proof.
  cbn [node_lines]. f_equal.
  induction cs as [|c cs IH]; [reflexivity|].
  cbn [forest_lines]. rewrite <- IH. reflexivity.
Qed.

Lemma terminated_app a b : terminated (a ++ b) = terminated a ++ terminated b.
Proof. unfold terminated. rewrite map_app, concat_app. reflexivity. Qed.

Lemma all_printable_cons n f :
  all_printable (n :: f) = all_printable [n] && all_printable f.
Proof.
  unfold all_printable, forest_preorder. cbn [flat_map].
  rewrite app_nil_r, forallb_app. reflexivity.
Qed.

Lemma all_printable_node t l p cs :
  all_printable [Node t l p cs] = printable p && all_printable cs.
Proof.
  unfold all_printable, forest_preorder. cbn [flat_map preorder].
  rewrite app_nil_r. reflexivity.
Qed.

Lemma json_item_text_eq level t l p cs :
  json_item_text level (Node t l p cs)
  = let* page_text := str_of_int p in
    let* below := convert_json_to_text cs (S level) in
    Some ((str_mul (py "    ") level ++ t ++ py " " ++ page_text ++ [LF]) ++ below).
Proof.
  cbn [json_item_text]. cbv zeta.
  replace ((fix items (cs0 : list node) : option str :=
              match cs0 with
              | [] => Some []
              | c :: cs' =>
                  let* text := json_item_text (S level) c in
                  let* rest := items cs' in Some (text ++ rest)
              end) cs)
    with (convert_json_to_text cs (S level)); [reflexivity|].
  induction cs as [|c cs IH]; [reflexivity|].
  cbn [convert_json_to_text]. rewrite IH. reflexivity.
Qed.

(** The text of a forest is written when every page can be written, and is
    then the lines of the forest, each followed by LF; otherwise [str]
    raises. *)
Lemma json_text_lines n : forall level,
  json_item_text level n
  = if all_printable [n] then Some (terminated (node_lines level n)) else None.
Proof.
  induction n as [t l p cs IH] using node_induction. intros level.
  rewrite json_item_text_eq, node_lines_eq, all_printable_node.
  assert (Hcs : convert_json_to_text cs (S level)
                = if all_printable cs
                  then Some (terminated (forest_lines (S level) cs)) else None).
  { induction IH as [|c cs Hc _ IHcs]; [reflexivity|].
    cbn [convert_json_to_text forest_lines].
    rewrite Hc, IHcs, (all_printable_cons c cs), terminated_app.
    destruct (all_printable [c]), (all_printable cs); reflexivity. }
  rewrite Hcs. unfold str_of_int.
  destruct (printable p), (all_printable cs); try reflexivity.
  cbn [bind andb]. unfold terminated, entry_line. cbn [map List.concat].
  rewrite <- !app_assoc. reflexivity.
Qed.

Lemma convert_json_to_text_lines f level :
  convert_json_to_text f level
  = if all_printable f then Some (terminated (forest_lines level f)) else None.
Proof.
  induction f as [|n f IH]; [reflexivity|].
  cbn [convert_json_to_text forest_lines].
  rewrite json_text_lines, IH, (all_printable_cons n f), terminated_app.
  destruct (all_printable [n]), (all_printable f); reflexivity.
Qed.

Lemma splitlines_terminated ls :
  Forall (fun l => no_break l = true) ls -> splitlines (terminated ls) = ls.
Proof.
  induction 1 as [|l ls Hl _ IH]; [reflexivity|].
  unfold terminated in *. cbn [map List.concat]. rewrite <- app_assoc. cbn [app].
  rewrite splitlines_line_then, IH by exact Hl. reflexivity.
Qed.

Lemma line_entries_cons line lines last t p l' :
  split_title_page (lstrip line) last = Some (t, p, l') ->
  line_entries last (line :: lines)
  = (t, Z.of_nat (indent_of line / 4), p) :: line_entries l' lines.
Proof. intros H. cbn [line_entries]. rewrite H. reflexivity. Qed.

Lemma converted_short line last x :
  split_title_page (lstrip line) last = Some x -> long_token line = false.
Proof.
  intros H. destruct (long_token line) eqn:E; [|reflexivity].
  rewrite (split_title_page_long _ last E) in H. discriminate.
Qed.

(** The lines of an exportable tree: no line boundary inside, none blank,
    none with a long token, and read back as the entries of the tree in
    document order. *)
Lemma node_lines_parsed n : forall depth,
  exportable_node depth n ->
  Forall (fun l => no_break l = true /\ is_blank l = false /\ long_token l = false)
         (node_lines depth n) /\
  forall last rest, exists last',
    line_entries last (node_lines depth n ++ rest)
    = map node_entry (preorder n) ++ line_entries last' rest.
Proof.
  induction n as [t l p cs IH] using node_induction. intros depth Hex.
  apply exportable_node_eq in Hex as (_ & Hh & Hl & Hnb & -> & Hp & Hpr & Hcs).
  rewrite node_lines_eq.
  assert (Hchildren :
    Forall (fun l => no_break l = true /\ is_blank l = false /\ long_token l = false)
           (forest_lines (S depth) cs) /\
    forall last rest, exists last',
      line_entries last (forest_lines (S depth) cs ++ rest)
      = map node_entry (forest_preorder cs) ++ line_entries last' rest).
  { unfold exportable in Hcs. clear Hh Hl Hnb Hp Hpr.
    induction IH as [|c cs Hc _ IHcs].
    - split; [constructor|]. intros last rest. exists last. reflexivity.
    - inversion Hcs as [|? ? Hexc Hexcs]; subst.
      destruct (Hc _ Hexc) as [Hc1 Hc2]. destruct (IHcs Hexcs) as [Hcs1 Hcs2].
      split; [cbn [forest_lines]; apply Forall_app; auto|].
      intros last rest. cbn [forest_lines forest_preorder flat_map].
      destruct (Hc2 last (forest_lines (S depth) cs ++ rest)) as [last1 E1].
      destruct (Hcs2 last1 rest) as [last2 E2].
      exists last2. rewrite <- app_assoc, E1, E2, map_app, <- app_assoc. reflexivity. }
  destruct Hchildren as [Hc1 Hc2].
  destruct (entry_line_parsed depth t p 0 Hh Hl Hp Hpr) as (Hb & _ & Hs0).
  split.
  - constructor; [|exact Hc1]. split; [apply no_break_entry_line; assumption|].
    split; [exact Hb|exact (converted_short _ _ _ Hs0)].
  - intros last rest.
    destruct (entry_line_parsed depth t p last Hh Hl Hp Hpr) as (_ & Hind & Hsplit).
    destruct (Hc2 p rest) as [last' E]. exists last'.
    cbn [app]. rewrite (line_entries_cons _ _ _ _ _ _ Hsplit), Hind, E.
    reflexivity.
Qed.

Lemma forest_lines_parsed f : forall depth,
  exportable depth f ->
  Forall (fun l => no_break l = true /\ is_blank l = false /\ long_token l = false)
         (forest_lines depth f) /\
  forall last, line_entries last (forest_lines depth f)
               = map node_entry (forest_preorder f).
Proof.
  induction f as [|n f IH]; intros depth Hex.
  - split; [constructor|reflexivity].
  - inversion Hex as [|? ? Hn Hf]; subst.
    destruct (node_lines_parsed n depth Hn) as [Hn1 Hn2].
    destruct (IH depth Hf) as [Hf1 Hf2].
    split; [cbn [forest_lines]; apply Forall_app; auto|].
    intros last. cbn [forest_lines forest_preorder flat_map].
    destruct (Hn2 last (forest_lines depth f)) as [last' E].
    rewrite E, Hf2, map_app. reflexivity.
Qed.

Lemma non_increasing_const (l : Z) ls :
  Forall (fun x => x = l) ls -> non_increasing ls.
Proof.
  induction 1 as [|a ls Ha Hls IH]; [exact I|].
  destruct Hls as [|b ls Hb Hls]; [exact I|].
  cbn [non_increasing]. split; [lia|exact IH].
Qed.

Lemma exportable_nested f : forall depth,
  exportable depth f ->
  nested_forest f /\ Forall (fun n => n_level n = Z.of_nat depth) f.
Proof.
  assert (Hnode : forall n depth, exportable_node depth n ->
                    nested_node n /\ n_level n = Z.of_nat depth).
  { induction n as [t l p cs IH] using node_induction. intros depth Hex.
    apply exportable_node_eq in Hex as (_ & _ & _ & _ & -> & _ & _ & Hcs).
    split; [|reflexivity]. apply nested_node_eq.
    assert (Hall : Forall (fun c => nested_node c /\ n_level c = Z.of_nat (S depth)) cs).
    { unfold exportable in Hcs. rewrite Forall_forall in *. intros c Hc.
      apply (IH c Hc). apply Hcs. exact Hc. }
    split; [|split].
    - apply (non_increasing_const (Z.of_nat (S depth))). rewrite Forall_map.
      rewrite Forall_forall in *. intros c Hc. apply (Hall c Hc).
    - rewrite Forall_forall in *. intros c Hc. destruct (Hall c Hc) as [_ ->]. lia.
    - rewrite Forall_forall in *. intros c Hc. apply (Hall c Hc). }
  intros depth Hex. unfold exportable in Hex.
  assert (Hall : Forall (fun n => nested_node n /\ n_level n = Z.of_nat depth) f).
  { rewrite Forall_forall in *. intros n Hn. apply Hnode. apply Hex. exact Hn. }
  split; [split|].
  - apply (non_increasing_const (Z.of_nat depth)). rewrite Forall_map.
    rewrite Forall_forall in *. intros n Hn. apply (Hall n Hn).
  - rewrite Forall_forall in *. intros n Hn. apply (Hall n Hn).
  - rewrite Forall_forall in *. intros n Hn. apply (Hall n Hn).
Qed.

Lemma exportable_printable f : forall depth,
  exportable depth f -> all_printable f = true.
Proof.
  assert (Hnode : forall n depth, exportable_node depth n -> all_printable [n] = true).
  { induction n as [t l p cs IH] using node_induction. intros depth Hex.
    apply exportable_node_eq in Hex as (_ & _ & _ & _ & _ & _ & Hpr & Hcs).
    rewrite all_printable_node, Hpr. cbn [andb]. unfold exportable in Hcs.
    induction IH as [|c cs Hc _ IHcs]; [reflexivity|].
    inversion Hcs; subst. rewrite all_printable_cons, (Hc (S depth)), IHcs by assumption.
    reflexivity. }
  induction f as [|n f IH]; intros depth Hex; [reflexivity|].
  inversion Hex; subst.
  rewrite all_printable_cons, (Hnode n depth), (IH depth) by assumption. reflexivity.
Qed.

(** The text of an exportable forest is written, and is its lines. *)
Lemma json_text_of_exportable forest level :
  exportable level forest ->
  convert_json_to_text forest level = Some (terminated (forest_lines level forest)).
Proof.
  intros H. rewrite convert_json_to_text_lines, (exportable_printable _ _ H).
  reflexivity.
Qed.

(** A text whose non-blank lines are the lines of an exportable forest is
    parsed into the forest. *)
Lemma parse_forest_lines text forest :
  exportable 0 forest -> clean_lines_of text = forest_lines 0 forest ->
  parse_clean_outline text = Some forest.
Proof.
  intros H Hcl.
  destruct (forest_lines_parsed forest 0 H) as [Hlines Hentries].
  destruct (exportable_nested forest 0 H) as [Hn _].
  destruct (parse_clean_outline_nested text) as (forest' & Hp & Hn' & _ & He & _).
  { rewrite Hcl. rewrite Forall_forall in *. intros l Hl. apply (Hlines l Hl). }
  rewrite Hp. f_equal. rewrite Hcl, Hentries in He.
  rewrite <- (outline_of_entries _ forest' Hn' (le_n _)).
  rewrite <- (outline_of_entries _ forest Hn (le_n _)).
  rewrite He. f_equal.
  rewrite <- (length_map node_entry (forest_preorder forest')), He, length_map.
  reflexivity.
Qed.

Ltac check_exportable := repeat constructor; try discriminate; try (cbn; lia).

(** X9: for a forest that the text can carry, [convert_json_to_text]
    writes a text and [parse_clean_outline] reads that text back into the
    forest.  The forest is one in which every title is not empty and free of
    white space at its ends and of line boundaries, no page is negative or
    has more than 4300 digits, and the level of every node is its depth. *)
Theorem json_text_parses_back (forest : list node) (H : exportable 0 forest) :
  exists text,
    convert_json_to_text forest 0 = Some text /\
    parse_clean_outline text = Some forest.
Proof.
  exists (terminated (forest_lines 0 forest)).
  split; [apply json_text_of_exportable; exact H|].
  apply parse_forest_lines; [exact H|].
  destruct (forest_lines_parsed forest 0 H) as [Hlines _].
  unfold clean_lines_of. rewrite splitlines_terminated.
  - apply forallb_filter_id. apply forallb_forall. intros l Hl.
    rewrite Forall_forall in Hlines. destruct (Hlines l Hl) as (_ & -> & _). reflexivity.
  - rewrite Forall_forall in *. intros l Hl. apply (Hlines l Hl).
Qed.

Lemma json_text_parses_back_witness :
  exportable 0 [Node (py "Part I") 0 3 [Node (py "1.1 Start") 1 12 []];
                Node (py "Index") 0 140 []] /\
  exists text,
    convert_json_to_text [Node (py "Part I") 0 3 [Node (py "1.1 Start") 1 12 []];
                          Node (py "Index") 0 140 []] 0
    = Some text /\
    parse_clean_outline text
    = Some [Node (py "Part I") 0 3 [Node (py "1.1 Start") 1 12 []];
            Node (py "Index") 0 140 []].
Proof.
  assert (H : exportable 0 [Node (py "Part I") 0 3 [Node (py "1.1 Start") 1 12 []];
                            Node (py "Index") 0 140 []]).
  { check_exportable. }
  split; [exact H|]. exact (json_text_parses_back _ H).
Defined.

(** ** normalize_outline on lines that all carry a page number *)

Lemma normalize_step_with_page st line :
  has_page_number (strip line) = true ->
  normalize_step st line
  = NormState (flush st) (Some (strip line)) (indent_of line / 4) true.
Proof.
  intros H. unfold normalize_step, is_continuation. rewrite H.
  rewrite andb_false_r. reflexivity.
Qed.

Lemma flush_fold_with_pages lines : forall st,
  Forall (fun l => has_page_number (strip l) = true) lines ->
  flush (fold_left normalize_step lines st) = flush st ++ map own_item lines.
Proof.
  induction lines as [|l lines IH]; intros st H.
  - cbn [fold_left map]. rewrite app_nil_r. reflexivity.
  - inversion H as [|? ? Hl Hlines]; subst. cbn [fold_left map].
    rewrite (IH _ Hlines), (normalize_step_with_page st l Hl).
    unfold flush at 1. cbn [current_item clean_lines current_indent].
    rewrite <- app_assoc. reflexivity.
Qed.

(** X10: when every line of the text that is not blank carries a detected
    page-number token, [normalize_outline] merges nothing: its result is the
    lines, each normalized on its own, joined by LF. *)
Theorem lines_with_pages_are_not_merged (raw : str)
  (H : forall l, In l (normalize_lines raw) -> has_page_number (strip l) = true) :
  normalize_outline raw = join [LF] (map normalized_alone (normalize_lines raw)).
Proof.
  unfold normalize_outline. cbn zeta.
  rewrite flush_fold_with_pages by (apply Forall_forall; exact H).
  cbn [flush norm_init current_item clean_lines app]. rewrite map_map. reflexivity.
Qed.

Lemma lines_with_pages_are_not_merged_witness :
  (forall l, In l (normalize_lines (text_of_lines ["Preface ... IV"; "  Notes (12"]%string)) ->
             has_page_number (strip l) = true) /\
  normalize_outline (text_of_lines ["Preface ... IV"; "  Notes (12"]%string)
  = text_of_lines ["Preface IV"; "Notes 12"]%string.
Proof.
  assert (H : forall l,
            In l (normalize_lines (text_of_lines ["Preface ... IV"; "  Notes (12"]%string)) ->
            has_page_number (strip l) = true)
    by (intros l [<- | [<- | []]]; reflexivity).
  split; [exact H|].
  rewrite (lines_with_pages_are_not_merged _ H). reflexivity.
Defined.

(** ** normalize_outline on the text of convert_json_to_text *)

Lemma last_ok_no_space_suffix x y :
  last_ok (x ++ y) = true -> forallb isspace_char y = true -> y = [].
Proof.
  intros Hl Hy. destruct y as [|a y]; [reflexivity|]. exfalso.
  rewrite last_ok_app in Hl by discriminate. unfold last_ok in Hl.
  rewrite <- forallb_rev in Hy. destruct (rev (a :: y)) as [|b r] eqn:E.
  - apply (f_equal (@List.length ascii)) in E. rewrite length_rev in E. discriminate.
  - cbn [forallb] in Hy. apply andb_true_iff in Hy as [Hb _].
    cbn [head_ok] in Hl. rewrite Hb in Hl. discriminate.
Qed.

Lemma sep_not_decimal c : cls_sep c = true -> isdecimal_char c = false.
Proof.
  unfold cls_sep, one_of. cbn [py list_ascii_of_string existsb].
  rewrite !orb_true_iff, !Ascii.eqb_eq.
  intros [->|[->|[->|H]]]; try reflexivity; discriminate.
Qed.

(** A digit run at the end of a text, after a character that is no digit,
    is determined by the text. *)
Lemma digit_suffix_unique x a ds x' a' ds' :
  x ++ a :: ds = x' ++ a' :: ds' ->
  isdecimal_char a = false -> isdecimal_char a' = false ->
  forallb isdecimal_char ds = true -> forallb isdecimal_char ds' = true ->
  x = x' /\ a = a' /\ ds = ds'.
Proof.
  intros Heq Ha Ha' Hd Hd'.
  apply (f_equal (@rev ascii)) in Heq. rewrite !rev_app_distr in Heq.
  cbn [rev] in Heq. rewrite <- !app_assoc in Heq. cbn [app] in Heq.
  rewrite <- forallb_rev in Hd, Hd'.
  pose proof (f_equal (take_while isdecimal_char) Heq) as Ht.
  pose proof (f_equal (drop_while isdecimal_char) Heq) as Hdr.
  rewrite !take_while_app_stop in Ht by auto.
  rewrite !drop_while_app_stop in Hdr by auto.
  injection Hdr as -> Hx.
  apply (f_equal (@rev ascii)) in Ht, Hx. rewrite !rev_involutive in Ht, Hx. auto.
Qed.

Lemma token_is_decimal x tok y ds :
  x ++ tok = y ++ ds -> tok <> [] -> ds <> [] ->
  forallb isdecimal_char ds = true ->
  forallb cls_d tok = true \/ forallb cls_roman tok = true ->
  forallb isdecimal_char tok = true.
Proof.
  intros Heq Ht Hd Hds [H | Hr]; [exact H|]. exfalso.
  apply (f_equal (@rev ascii)) in Heq. rewrite !rev_app_distr in Heq.
  apply rev_nonempty in Hd, Ht. rewrite <- forallb_rev in Hds, Hr.
  destruct (rev ds) as [|d rd]; [congruence|].
  destruct (rev tok) as [|r rt]; [congruence|].
  cbn [app] in Heq. injection Heq as -> _.
  cbn [forallb] in Hds, Hr. apply andb_true_iff in Hds as [Hd' _].
  apply andb_true_iff in Hr as [Hr _].
  pose proof (roman_not_digit _ Hr) as Hn.
  rewrite (decimal_is_digit _ Hd') in Hn. discriminate.
Qed.

(** What a match of the page-token pattern of the normalizer consists of. *)
Lemma page_token_shape j rest mo :
  match_at re_page_token j rest = Some mo ->
  exists g1 tok ws tail,
    rest = g1 ++ tok ++ ws ++ tail /\
    ((forallb cls_sep g1 = true /\ 3 <= List.length g1) \/
     (exists c, g1 = [c] /\ chr "(" c = true) \/
     (exists w, g1 = [w] /\ isspace_char w = true)) /\
    tok <> [] /\ (forallb cls_d tok = true \/ forallb cls_roman tok = true) /\
    forallb isspace_char ws = true /\ (tail = [] \/ tail = [LF]) /\
    m_start mo = j /\
    m_end mo = j + List.length g1 + List.length tok + List.length ws /\
    span_of (m_caps mo) 2
    = Some (j + List.length g1, j + List.length g1 + List.length tok).
Proof.
  intros H. apply match_at_sound in H as (e & rest' & g & Hm & ->).
  cbn [m_start m_end m_caps]. unfold re_page_token, re_numeral in Hm.
  inv_matches;
    match goal with
    | Ht : forallb _ ?tok = true, Hl : 1 <= List.length ?tok,
      Hw : forallb cls_s ?ws = true, Htail : ?tail = [] \/ _
      |- exists _ _ _ _, ?g1 ++ ?tok ++ ?ws ++ ?tail = _ /\ _ =>
        exists g1, tok, ws, tail
    | Ht : forallb _ ?tok = true, Hl : 1 <= List.length ?tok,
      Hw : forallb cls_s ?ws = true, Htail : ?tail = [] \/ _
      |- exists _ _ _ _, ?c :: ?tok ++ ?ws ++ ?tail = _ /\ _ =>
        exists [c], tok, ws, tail
    end;
    (split; [reflexivity|]);
    (split; [first [left; split; [assumption|assumption]
                   |right; left; eexists; split; [reflexivity|assumption]
                   |right; right; eexists; split; [reflexivity|assumption]]|]);
    (split; [eapply nonempty_length; eassumption|]);
    (split; [first [left; assumption|right; assumption]|]);
    (split; [assumption|]); (split; [assumption|]);
    (split; [reflexivity|]);
    cbn [List.length span_of Nat.eqb]; split; try reflexivity;
    rewrite ?Nat.add_1_r; reflexivity.
Qed.

Lemma snoc_cases (A : Type) (xs : list A) :
  xs <> [] -> exists ys a, xs = ys ++ [a].
Proof.
  intros H. destruct (rev xs) as [|a r] eqn:E.
  - apply (f_equal (@rev A)) in E. rewrite rev_involutive in E. contradiction.
  - exists (rev r), a. apply (f_equal (@rev A)) in E.
    rewrite rev_involutive in E. exact E.
Qed.

Lemma forallb_snoc (p : ascii -> bool) ys a :
  forallb p (ys ++ [a]) = true -> forallb p ys = true /\ p a = true.
Proof.
  rewrite forallb_app. cbn [forallb]. rewrite andb_true_r. apply andb_true_iff.
Qed.

Lemma re_sub_to_end r tmpl c mo :
  search_from r 0 c = Some mo ->
  m_end mo = List.length c -> m_start mo < List.length c ->
  match_at r (List.length c) [] = None ->
  re_sub r tmpl c = firstn (m_start mo) c ++ expand tmpl c mo.
Proof.
  intros Hs He Hlt Hnone. unfold re_sub. cbn [sub_from skipn]. rewrite Hs.
  replace (Nat.eqb (m_end mo) (m_start mo)) with false
    by (symmetry; apply Nat.eqb_neq; lia).
  unfold slice at 1. cbn [skipn]. rewrite Nat.sub_0_r. do 2 f_equal.
  rewrite He. assert (Hsk : skipn (List.length c) c = []) by apply skipn_all.
  destruct (List.length c) as [|n]; [lia|].
  cbn [sub_from]. rewrite Hsk. cbn [search_from]. rewrite Hnone.
  apply app_nil_r.
Qed.

Section TitleAndPage.
Variables (t ds : str).
Hypothesis Hth : head_ok t = true.
Hypothesis Htl : last_ok t = true.
Hypothesis Htsep : cls_sep (last t SPACE) = false.
Hypothesis Hd1 : ds <> [].
Hypothesis Hd2 : forallb isdecimal_char ds = true.

Let c : str := t ++ py " " ++ ds.

Lemma title_page_last_ok : last_ok c = true.
Proof. unfold c. rewrite app_assoc, last_ok_app; auto using last_ok_digits. Qed.

Lemma title_page_length : List.length c = List.length t + 1 + List.length ds.
Proof. unfold c. rewrite !length_app. cbn. lia. Qed.

(** The page-token pattern matches the content at one place only: at the
    space between the title and the digits. *)
Lemma page_token_at_title j mo :
  j <= List.length c ->
  match_at re_page_token j (skipn j c) = Some mo ->
  m_start mo = List.length t /\ m_end mo = List.length c /\ group c mo 2 = ds.
Proof.
  intros Hj Hm.
  destruct (page_token_shape _ _ _ Hm)
    as (g1 & tok & ws & tail & Hskip & Hg1 & Ht1 & Ht2 & Hws & Htail & Hstart & Hend & Hspan).
  assert (Hc : c = firstn j c ++ g1 ++ tok ++ ws ++ tail)
    by (rewrite <- Hskip; symmetry; apply firstn_skipn).
  assert (Hrest : ws ++ tail = []).
  { apply (last_ok_no_space_suffix (firstn j c ++ g1 ++ tok)).
    - rewrite <- !app_assoc, <- Hc. apply title_page_last_ok.
    - rewrite forallb_app, Hws. destruct Htail as [-> | ->]; reflexivity. }
  apply app_eq_nil in Hrest as [-> ->]. rewrite !app_nil_r in Hc, Hskip.
  assert (Hg1' : exists g1' a, g1 = g1' ++ [a] /\ isdecimal_char a = false /\
                   (g1' = [] /\ isspace_char a = true \/
                    g1' = [] /\ chr "(" a = true \/
                    exists g1'' b, g1' = g1'' ++ [b] /\ cls_sep b = true)).
  { destruct Hg1 as [[Hsep Hlen] | [(x & -> & Hx) | (w & -> & Hw)]].
    - destruct (snoc_cases _ g1) as (g1' & a & ->); [destruct g1; cbn in Hlen; [lia|congruence]|].
      apply forallb_snoc in Hsep as [Hsep Ha]. rewrite length_app in Hlen. cbn in Hlen.
      destruct (snoc_cases _ g1') as (g1'' & b & ->);
        [destruct g1'; cbn in Hlen; [lia|congruence]|].
      apply forallb_snoc in Hsep as [_ Hb].
      exists (g1'' ++ [b]), a. split; [reflexivity|]. split; [apply sep_not_decimal; exact Ha|].
      right. right. eauto.
    - exists [], x. split; [reflexivity|]. split; [|auto].
      apply (chr_eq _ _ "("%char eq_refl) in Hx as ->. reflexivity.
    - exists [], w. split; [reflexivity|]. split; [apply space_not_decimal; exact Hw|auto]. }
  destruct Hg1' as (g1' & a & -> & Ha & Hcases).
  assert (Htok : forallb isdecimal_char tok = true).
  { apply (token_is_decimal (firstn j c ++ g1' ++ [a]) tok (t ++ py " ") ds); auto.
    rewrite <- !app_assoc. rewrite <- !app_assoc in Hc. rewrite <- Hc. reflexivity. }
  assert (Heq : (firstn j c ++ g1') ++ a :: tok = t ++ " "%char :: ds).
  { rewrite <- !app_assoc in Hc |- *. cbn [app] in Hc |- *. rewrite <- Hc. reflexivity. }
  destruct (digit_suffix_unique _ _ _ _ _ _ Heq Ha eq_refl Htok Hd2) as (Hpre & -> & ->).
  assert (Hg1nil : g1' = []).
  { destruct Hcases as [[-> _] | [[_ Hp] | (g1'' & b & -> & Hb)]]; [reflexivity| |].
    - apply (chr_eq _ _ "("%char eq_refl) in Hp. discriminate.
    - exfalso. rewrite app_assoc in Hpre. rewrite <- Hpre, last_last in Htsep.
      rewrite Hb in Htsep. discriminate. }
  subst g1'. rewrite app_nil_r in Hpre.
  assert (Hjt : j = List.length t).
  { rewrite <- Hpre. symmetry. apply firstn_length_le. exact Hj. }
  split; [lia|]. split.
  - rewrite Hend, title_page_length. cbn [List.length app]. lia.
  - unfold group. rewrite Hspan. cbn [app List.length].
    replace (j + 1 + List.length ds) with (j + List.length [" "%char] + List.length ds)
      by reflexivity.
    apply slice_at with (rest := []). rewrite app_nil_r. exact Hskip.
Qed.

Lemma page_token_found :
  exists mo, match_at re_page_token (List.length t) (py " " ++ ds) = Some mo.
Proof.
  assert (Hm : matches re_page_token (List.length t) (py " " ++ ds ++ [] ++ []) []
                 (S (List.length t) + List.length ds + 0) []
                 [(2, (S (List.length t), S (List.length t) + List.length ds));
                  (1, (List.length t, S (List.length t)))]).
  { unfold re_page_token, re_numeral. eapply M_Seq.
    - apply M_Grp. apply M_AltR, M_AltR. apply M_Cls. reflexivity.
    - eapply M_Seq.
      + apply M_Grp. apply M_AltL. apply (@M_Rep cls_d 1 ds); [exact Hd2|].
        destruct ds; [congruence|cbn; lia].
      + eapply M_Seq; [apply (@M_Rep cls_s 0 []); [reflexivity|cbn; lia]|].
        apply M_Eol. auto. }
  rewrite !app_nil_r in Hm. apply match_at_complete in Hm. exact Hm.
Qed.

Lemma skipn_title : skipn (List.length t) c = py " " ++ ds.
Proof. unfold c. rewrite skipn_app, skipn_all, Nat.sub_diag. reflexivity. Qed.

Lemma title_has_page_number : has_page_number c = true.
Proof.
  unfold has_page_number. apply found_search_iff.
  destruct page_token_found as [mo Hmo]. exists (List.length t), mo.
  rewrite skipn_title. split; [rewrite title_page_length; lia|exact Hmo].
Qed.

(** The first substitution of [standardize] leaves the content as it is. *)
Lemma sub_page_token_id :
  re_sub re_page_token [Lit (py " "); Ref 2] c = c.
Proof.
  destruct page_token_found as [mo0 Hmo0].
  destruct (search_from_some re_page_token c 0 (List.length t) mo0) as [mo Hmo].
  { rewrite title_page_length. lia. }
  { rewrite skipn_title. exact Hmo0. }
  pose proof Hmo as Hspec. apply search_from_spec in Hspec as (j & Hj & Hm & _).
  cbn [Nat.add] in Hm.
  destruct (page_token_at_title j mo Hj Hm) as (Hstart & Hend & Hgroup).
  rewrite (re_sub_to_end _ _ _ _ Hmo Hend); [|rewrite Hstart, title_page_length; lia|reflexivity].
  rewrite Hstart. unfold expand. cbn [flat_map]. rewrite Hgroup, app_nil_r.
  unfold c at 1. rewrite firstn_app, firstn_all, Nat.sub_diag. cbn [firstn].
  rewrite app_nil_r. reflexivity.
Qed.

(** What a match of the second pattern of [standardize] consists of. *)
Lemma spaced_numeral_shape j rest mo :
  match_at re_spaced_numeral j rest = Some mo ->
  exists ws1 tok ws tail,
    rest = ws1 ++ tok ++ ws ++ tail /\
    ws1 <> [] /\ forallb isspace_char ws1 = true /\
    tok <> [] /\ (forallb cls_d tok = true \/ forallb cls_roman tok = true) /\
    forallb isspace_char ws = true /\ (tail = [] \/ tail = [LF]) /\
    m_start mo = j /\
    m_end mo = j + List.length ws1 + List.length tok + List.length ws /\
    span_of (m_caps mo) 1
    = Some (j + List.length ws1, j + List.length ws1 + List.length tok).
Proof.
  intros H. apply match_at_sound in H as (e & rest' & g & Hm & ->).
  cbn [m_start m_end m_caps]. unfold re_spaced_numeral, re_numeral in Hm.
  inv_matches;
    match goal with
    | Hs : forallb cls_s ?ws1 = true, Hl1 : 1 <= List.length ?ws1,
      Ht : forallb _ ?tok = true, Hl : 1 <= List.length ?tok,
      Hw : forallb cls_s ?ws = true, Htail : ?tail = [] \/ _
      |- exists _ _ _ _, ?ws1 ++ ?tok ++ ?ws ++ ?tail = _ /\ _ =>
        exists ws1, tok, ws, tail
    end;
    (split; [reflexivity|]);
    (split; [eapply nonempty_length; eassumption|]);
    (split; [assumption|]);
    (split; [eapply nonempty_length; eassumption|]);
    (split; [first [left; assumption|right; assumption]|]);
    (split; [assumption|]); (split; [assumption|]);
    (split; [reflexivity|]); split; reflexivity.
Qed.

Lemma spaced_numeral_at_title j mo :
  j <= List.length c ->
  match_at re_spaced_numeral j (skipn j c) = Some mo ->
  m_start mo = List.length t /\ m_end mo = List.length c /\ group c mo 1 = ds.
Proof.
  intros Hj Hm.
  destruct (spaced_numeral_shape _ _ _ Hm)
    as (ws1 & tok & ws & tail & Hskip & Hw1 & Hw2 & Ht1 & Ht2 & Hws & Htail
        & Hstart & Hend & Hspan).
  assert (Hc : c = firstn j c ++ ws1 ++ tok ++ ws ++ tail)
    by (rewrite <- Hskip; symmetry; apply firstn_skipn).
  assert (Hrest : ws ++ tail = []).
  { apply (last_ok_no_space_suffix (firstn j c ++ ws1 ++ tok)).
    - rewrite <- !app_assoc, <- Hc. apply title_page_last_ok.
    - rewrite forallb_app, Hws. destruct Htail as [-> | ->]; reflexivity. }
  apply app_eq_nil in Hrest as [-> ->]. rewrite !app_nil_r in Hc, Hskip.
  assert (Htok : forallb isdecimal_char tok = true).
  { apply (token_is_decimal (firstn j c ++ ws1) tok (t ++ py " ") ds); auto.
    rewrite <- !app_assoc. rewrite <- Hc. reflexivity. }
  destruct (split_page_unique t (py " ") ds (firstn j c) ws1 tok) as [Hpre <-]; auto;
    try discriminate.
  { destruct (last_ok (firstn j c)) eqn:E; [reflexivity|]. exfalso.
    (* the text before the match would end with white space, inside the title *)
    assert (Hne : firstn j c <> []).
    { intros E'. rewrite E' in Hc. cbn [app] in Hc.
      pose proof Hth as Hh. unfold c in Hc.
      assert (Hhc : head_ok (t ++ py " " ++ ds) = true)
        by (rewrite head_ok_app; auto using head_ok_nonempty).
      rewrite Hc in Hhc. destruct ws1 as [|w ws1]; [congruence|].
      cbn [forallb] in Hw2. apply andb_true_iff in Hw2 as [Hw _].
      cbn [app head_ok] in Hhc. rewrite Hw in Hhc. discriminate. }
    destruct (snoc_cases _ _ Hne) as (pre & w & Epre).
    assert (Hw : isspace_char w = true).
    { unfold last_ok in E. rewrite Epre, rev_app_distr in E. cbn [rev app head_ok] in E.
      apply negb_false_iff in E. exact E. }
    destruct (snoc_cases _ ws1 Hw1) as (ws1' & a & ->).
    apply forallb_snoc in Hw2 as [Hw2 Ha].
    assert (Heq : (pre ++ w :: ws1') ++ a :: tok = t ++ " "%char :: ds).
    { change (t ++ " "%char :: ds) with c. rewrite Hc, Epre.
      repeat (rewrite <- app_assoc; cbn [app]). reflexivity. }
    destruct (digit_suffix_unique _ _ _ _ _ _ Heq (space_not_decimal _ Ha) eq_refl Htok Hd2)
      as (Ht & _ & _).
    pose proof Htl as Hl. rewrite <- Ht in Hl.
    apply last_ok_no_space_suffix in Hl; [discriminate|].
    cbn [forallb]. rewrite Hw. exact Hw2. }
  assert (Hjt : j = List.length t).
  { rewrite Hpre. symmetry. apply firstn_length_le. exact Hj. }
  assert (Hws1 : ws1 = py " ").
  { rewrite <- Hpre in Hc. unfold c in Hc. apply app_inv_head in Hc.
    apply (f_equal (@rev ascii)) in Hc. rewrite !rev_app_distr in Hc.
    apply app_inv_head in Hc. apply (f_equal (@rev ascii)) in Hc.
    rewrite !rev_involutive in Hc. symmetry. exact Hc. }
  subst ws1. split; [lia|]. split.
  - rewrite Hend, title_page_length. change (List.length (py " ")) with 1.
    cbn [List.length]. lia.
  - unfold group. rewrite Hspan.
    apply slice_at with (rest := []). rewrite app_nil_r. exact Hskip.
Qed.

Lemma spaced_numeral_found :
  exists mo, match_at re_spaced_numeral (List.length t) (py " " ++ ds) = Some mo.
Proof.
  assert (Hm : matches re_spaced_numeral (List.length t) (py " " ++ ds ++ [] ++ []) []
                 (List.length t + 1 + List.length ds + 0) []
                 [(1, (List.length t + 1, List.length t + 1 + List.length ds))]).
  { unfold re_spaced_numeral, re_numeral. eapply M_Seq.
    - apply (@M_Rep cls_s 1 (py " ")); [reflexivity|cbn; lia].
    - eapply M_Seq.
      + apply M_Grp. apply M_AltL. apply (@M_Rep cls_d 1 ds); [exact Hd2|].
        destruct ds; [congruence|cbn; lia].
      + eapply M_Seq; [apply (@M_Rep cls_s 0 []); [reflexivity|cbn; lia]|].
        apply M_Eol. auto. }
  rewrite !app_nil_r in Hm. apply match_at_complete in Hm. exact Hm.
Qed.

(** The second substitution of [standardize] leaves the content as it is. *)
Lemma sub_spaced_numeral_id :
  re_sub re_spaced_numeral [Lit (py " "); Ref 1] c = c.
Proof.
  destruct spaced_numeral_found as [mo0 Hmo0].
  destruct (search_from_some re_spaced_numeral c 0 (List.length t) mo0) as [mo Hmo].
  { rewrite title_page_length. lia. }
  { rewrite skipn_title. exact Hmo0. }
  pose proof Hmo as Hspec. apply search_from_spec in Hspec as (j & Hj & Hm & _).
  cbn [Nat.add] in Hm.
  destruct (spaced_numeral_at_title j mo Hj Hm) as (Hstart & Hend & Hgroup).
  rewrite (re_sub_to_end _ _ _ _ Hmo Hend); [|rewrite Hstart, title_page_length; lia|reflexivity].
  rewrite Hstart. unfold expand. cbn [flat_map]. rewrite Hgroup, app_nil_r.
  unfold c at 1. rewrite firstn_app, firstn_all, Nat.sub_diag. cbn [firstn].
  rewrite app_nil_r. reflexivity.
Qed.
End TitleAndPage.

Lemma expandtabs_no_tab s : forall col,
  forallb (fun c => negb (Ascii.eqb c TAB)) s = true -> expandtabs_from 4 col s = s.
Proof.
  induction s as [|c s IH]; intros col H; [reflexivity|].
  cbn [forallb] in H. apply andb_true_iff in H as [Hc Hs].
  apply negb_true_iff in Hc. cbn [expandtabs_from]. rewrite Hc.
  destruct (Ascii.eqb c LF || Ascii.eqb c CR); rewrite IH; auto.
Qed.

Lemma str_mul_one_space n : str_mul (py " ") n = repeat SPACE n.
Proof.
  unfold str_mul. induction n as [|n IH]; [reflexivity|].
  cbn [repeat List.concat]. rewrite IH. reflexivity.
Qed.

Lemma decimal_not_tab ds :
  forallb isdecimal_char ds = true ->
  forallb (fun c => negb (Ascii.eqb c TAB)) ds = true.
Proof.
  intros H. apply forallb_forall. intros x Hx. rewrite forallb_forall in H.
  specialize (H x Hx). destruct (Ascii.eqb x TAB) eqn:E; [|reflexivity].
  apply Ascii.eqb_eq in E. subst x. discriminate.
Qed.

(** What the normalizer does with a plain line: nothing. *)
Lemma plain_line_normalized l :
  plain_line l ->
  no_break l = true /\ is_blank l = false /\ l <> [] /\ rstrip l = l /\
  forallb (fun c => negb (Ascii.eqb c TAB)) (l ++ [LF]) = true /\
  has_page_number (strip l) = true /\ normalized_alone l = l.
Proof.
  intros (depth & t & p & -> & Hh & Hl & Hnb & Hplain & Hp & Hpr).
  unfold plain_title in Hplain. apply andb_true_iff in Hplain as [Htab Hsep].
  apply negb_true_iff in Hsep.
  destruct (decimal_numeral_digits p Hp) as (Hd1 & Hd2 & _).
  destruct (entry_line_parsed depth t p 0 Hh Hl Hp Hpr) as (Hb & Hind & _).
  pose proof (title_page_last_ok t (decimal_numeral p) Hd1 Hd2) as Hcl.
  assert (Hch : head_ok (t ++ py " " ++ decimal_numeral p) = true)
    by (rewrite head_ok_app; auto using head_ok_nonempty).
  assert (Hline : entry_line depth t p
                  = repeat SPACE (depth * 4) ++ (t ++ py " " ++ decimal_numeral p) ++ [])
    by (unfold entry_line; rewrite str_mul_indent, app_nil_r; reflexivity).
  assert (Hstrip : strip (entry_line depth t p) = t ++ py " " ++ decimal_numeral p)
    by (rewrite Hline; apply strip_frame; auto using forallb_repeat_space).
  assert (Hindent : indent_of (entry_line depth t p) = depth * 4).
  { rewrite Hline, app_nil_r, indent_of_frame by auto using forallb_repeat_space.
    apply repeat_length. }
  assert (Hown : own_item (entry_line depth t p) = entry_line depth t p).
  { unfold own_item. rewrite Hind, Hstrip. reflexivity. }
  split; [apply no_break_entry_line; assumption|]. split; [exact Hb|].
  split; [|split; [|split; [|split]]].
  - intros E. rewrite E in Hb. discriminate.
  - apply rstrip_last_ok. rewrite Hline, app_nil_r, last_ok_app; [exact Hcl|].
    apply head_ok_nonempty. exact Hch.
  - unfold entry_line. rewrite str_mul_indent, !forallb_app.
    rewrite Htab, (decimal_not_tab _ Hd2). cbn [py list_ascii_of_string forallb].
    rewrite !andb_true_r. clear. induction (depth * 4) as [|n IH]; [reflexivity|exact IH].
  - rewrite Hstrip. apply title_has_page_number; assumption.
  - unfold normalized_alone, standardize. rewrite Hown, Hindent.
    rewrite Hline at 1. rewrite app_nil_r, lstrip_spaces by apply forallb_repeat_space.
    rewrite (lstrip_head_ok _ Hch).
    rewrite sub_page_token_id, sub_spaced_numeral_id by assumption.
    rewrite str_mul_one_space, Hline, app_nil_r. reflexivity.
Qed.

Lemma good_lines_nonempty ls :
  Forall (fun l => no_break l = true /\ l <> []) ls -> good_lines ls.
Proof.
  induction 1 as [|l ls [Hl Hne] _ IH]; [exact I|].
  cbn [good_lines]. split; [exact Hl|]. destruct ls; [exact Hne|exact IH].
Qed.

Lemma filter_all (A : Type) (p : A -> bool) xs :
  Forall (fun x => p x = true) xs -> filter p xs = xs.
Proof.
  induction 1 as [|x xs Hx _ IH]; [reflexivity|]. cbn [filter]. rewrite Hx, IH. reflexivity.
Qed.

Lemma map_id_on (A : Type) (f : A -> A) xs :
  Forall (fun x => f x = x) xs -> map f xs = xs.
Proof.
  induction 1 as [|x xs Hx _ IH]; [reflexivity|]. cbn [map]. rewrite Hx, IH. reflexivity.
Qed.

(** The normalizer takes a text without TAB whose lines are plain lines to
    the same lines joined by LF. *)
Lemma normalize_plain_text text ls :
  Forall plain_line ls ->
  forallb (fun c => negb (Ascii.eqb c TAB)) text = true ->
  splitlines text = ls ->
  normalize_outline text = join [LF] ls.
Proof.
  intros H Htab Hsplit.
  assert (Hall : Forall (fun l =>
            no_break l = true /\ is_blank l = false /\ l <> [] /\ rstrip l = l /\
            forallb (fun c => negb (Ascii.eqb c TAB)) (l ++ [LF]) = true /\
            has_page_number (strip l) = true /\ normalized_alone l = l) ls).
  { rewrite Forall_forall in *. intros l Hl. apply plain_line_normalized. auto. }
  assert (Hlines : normalize_lines text = ls).
  { unfold normalize_lines, expandtabs. rewrite expandtabs_no_tab by exact Htab.
    rewrite Hsplit.
    rewrite filter_all
      by (rewrite Forall_forall in *; intros l Hl;
          destruct (Hall l Hl) as (_ & -> & _); reflexivity).
    apply map_id_on. rewrite Forall_forall in *. intros l Hl. apply (Hall l Hl). }
  unfold normalize_outline. cbn zeta. rewrite Hlines.
  rewrite flush_fold_with_pages
    by (rewrite Forall_forall in *; intros l Hl; apply (Hall l Hl)).
  cbn [flush norm_init current_item clean_lines app]. rewrite map_map.
  f_equal. apply map_id_on. rewrite Forall_forall in *. intros l Hl. apply (Hall l Hl).
Qed.

Lemma normalize_plain_lines ls :
  Forall plain_line ls -> normalize_outline (terminated ls) = join [LF] ls.
Proof.
  intros H. apply normalize_plain_text; [exact H| |].
  - unfold terminated. induction H as [|l ls Hl _ IH]; [reflexivity|].
    cbn [map List.concat]. rewrite forallb_app, IH, andb_true_r.
    apply (plain_line_normalized l Hl).
  - apply splitlines_terminated. rewrite Forall_forall in *. intros l Hl.
    apply (plain_line_normalized l (H l Hl)).
Qed.

Lemma plain_lines_good ls : Forall plain_line ls -> good_lines ls.
Proof.
  intros H. apply good_lines_nonempty. rewrite Forall_forall in *. intros l Hl.
  destruct (plain_line_normalized l (H l Hl)) as (Hnb & _ & Hne & _). auto.
Qed.

Lemma normalize_joined_lines ls :
  Forall plain_line ls -> normalize_outline (join [LF] ls) = join [LF] ls.
Proof.
  intros H. apply normalize_plain_text; [exact H| |].
  - induction H as [|l ls Hl Hls IH]; [reflexivity|].
    destruct (plain_line_normalized l Hl) as (_ & _ & _ & _ & Ht & _).
    rewrite forallb_app in Ht. apply andb_true_iff in Ht as [Ht _].
    destruct ls as [|l' ls']; [exact Ht|].
    change (join [LF] (l :: l' :: ls')) with (l ++ [LF] ++ join [LF] (l' :: ls')).
    rewrite !forallb_app, Ht, IH. reflexivity.
  - apply splitlines_join, plain_lines_good, H.
Qed.

Lemma node_lines_plain n : forall depth,
  exportable_node depth n ->
  (forall m, In m (preorder n) -> plain_title (n_title m) = true) ->
  Forall plain_line (node_lines depth n).
Proof.
  induction n as [t l p cs IH] using node_induction. intros depth Hex Hplain.
  apply exportable_node_eq in Hex as (_ & Hh & Hl & Hnb & _ & Hp & Hpr & Hcs).
  rewrite node_lines_eq. constructor.
  - exists depth, t, p. repeat split; auto.
    apply (Hplain (Node t l p cs)). left. reflexivity.
  - assert (Hsub : forall m, In m (forest_preorder cs) -> plain_title (n_title m) = true)
      by (intros m Hm; apply Hplain; right; exact Hm).
    clear Hplain Hh Hl Hnb Hp. unfold exportable in Hcs.
    induction IH as [|c cs Hc _ IHcs]; [constructor|].
    inversion Hcs; subst. cbn [forest_lines]. apply Forall_app. split.
    + apply Hc; [assumption|]. intros m Hm. apply Hsub.
      cbn [forest_preorder flat_map]. apply in_or_app. left. exact Hm.
    + apply IHcs; [assumption|]. intros m Hm. apply Hsub.
      cbn [forest_preorder flat_map]. apply in_or_app. right. exact Hm.
Qed.

Lemma forest_lines_plain f : forall depth,
  exportable depth f ->
  (forall m, In m (forest_preorder f) -> plain_title (n_title m) = true) ->
  Forall plain_line (forest_lines depth f).
Proof.
  induction f as [|n f IH]; intros depth Hex Hplain; [constructor|].
  inversion Hex; subst. cbn [forest_lines]. apply Forall_app. split.
  - apply node_lines_plain; [assumption|]. intros m Hm. apply Hplain.
    cbn [forest_preorder flat_map]. apply in_or_app. left. exact Hm.
  - apply IH; [assumption|]. intros m Hm. apply Hplain.
    cbn [forest_preorder flat_map]. apply in_or_app. right. exact Hm.
Qed.

(** X11: for a forest that the text can carry and whose titles are plain,
    [convert_json_to_text] writes a text and the import, [parse_outline],
    reads that text back into the forest.  The forest is one in which every
    title is not empty, free of white space at its ends, of line boundaries
    and of TAB, and does not end in a period or a hyphen; no page is
    negative or has more than 4300 digits; and the level of every node is
    its depth. *)
Theorem json_text_imports_back (forest : list node)
  (H : exportable 0 forest)
  (Hplain : forall n, In n (forest_preorder forest) -> plain_title (n_title n) = true) :
  exists text,
    convert_json_to_text forest 0 = Some text /\
    parse_outline text = Some forest.
Proof.
  exists (terminated (forest_lines 0 forest)).
  split; [apply json_text_of_exportable; exact H|].
  pose proof (forest_lines_plain forest 0 H Hplain) as Hlines.
  unfold parse_outline. cbn zeta.
  rewrite (normalize_plain_lines _ Hlines).
  apply parse_forest_lines; [exact H|].
  unfold clean_lines_of. rewrite splitlines_join.
  - apply filter_all. rewrite Forall_forall in *. intros l Hl.
    destruct (plain_line_normalized l (Hlines l Hl)) as (_ & -> & _). reflexivity.
  - apply good_lines_nonempty. rewrite Forall_forall in *. intros l Hl.
    destruct (plain_line_normalized l (Hlines l Hl)) as (Hnb & _ & Hne & _). auto.
Qed.

Lemma json_text_imports_back_witness :
  exportable 0 [Node (py "Part I") 0 3 [Node (py "1.1 Start") 1 12 []];
                Node (py "Index") 0 140 []] /\
  (forall n,
     In n (forest_preorder [Node (py "Part I") 0 3 [Node (py "1.1 Start") 1 12 []];
                            Node (py "Index") 0 140 []]) ->
     plain_title (n_title n) = true) /\
  exists text,
    convert_json_to_text [Node (py "Part I") 0 3 [Node (py "1.1 Start") 1 12 []];
                          Node (py "Index") 0 140 []] 0
    = Some text /\
    parse_outline text
    = Some [Node (py "Part I") 0 3 [Node (py "1.1 Start") 1 12 []];
            Node (py "Index") 0 140 []].
Proof.
  assert (H : exportable 0 [Node (py "Part I") 0 3 [Node (py "1.1 Start") 1 12 []];
                            Node (py "Index") 0 140 []]).
  { check_exportable. }
  assert (Hplain : forall n,
            In n (forest_preorder [Node (py "Part I") 0 3 [Node (py "1.1 Start") 1 12 []];
                                   Node (py "Index") 0 140 []]) ->
            plain_title (n_title n) = true)
    by (intros n [<- | [<- | [<- | []]]]; reflexivity).
  split; [exact H|]. split; [exact Hplain|].
  exact (json_text_imports_back _ H Hplain).
Defined.

(** ** adjust_page_numbers *)

(** What a match of the last-number pattern consists of. *)
Lemma last_number_shape j rest mo :
  match_at re_last_number j rest = Some mo ->
  exists ws1 tok ws tail,
    rest = ws1 ++ tok ++ ws ++ tail /\
    ws1 <> [] /\ forallb isspace_char ws1 = true /\
    tok <> [] /\ forallb isdecimal_char tok = true /\
    forallb isspace_char ws = true /\ (tail = [] \/ tail = [LF]) /\
    m_start mo = j /\
    span_of (m_caps mo) 1 = Some (j, j + List.length ws1) /\
    span_of (m_caps mo) 2
    = Some (j + List.length ws1, j + List.length ws1 + List.length tok) /\
    span_of (m_caps mo) 3
    = Some (j + List.length ws1 + List.length tok,
            j + List.length ws1 + List.length tok + List.length ws).
Proof.
  intros H. apply match_at_sound in H as (e & rest' & g & Hm & ->).
  cbn [m_start m_end m_caps]. unfold re_last_number in Hm.
  inv_matches;
    match goal with
    | Hs : forallb cls_s ?ws1 = true, Hl1 : 1 <= List.length ?ws1,
      Ht : forallb cls_d ?tok = true, Hl : 1 <= List.length ?tok,
      Hw : forallb cls_s ?ws = true, Htail : ?tail = [] \/ _
      |- exists _ _ _ _, ?ws1 ++ ?tok ++ ?ws ++ ?tail = _ /\ _ =>
        exists ws1, tok, ws, tail
    end;
    (split; [reflexivity|]);
    (split; [eapply nonempty_length; eassumption|]);
    (split; [assumption|]);
    (split; [eapply nonempty_length; eassumption|]);
    (split; [assumption|]);
    (split; [assumption|]); (split; [assumption|]);
    (split; [reflexivity|]); cbn [span_of Nat.eqb];
    (split; [reflexivity|split; reflexivity]).
Qed.

Lemma int_digits ds :
  ds <> [] -> forallb isdecimal_char ds = true ->
  (Z.of_nat (List.length ds) <= int_max_str_digits)%Z ->
  int ds = Some (decimal_value ds).
Proof.
  intros Hne Hd Hlen. unfold int. destruct ds as [|d ds']; [congruence|].
  apply Z.leb_le in Hlen. rewrite Hd, Hlen, int_decimal_value. reflexivity.
Qed.

Section LastNumber.
Variables (T ds : str).
Hypothesis HTl : last_ok T = true.
Hypothesis Hd1 : ds <> [].
Hypothesis Hd2 : forallb isdecimal_char ds = true.

Let c : str := T ++ py " " ++ ds.

Lemma line_last_ok : last_ok c = true.
Proof. unfold c. rewrite app_assoc, last_ok_app; auto using last_ok_digits. Qed.

Lemma line_length : List.length c = List.length T + 1 + List.length ds.
Proof. unfold c. rewrite !length_app. cbn. lia. Qed.

Lemma skipn_line : skipn (List.length T) c = py " " ++ ds.
Proof. unfold c. rewrite skipn_app, skipn_all, Nat.sub_diag. reflexivity. Qed.

(** The pattern matches the line at one place only: at the space before
    the digits. *)
Lemma last_number_at j mo :
  j <= List.length c ->
  match_at re_last_number j (skipn j c) = Some mo ->
  m_start mo = List.length T /\
  group c mo 1 = py " " /\ group c mo 2 = ds /\ group c mo 3 = [].
Proof.
  intros Hj Hm.
  destruct (last_number_shape _ _ _ Hm)
    as (ws1 & tok & ws & tail & Hskip & Hw1 & Hw2 & Ht1 & Ht2 & Hws & Htail
        & Hstart & Hs1 & Hs2 & Hs3).
  assert (Hc : c = firstn j c ++ ws1 ++ tok ++ ws ++ tail)
    by (rewrite <- Hskip; symmetry; apply firstn_skipn).
  assert (Hrest : ws ++ tail = []).
  { apply (last_ok_no_space_suffix (firstn j c ++ ws1 ++ tok)).
    - rewrite <- !app_assoc, <- Hc. apply line_last_ok.
    - rewrite forallb_app, Hws. destruct Htail as [-> | ->]; reflexivity. }
  apply app_eq_nil in Hrest as [-> ->]. rewrite !app_nil_r in Hc.
  destruct (snoc_cases _ ws1 Hw1) as (ws1' & a & ->).
  apply forallb_snoc in Hw2 as [Hw2 Ha].
  assert (Heq : (firstn j c ++ ws1') ++ a :: tok = T ++ " "%char :: ds).
  { change (T ++ " "%char :: ds) with c.
    etransitivity; [|symmetry; exact Hc].
    repeat (rewrite <- app_assoc; cbn [app]). reflexivity. }
  destruct (digit_suffix_unique _ _ _ _ _ _ Heq (space_not_decimal _ Ha) eq_refl Ht2 Hd2)
    as (HT & -> & ->).
  assert (Hnil : ws1' = []).
  { apply (last_ok_no_space_suffix (firstn j c)); [rewrite HT; exact HTl|exact Hw2]. }
  subst ws1'. rewrite app_nil_r in HT. cbn [app] in Hskip.
  assert (Hjt : j = List.length T).
  { rewrite <- HT. symmetry. apply firstn_length_le. exact Hj. }
  split; [lia|]. unfold group. rewrite Hs1, Hs2, Hs3. cbn [app List.length].
  split; [|split].
  - replace j with (j + List.length (@nil ascii)) at 1 by (cbn; lia).
    replace (j + 1) with (j + List.length (@nil ascii) + List.length [" "%char])
      by (cbn; lia).
    apply slice_at with (rest := ds ++ []). cbn [app]. exact Hskip.
  - replace (j + 1) with (j + List.length [" "%char]) by reflexivity.
    apply slice_at with (rest := []). exact Hskip.
  - rewrite Nat.add_0_r. unfold slice. rewrite Nat.sub_diag. reflexivity.
Qed.

Lemma last_number_found :
  exists mo, match_at re_last_number (List.length T) (py " " ++ ds) = Some mo.
Proof.
  assert (Hm : matches re_last_number (List.length T) (py " " ++ ds ++ [] ++ []) []
                 (List.length T + 1 + List.length ds + 0) []
                 [(3, (List.length T + 1 + List.length ds,
                       List.length T + 1 + List.length ds + 0));
                  (2, (List.length T + 1, List.length T + 1 + List.length ds));
                  (1, (List.length T, List.length T + 1))]).
  { unfold re_last_number. eapply M_Seq.
    - apply M_Grp. apply (@M_Rep cls_s 1 (py " ")); [reflexivity|cbn; lia].
    - eapply M_Seq.
      + apply M_Grp. apply (@M_Rep cls_d 1 ds); [exact Hd2|].
        destruct ds; [congruence|cbn; lia].
      + eapply M_Seq; [apply M_Grp; apply (@M_Rep cls_s 0 []); [reflexivity|cbn; lia]|].
        apply M_Eol. auto. }
  rewrite !app_nil_r in Hm. apply match_at_complete in Hm. exact Hm.
Qed.

(** The line with its page number moved. *)
Lemma adjust_line_at_page adjustment :
  (Z.of_nat (List.length ds) <= int_max_str_digits)%Z ->
  adjust_line adjustment c
  = let* new_text := str_of_int (Z.max 1 (decimal_value ds + adjustment)) in
    Some (T ++ py " " ++ new_text).
Proof.
  intros Hlen.
  destruct last_number_found as [mo0 Hmo0].
  destruct (search_from_some re_last_number c 0 (List.length T) mo0) as [mo Hmo].
  { rewrite line_length. lia. }
  { rewrite skipn_line. exact Hmo0. }
  pose proof Hmo as Hspec. apply search_from_spec in Hspec as (j & Hj & Hm & _).
  cbn [Nat.add] in Hm.
  destruct (last_number_at j mo Hj Hm) as (Hstart & Hg1 & Hg2 & Hg3).
  unfold adjust_line, re_search.
  rewrite Hmo, Hg1, Hg2, Hg3, (int_digits _ Hd1 Hd2 Hlen).
  cbn [bind]. cbv zeta. rewrite Hstart. unfold c at 1.
  rewrite firstn_app, firstn_all, Nat.sub_diag. cbn [firstn].
  rewrite app_nil_r.
  destruct (str_of_int (Z.max 1 (decimal_value ds + adjustment))); [|reflexivity].
  cbn [bind]. rewrite app_nil_r. reflexivity.
Qed.
End LastNumber.

Lemma adjust_entry_line adjustment depth t p :
  head_ok t = true -> last_ok t = true -> (0 <= p)%Z -> printable p = true ->
  printable (Z.max 1 (p + adjustment)) = true ->
  adjust_line adjustment (entry_line depth t p)
  = Some (entry_line depth t (Z.max 1 (p + adjustment))).
Proof.
  intros Hh Hl Hp Hpr Hpr'. destruct (decimal_numeral_digits p Hp) as (Hd1 & Hd2 & Hv).
  unfold entry_line. rewrite !(app_assoc (str_mul (py "    ") depth) t).
  rewrite adjust_line_at_page, Hv; auto using printable_length.
  - rewrite (str_of_int_printable _ Hpr'). reflexivity.
  - rewrite last_ok_app; [exact Hl|apply head_ok_nonempty; exact Hh].
Qed.

Lemma sequence_of_some (A : Type) (xs : list A) : sequence (map Some xs) = Some xs.
Proof.
  induction xs as [|x xs IH]; [reflexivity|]. cbn [map sequence]. rewrite IH. reflexivity.
Qed.

(** The lines of a shifted forest are the adjusted lines of the forest,
    when the shifted forest is one that the text can carry too. *)
Lemma adjust_node_lines adjustment n : forall depth,
  exportable_node depth n ->
  exportable_node depth (shift_pages adjustment n) ->
  map (adjust_line adjustment) (node_lines depth n)
  = map Some (node_lines depth (shift_pages adjustment n)).
Proof.
  induction n as [t l p cs IH] using node_induction. intros depth Hex Hex'.
  apply exportable_node_eq in Hex as (_ & Hh & Hl & _ & _ & Hp & Hpr & Hcs).
  cbn [shift_pages] in Hex'.
  apply exportable_node_eq in Hex' as (_ & _ & _ & _ & _ & _ & Hpr' & Hcs').
  cbn [shift_pages]. rewrite !node_lines_eq. cbn [map].
  rewrite adjust_entry_line by assumption. f_equal.
  unfold exportable in Hcs, Hcs'. clear Hh Hl Hp Hpr Hpr'.
  induction IH as [|c cs Hc _ IHcs]; [reflexivity|].
  inversion Hcs; subst. cbn [map] in Hcs'. inversion Hcs'; subst.
  cbn [map forest_lines]. rewrite !map_app.
  rewrite Hc by assumption. rewrite IHcs by assumption. reflexivity.
Qed.

Lemma adjust_forest_lines adjustment f : forall depth,
  exportable depth f ->
  exportable depth (map (shift_pages adjustment) f) ->
  map (adjust_line adjustment) (forest_lines depth f)
  = map Some (forest_lines depth (map (shift_pages adjustment) f)).
Proof.
  induction f as [|n f IH]; intros depth Hex Hex'; [reflexivity|].
  inversion Hex; subst. cbn [map] in Hex'. inversion Hex'; subst.
  cbn [map forest_lines]. rewrite !map_app.
  rewrite adjust_node_lines by assumption. rewrite IH by assumption. reflexivity.
Qed.

(** A shifted forest is one that the text can carry when its pages can be
    written. *)
Lemma exportable_node_shift adjustment n : forall depth,
  exportable_node depth n ->
  (forall k, In k (preorder n) -> printable (Z.max 1 (n_page k + adjustment)) = true) ->
  exportable_node depth (shift_pages adjustment n).
Proof.
  induction n as [t l p cs IH] using node_induction. intros depth Hex Hpr'.
  apply exportable_node_eq in Hex as (Hne & Hh & Hl & Hnb & Hlv & Hp & Hpr & Hcs).
  cbn [shift_pages]. apply exportable_node_eq.
  pose proof (Hpr' (Node t l p cs) (or_introl eq_refl)) as Hp'. cbn [n_page] in Hp'.
  repeat (split; [first [assumption|lia]|]).
  assert (Hsub : forall k, In k (forest_preorder cs) ->
                           printable (Z.max 1 (n_page k + adjustment)) = true)
    by (intros k Hk; apply Hpr'; right; exact Hk).
  unfold exportable in *. clear Hne Hh Hl Hnb Hlv Hp Hpr Hp' Hpr'.
  induction IH as [|c cs Hc _ IHcs]; [constructor|].
  inversion Hcs; subst. cbn [map]. constructor.
  - apply Hc; [assumption|]. intros k Hk. apply Hsub. cbn [forest_preorder flat_map].
    apply in_or_app. left. exact Hk.
  - apply IHcs; [assumption|]. intros k Hk. apply Hsub. cbn [forest_preorder flat_map].
    apply in_or_app. right. exact Hk.
Qed.

Lemma exportable_shift adjustment f depth :
  exportable depth f ->
  (forall k, In k (forest_preorder f) ->
             printable (Z.max 1 (n_page k + adjustment)) = true) ->
  exportable depth (map (shift_pages adjustment) f).
Proof.
  unfold exportable. intros H. induction H as [|n f Hn _ IH]; intros Hpr;
    cbn [map]; constructor.
  - apply exportable_node_shift; [exact Hn|]. intros k Hk. apply Hpr.
    cbn [forest_preorder flat_map]. apply in_or_app. left. exact Hk.
  - apply IH. intros k Hk. apply Hpr. cbn [forest_preorder flat_map].
    apply in_or_app. right. exact Hk.
Qed.

(** Shifting keeps the titles, in document order. *)
Lemma shift_titles adjustment n :
  map n_title (preorder (shift_pages adjustment n)) = map n_title (preorder n).
Proof.
  induction n as [t l p cs IH] using node_induction.
  cbn [shift_pages preorder map]. f_equal.
  induction IH as [|c cs Hc _ IHcs]; [reflexivity|].
  cbn [map flat_map]. rewrite !map_app, Hc. f_equal. exact IHcs.
Qed.

Lemma shift_forest_titles adjustment f :
  map n_title (forest_preorder (map (shift_pages adjustment) f))
  = map n_title (forest_preorder f).
Proof.
  unfold forest_preorder. induction f as [|n f IH]; [reflexivity|].
  cbn [map flat_map]. rewrite !map_app, shift_titles, IH. reflexivity.
Qed.

Lemma plain_titles_shift adjustment f :
  (forall n, In n (forest_preorder f) -> plain_title (n_title n) = true) ->
  forall n, In n (forest_preorder (map (shift_pages adjustment) f)) ->
            plain_title (n_title n) = true.
Proof.
  intros H n Hn. apply (in_map n_title) in Hn.
  rewrite shift_forest_titles in Hn. apply in_map_iff in Hn as (n' & <- & Hn').
  apply H. exact Hn'.
Qed.

(** Shifting back. *)
Lemma shift_pages_back a n :
  (0 <= a)%Z -> (forall k, In k (preorder n) -> (1 <= n_page k)%Z) ->
  shift_pages (- a) (shift_pages a n) = n.
Proof.
  intros Ha. induction n as [t l p cs IH] using node_induction. intros Hp.
  cbn [shift_pages]. pose proof (Hp (Node t l p cs) (or_introl eq_refl)) as Hp0.
  cbn [n_page] in Hp0. f_equal; [lia|].
  assert (Hsub : forall k, In k (forest_preorder cs) -> (1 <= n_page k)%Z)
    by (intros k Hk; apply Hp; right; exact Hk).
  clear Hp Hp0. rewrite map_map.
  induction IH as [|c cs Hc _ IHcs]; [reflexivity|]. cbn [map]. f_equal.
  - apply Hc. intros k Hk. apply Hsub. cbn [forest_preorder flat_map].
    apply in_or_app. left. exact Hk.
  - apply IHcs. intros k Hk. apply Hsub. cbn [forest_preorder flat_map].
    apply in_or_app. right. exact Hk.
Qed.

Lemma shift_forest_back a f :
  (0 <= a)%Z -> (forall k, In k (forest_preorder f) -> (1 <= n_page k)%Z) ->
  map (shift_pages (- a)) (map (shift_pages a) f) = f.
Proof.
  intros Ha. induction f as [|n f IH]; intros Hp; [reflexivity|]. cbn [map]. f_equal.
  - apply shift_pages_back; [exact Ha|]. intros k Hk. apply Hp.
    cbn [forest_preorder flat_map]. apply in_or_app. left. exact Hk.
  - apply IH. intros k Hk. apply Hp.
    cbn [forest_preorder flat_map]. apply in_or_app. right. exact Hk.
Qed.

(** *** Texts and their lines *)

Lemma split_lf_no_break l :
  no_break l = true -> split_lf l = [l].
Proof.
  induction l as [|c l IH]; intros H; [reflexivity|].
  cbn [no_break forallb] in H. apply andb_true_iff in H as [Hc Hl].
  cbn [split_lf]. replace (Ascii.eqb c LF) with false.
  - rewrite (IH Hl). reflexivity.
  - symmetry. apply Ascii.eqb_neq. intros ->. discriminate.
Qed.

Lemma split_lf_app_lf l rest :
  no_break l = true -> split_lf (l ++ LF :: rest) = l :: split_lf rest.
Proof.
  induction l as [|c l IH]; intros H; [reflexivity|].
  cbn [no_break forallb] in H. apply andb_true_iff in H as [Hc Hl].
  cbn [app split_lf]. replace (Ascii.eqb c LF) with false.
  - rewrite (IH Hl). reflexivity.
  - symmetry. apply Ascii.eqb_neq. intros ->. discriminate.
Qed.

Lemma split_lf_join ls :
  ls <> [] -> Forall (fun l => no_break l = true) ls -> split_lf (join [LF] ls) = ls.
Proof.
  intros Hne H. induction H as [|l ls Hl Hls IH]; [congruence|].
  destruct ls as [|l' ls']; [apply split_lf_no_break; exact Hl|].
  change (join [LF] (l :: l' :: ls')) with (l ++ LF :: join [LF] (l' :: ls')).
  rewrite split_lf_app_lf by exact Hl. rewrite IH by discriminate. reflexivity.
Qed.

Lemma terminated_join ls : ls <> [] -> terminated ls = join [LF] ls ++ [LF].
Proof.
  unfold terminated. induction ls as [|l ls IH]; intros Hne; [congruence|].
  cbn [map List.concat]. destruct ls as [|l' ls']; [cbn; rewrite app_nil_r; reflexivity|].
  rewrite IH by discriminate.
  change (join [LF] (l :: l' :: ls')) with (l ++ [LF] ++ join [LF] (l' :: ls')).
  rewrite <- !app_assoc. reflexivity.
Qed.

Lemma last_ok_join ls :
  ls <> [] -> Forall (fun l => last_ok l = true) ls -> last_ok (join [LF] ls) = true.
Proof.
  intros Hne H. induction H as [|l ls Hl Hls IH]; [congruence|].
  destruct ls as [|l' ls']; [exact Hl|].
  change (join [LF] (l :: l' :: ls')) with (l ++ [LF] ++ join [LF] (l' :: ls')).
  rewrite app_assoc, last_ok_app; [apply IH; discriminate|].
  intros E. specialize (IH ltac:(discriminate)). rewrite E in IH. discriminate.
Qed.

Lemma head_ok_join l ls : head_ok l = true -> head_ok (join [LF] (l :: ls)) = true.
Proof.
  intros H. destruct ls as [|l' ls']; [exact H|].
  change (join [LF] (l :: l' :: ls')) with (l ++ [LF] ++ join [LF] (l' :: ls')).
  rewrite head_ok_app; [exact H|apply head_ok_nonempty; exact H].
Qed.

Lemma written_line_facts l :
  written_line l -> no_break l = true /\ last_ok l = true.
Proof.
  intros (depth & t & p & -> & Hh & Hl & Hnb & Hp).
  destruct (decimal_numeral_digits p Hp) as (Hd1 & Hd2 & _).
  split; [apply no_break_entry_line; assumption|].
  unfold entry_line. rewrite !app_assoc, last_ok_app; auto using last_ok_digits.
Qed.

Lemma node_lines_written n : forall depth,
  exportable_node depth n -> Forall written_line (node_lines depth n).
Proof.
  induction n as [t l p cs IH] using node_induction. intros depth Hex.
  apply exportable_node_eq in Hex as (_ & Hh & Hl & Hnb & _ & Hp & Hpr & Hcs).
  rewrite node_lines_eq. constructor.
  - exists depth, t, p. repeat split; auto.
  - clear Hh Hl Hnb Hp. unfold exportable in Hcs.
    induction IH as [|c cs Hc _ IHcs]; [constructor|].
    inversion Hcs; subst. cbn [forest_lines]. apply Forall_app. split; auto.
Qed.

Lemma forest_lines_written f : forall depth,
  exportable depth f -> Forall written_line (forest_lines depth f).
Proof.
  induction f as [|n f IH]; intros depth Hex; [constructor|].
  inversion Hex; subst. cbn [forest_lines]. apply Forall_app. split; auto.
  apply node_lines_written. assumption.
Qed.

(** Stripping the text of a forest, or its lines joined by LF, leaves the
    lines joined by LF. *)
Lemma strip_forest_lines forest :
  exportable 0 forest ->
  strip (terminated (forest_lines 0 forest)) = join [LF] (forest_lines 0 forest) /\
  strip (join [LF] (forest_lines 0 forest)) = join [LF] (forest_lines 0 forest).
Proof.
  intros H. pose proof (forest_lines_written forest 0 H) as Hw.
  destruct forest as [|[t l p cs] rest]; [split; reflexivity|].
  assert (Hne : forest_lines 0 (Node t l p cs :: rest) <> [])
    by (cbn [forest_lines]; rewrite node_lines_eq; discriminate).
  assert (Hhead : head_ok (join [LF] (forest_lines 0 (Node t l p cs :: rest))) = true).
  { cbn [forest_lines]. rewrite node_lines_eq. cbn [app]. apply head_ok_join.
    inversion H as [|? ? Hn _]; subst.
    apply exportable_node_eq in Hn as (_ & Hh & _).
    unfold entry_line. cbn [str_mul repeat List.concat app].
    rewrite head_ok_app; [exact Hh|apply head_ok_nonempty; exact Hh]. }
  assert (Hlast : last_ok (join [LF] (forest_lines 0 (Node t l p cs :: rest))) = true).
  { apply last_ok_join; [exact Hne|]. rewrite Forall_forall in *. intros x Hx.
    apply (written_line_facts x (Hw x Hx)). }
  split.
  - rewrite terminated_join by exact Hne.
    apply (strip_frame [] _ [LF]); auto.
  - rewrite <- (app_nil_r (join _ _)) at 1. apply (strip_frame [] _ []); auto.
Qed.

(** The adjusted text of a text that, stripped, is the lines of a forest,
    when the shifted forest is one that the text can carry too. *)
Lemma adjust_text_of_forest text forest amount direction :
  exportable 0 forest ->
  exportable 0 (map (shift_pages (amount * direction)) forest) ->
  strip text = join [LF] (forest_lines 0 forest) ->
  adjust_page_numbers text amount direction
  = Some (join [LF] (forest_lines 0 (map (shift_pages (amount * direction)) forest))).
Proof.
  intros H H' Hstrip. unfold adjust_page_numbers. cbn zeta. rewrite Hstrip.
  destruct forest as [|n rest] eqn:E; [reflexivity|]. rewrite <- E in *.
  assert (Hne : forest_lines 0 forest <> []).
  { rewrite E. destruct n. cbn [forest_lines]. rewrite node_lines_eq. discriminate. }
  rewrite split_lf_join; [|exact Hne|].
  - rewrite adjust_forest_lines by assumption. rewrite sequence_of_some. reflexivity.
  - pose proof (forest_lines_written forest 0 H) as Hw.
    rewrite Forall_forall in *. intros x Hx. apply (written_line_facts x (Hw x Hx)).
Qed.

Lemma parse_outline_forest_lines forest :
  exportable 0 forest ->
  (forall n, In n (forest_preorder forest) -> plain_title (n_title n) = true) ->
  parse_outline (join [LF] (forest_lines 0 forest)) = Some forest.
Proof.
  intros H Hplain. pose proof (forest_lines_plain forest 0 H Hplain) as Hlines.
  unfold parse_outline. cbn zeta. rewrite (normalize_joined_lines _ Hlines).
  apply parse_forest_lines; [exact H|].
  unfold clean_lines_of. rewrite splitlines_join by (apply plain_lines_good, Hlines).
  apply filter_all. rewrite Forall_forall in *. intros l Hl.
  destruct (plain_line_normalized l (Hlines l Hl)) as (_ & -> & _). reflexivity.
Qed.

(** X12: shifting the page numbers in the text of a forest and importing
    the result gives the forest with every page number p replaced by the
    larger of 1 and p + amount * direction; titles, levels and nesting are
    kept.  The forest is one in which every title is not empty, free of
    white space at its ends, of line boundaries and of TAB, and does not end
    in a period or a hyphen; no page is negative or has more than 4300
    digits, before the shift and after it; and the level of every node is
    its depth. *)
Theorem adjusted_text_parses_shifted (forest : list node) (amount direction : Z)
  (H : exportable 0 forest)
  (Hplain : forall n, In n (forest_preorder forest) -> plain_title (n_title n) = true)
  (Hshift : forall n, In n (forest_preorder forest) ->
                      printable (Z.max 1 (n_page n + amount * direction)) = true) :
  exists text adjusted_text,
    convert_json_to_text forest 0 = Some text /\
    adjust_page_numbers text amount direction = Some adjusted_text /\
    parse_outline adjusted_text
    = Some (map (shift_pages (amount * direction)) forest).
Proof.
  pose proof (exportable_shift (amount * direction) forest 0 H Hshift) as H'.
  eexists _, _. split; [apply json_text_of_exportable; exact H|]. split.
  - apply adjust_text_of_forest; [exact H|exact H'|].
    apply strip_forest_lines. exact H.
  - apply parse_outline_forest_lines; [exact H'|].
    apply plain_titles_shift. exact Hplain.
Qed.

Lemma adjusted_text_parses_shifted_witness :
  exportable 0 [Node (py "Part I") 0 3 [Node (py "1.1 Start") 1 12 []];
                Node (py "Index") 0 140 []] /\
  (forall n,
     In n (forest_preorder [Node (py "Part I") 0 3 [Node (py "1.1 Start") 1 12 []];
                            Node (py "Index") 0 140 []]) ->
     plain_title (n_title n) = true) /\
  (forall n,
     In n (forest_preorder [Node (py "Part I") 0 3 [Node (py "1.1 Start") 1 12 []];
                            Node (py "Index") 0 140 []]) ->
     printable (Z.max 1 (n_page n + 5 * -1)) = true) /\
  exists text adjusted_text,
    convert_json_to_text [Node (py "Part I") 0 3 [Node (py "1.1 Start") 1 12 []];
                          Node (py "Index") 0 140 []] 0
    = Some text /\
    adjust_page_numbers text 5 (-1) = Some adjusted_text /\
    parse_outline adjusted_text
    = Some (map (shift_pages (5 * -1))
                [Node (py "Part I") 0 3 [Node (py "1.1 Start") 1 12 []];
                 Node (py "Index") 0 140 []]).
Proof.
  assert (H : exportable 0 [Node (py "Part I") 0 3 [Node (py "1.1 Start") 1 12 []];
                            Node (py "Index") 0 140 []]).
  { check_exportable. }
  assert (Hplain : forall n,
            In n (forest_preorder [Node (py "Part I") 0 3 [Node (py "1.1 Start") 1 12 []];
                                   Node (py "Index") 0 140 []]) ->
            plain_title (n_title n) = true)
    by (intros n [<- | [<- | [<- | []]]]; reflexivity).
  assert (Hshift : forall n,
            In n (forest_preorder [Node (py "Part I") 0 3 [Node (py "1.1 Start") 1 12 []];
                                   Node (py "Index") 0 140 []]) ->
            printable (Z.max 1 (n_page n + 5 * -1)) = true)
    by (intros n [<- | [<- | [<- | []]]]; reflexivity).
  split; [exact H|]. split; [exact Hplain|]. split; [exact Hshift|].
  exact (adjusted_text_parses_shifted _ 5 (-1) H Hplain Hshift).
Defined.

(** X13: a shift of the page numbers is undone by the opposite shift.  For
    the text of a forest that the text can carry (every title not empty and
    free of white space at its ends and of line boundaries, no page negative
    or of more than 4300 digits, every level the depth of its node) whose
    pages are all 1 or more, adjusting by an amount that is not negative and
    leaves every page below the limit of 4300 digits, and then by the same
    amount in the other direction, gives the text back, without the white
    space at its end. *)
Theorem adjustment_undone (forest : list node) (amount direction : Z)
  (H : exportable 0 forest)
  (Hpages : forall n, In n (forest_preorder forest) -> (1 <= n_page n)%Z)
  (Hup : (0 <= amount * direction)%Z)
  (Hshift : forall n, In n (forest_preorder forest) ->
                      printable (Z.max 1 (n_page n + amount * direction)) = true) :
  exists text adjusted_text,
    convert_json_to_text forest 0 = Some text /\
    adjust_page_numbers text amount direction = Some adjusted_text /\
    adjust_page_numbers adjusted_text amount (- direction) = Some (strip text).
Proof.
  pose proof (exportable_shift (amount * direction) forest 0 H Hshift) as H'.
  assert (Hback : map (shift_pages (amount * - direction))
                      (map (shift_pages (amount * direction)) forest) = forest).
  { replace (amount * - direction)%Z with (- (amount * direction))%Z by lia.
    apply shift_forest_back; assumption. }
  eexists _, _. split; [apply json_text_of_exportable; exact H|]. split.
  - apply adjust_text_of_forest; [exact H|exact H'|].
    apply strip_forest_lines. exact H.
  - rewrite (adjust_text_of_forest _ (map (shift_pages (amount * direction)) forest)).
    + rewrite Hback. f_equal. symmetry. apply strip_forest_lines. exact H.
    + exact H'.
    + rewrite Hback. exact H.
    + apply strip_forest_lines. exact H'.
Qed.

Lemma adjustment_undone_witness :
  exportable 0 [Node (py "Part I") 0 3 [Node (py "1.1 Start") 1 12 []];
                Node (py "Index") 0 140 []] /\
  (forall n,
     In n (forest_preorder [Node (py "Part I") 0 3 [Node (py "1.1 Start") 1 12 []];
                            Node (py "Index") 0 140 []]) ->
     (1 <= n_page n)%Z) /\
  (0 <= 7 * 1)%Z /\
  (forall n,
     In n (forest_preorder [Node (py "Part I") 0 3 [Node (py "1.1 Start") 1 12 []];
                            Node (py "Index") 0 140 []]) ->
     printable (Z.max 1 (n_page n + 7 * 1)) = true) /\
  exists text adjusted_text,
    convert_json_to_text [Node (py "Part I") 0 3 [Node (py "1.1 Start") 1 12 []];
                          Node (py "Index") 0 140 []] 0
    = Some text /\
    adjust_page_numbers text 7 1 = Some adjusted_text /\
    adjust_page_numbers adjusted_text 7 (- 1) = Some (strip text).
Proof.
  assert (H : exportable 0 [Node (py "Part I") 0 3 [Node (py "1.1 Start") 1 12 []];
                            Node (py "Index") 0 140 []]).
  { check_exportable. }
  assert (Hpages : forall n,
            In n (forest_preorder [Node (py "Part I") 0 3 [Node (py "1.1 Start") 1 12 []];
                                   Node (py "Index") 0 140 []]) ->
            (1 <= n_page n)%Z)
    by (intros n [<- | [<- | [<- | []]]]; cbn; lia).
  assert (Hup : (0 <= 7 * 1)%Z) by lia.
  assert (Hshift : forall n,
            In n (forest_preorder [Node (py "Part I") 0 3 [Node (py "1.1 Start") 1 12 []];
                                   Node (py "Index") 0 140 []]) ->
            printable (Z.max 1 (n_page n + 7 * 1)) = true)
    by (intros n [<- | [<- | [<- | []]]]; reflexivity).
  split; [exact H|]. split; [exact Hpages|]. split; [exact Hup|]. split; [exact Hshift|].
  exact (adjustment_undone _ 7 1 H Hpages Hup Hshift).
Defined.

(** *** The limit on the digits *)

Lemma decimal_value_bound ds :
  forallb isdecimal_char ds = true ->
  (0 <= decimal_value ds < 10 ^ Z.of_nat (List.length ds))%Z.
Proof.
  induction ds as [|d ds IH]; intros H; [cbn; lia|].
  cbn [forallb] in H. apply andb_true_iff in H as [Hd Hds].
  specialize (IH Hds). cbn [decimal_value List.length].
  rewrite Nat2Z.inj_succ, Z.pow_succ_r by lia.
  assert (Hdv : (0 <= digit_value d <= 9)%Z).
  { unfold isdecimal_char, in_range in Hd. apply andb_true_iff in Hd as [H1 H2].
    apply N.leb_le in H1, H2. unfold digit_value. lia. }
  nia.
Qed.

(** The numeral of a number below a power of ten has no more digits than
    the power says. *)
Lemma numeral_length_bound n k :
  1 <= k -> (Z.of_nat n < 10 ^ Z.of_nat k)%Z ->
  List.length (uint_chars (Nat.to_uint n)) <= k.
Proof.
  intros Hk Hn. pose proof (uint_chars_value n) as Hv.
  assert (Hnorm : Nat.to_uint n = Decimal.unorm (Nat.to_uint n)).
  { rewrite <- (DecimalNat.Unsigned.of_to n) at 1. apply DecimalNat.Unsigned.to_of. }
  assert (Hhead : forall c rest,
            uint_chars (Nat.to_uint n) = c :: rest -> (1 <= digit_value c)%Z ->
            List.length (uint_chars (Nat.to_uint n)) <= k).
  { intros c rest E Hc. rewrite E in Hv |- *. cbn [decimal_value List.length] in *.
    pose proof (uint_chars_decimal (Nat.to_uint n)) as Hd. rewrite E in Hd.
    cbn [forallb] in Hd. apply andb_true_iff in Hd as [_ Hd].
    pose proof (decimal_value_bound rest Hd) as Hb.
    destruct (Nat.le_gt_cases (S (List.length rest)) k) as [Hle | Hgt]; [exact Hle|].
    exfalso.
    assert (Hpow : (10 ^ Z.of_nat k <= 10 ^ Z.of_nat (List.length rest))%Z)
      by (apply Z.pow_le_mono_r; lia).
    nia. }
  destruct (Nat.to_uint n) as [|d|d|d|d|d|d|d|d|d|d] eqn:E;
    try (apply (Hhead _ _ eq_refl); vm_compute; discriminate).
  - cbn in Hnorm. discriminate.
  - unfold Decimal.unorm in Hnorm. cbn [Decimal.nzhead] in Hnorm.
    destruct (Decimal.nzhead d) eqn:En; try discriminate.
    + injection Hnorm as ->. cbn. lia.
    + exfalso. apply (DecimalFacts.nzhead_nonzero d d). rewrite En. symmetry. exact Hnorm.
Qed.

Lemma printable_below p :
  (0 <= p < 10 ^ int_max_str_digits)%Z -> printable p = true.
Proof.
  intros [Hp Hlt]. unfold printable. rewrite Z.abs_eq by exact Hp.
  unfold decimal_numeral.
  replace (Z.ltb p 0) with false by (symmetry; apply Z.ltb_ge; exact Hp).
  apply Z.leb_le.
  pose proof (numeral_length_bound (Z.to_nat p) 4300) as Hb.
  change int_max_str_digits with (Z.of_nat 4300) in *.
  rewrite Z2Nat.id in Hb by exact Hp. apply Nat2Z.inj_le. apply Hb; [lia|exact Hlt].
Qed.

(** A line of no more than 4300 characters is adjusted without an error
    when the adjustment is small enough. *)
Lemma adjust_line_in_range adjustment line :
  (Z.of_nat (List.length line) <= int_max_str_digits)%Z ->
  (adjustment <= 9 * 10 ^ (int_max_str_digits - 1))%Z ->
  exists adjusted, adjust_line adjustment line = Some adjusted.
Proof.
  intros Hlen Hadj. unfold adjust_line, re_search.
  destruct (search_from re_last_number 0 line) as [mo|] eqn:E; [|eauto].
  apply search_from_spec in E as (j & Hj & Hm & _). cbn [Nat.add] in Hm.
  destruct (last_number_shape _ _ _ Hm)
    as (ws1 & tok & ws & tail & Hskip & Hw1 & _ & Ht1 & Ht2 & _ & _ & _ & _ & Hs2 & _).
  cbv zeta. unfold group. rewrite Hs2, (slice_at _ _ _ _ _ Hskip).
  assert (Htok : (Z.of_nat (List.length tok) <= int_max_str_digits - 1)%Z).
  { apply (f_equal (@List.length ascii)) in Hskip.
    rewrite length_skipn, !length_app in Hskip.
    destruct ws1 as [|w ws1]; [congruence|]. cbn [List.length] in Hskip. lia. }
  rewrite (int_digits tok Ht1 Ht2) by lia. cbn [bind].
  pose proof (decimal_value_bound tok Ht2) as [Hv0 Hv1].
  assert (Hpow : (10 ^ Z.of_nat (List.length tok) <= 10 ^ (int_max_str_digits - 1))%Z)
    by (apply Z.pow_le_mono_r; lia).
  assert (Hstep : (10 ^ int_max_str_digits = 10 * 10 ^ (int_max_str_digits - 1))%Z).
  { rewrite <- Z.pow_succ_r by (unfold int_max_str_digits; lia).
    f_equal; unfold int_max_str_digits; lia. }
  rewrite str_of_int_printable; [cbn [bind]; eauto|].
  apply printable_below. lia.
Qed.

Lemma sequence_defined (A B : Type) (f : A -> option B) xs :
  (forall x, In x xs -> exists y, f x = Some y) ->
  exists ys, sequence (map f xs) = Some ys.
Proof.
  induction xs as [|x xs IH]; intros H; [exists []; reflexivity|].
  destruct (H x (or_introl eq_refl)) as [y Hy].
  destruct IH as [ys Hys]; [intros x' Hx'; apply H; right; exact Hx'|].
  exists (y :: ys). cbn [map sequence]. rewrite Hy, Hys. reflexivity.
Qed.

(** X14: adjust_page_numbers raises on no text whose lines have at most
    4300 characters, for an adjustment of at most 9 * 10^4299: [int] is
    applied to the digits of a match only, which are fewer than the limit of
    4300 digits, and the page that [str] writes stays below it. *)
Theorem adjust_page_numbers_in_range (editor_text : str) (amount direction : Z)
  (Hlines : forall line, In line (split_lf (strip editor_text)) ->
                         (Z.of_nat (List.length line) <= int_max_str_digits)%Z)
  (Hadj : (amount * direction <= 9 * 10 ^ (int_max_str_digits - 1))%Z) :
  exists adjusted_text,
    adjust_page_numbers editor_text amount direction = Some adjusted_text.
Proof.
  unfold adjust_page_numbers. cbv zeta.
  destruct (sequence_defined _ _ (adjust_line (amount * direction))
              (split_lf (strip editor_text))) as [ls Hls].
  - intros line Hin. apply adjust_line_in_range; [apply Hlines; exact Hin|exact Hadj].
  - rewrite Hls. cbn [bind]. eauto.
Qed.

Lemma adjust_page_numbers_in_range_witness :
  (forall line,
     In line (split_lf (strip (text_of_lines ["Preface 4"; "    Notes 12"]%string))) ->
     (Z.of_nat (List.length line) <= int_max_str_digits)%Z) /\
  (3 * -1 <= 9 * 10 ^ (int_max_str_digits - 1))%Z /\
  exists adjusted_text,
    adjust_page_numbers (text_of_lines ["Preface 4"; "    Notes 12"]%string) 3 (-1)
    = Some adjusted_text.
Proof.
  assert (Hlines : forall line,
            In line (split_lf (strip (text_of_lines
                                        ["Preface 4"; "    Notes 12"]%string))) ->
            (Z.of_nat (List.length line) <= int_max_str_digits)%Z).
  { intros line Hin. vm_compute in Hin.
    destruct Hin as [<- | [<- | []]]; vm_compute; discriminate. }
  assert (Hadj : (3 * -1 <= 9 * 10 ^ (int_max_str_digits - 1))%Z).
  { apply Z.le_trans with 0%Z; [lia|]. apply Z.mul_nonneg_nonneg; [lia|].
    apply Z.pow_nonneg. lia. }
  split; [exact Hlines|]. split; [exact Hadj|].
  exact (adjust_page_numbers_in_range _ 3 (-1) Hlines Hadj).
Defined.

(** ** The XML form: create_xml_from_outline and convert_xml_to_text *)

Lemma item_children_eq cs : forall parent,
  (fix items (cs : list node) (parent_element : xml_element)
     : option xml_element :=
     match cs with
     | [] => Some parent_element
     | c :: cs' =>
         let* child := item_element c in
         items cs' (with_sub_element parent_element child)
     end) cs parent
  = create_xml_from_outline cs parent.
Proof.
  induction cs as [|c cs IH]; intros parent; [reflexivity|].
  cbn [create_xml_from_outline]. destruct (item_element c); [|reflexivity].
  cbn [bind]. apply IH.
Qed.

Lemma item_element_eq t l p cs :
  item_element (Node t l p cs)
  = let* page_text := str_of_int p in
    create_xml_from_outline
      cs (Element (py "item") [(py "title", t); (py "page", page_text)] []).
Proof.
  cbn [item_element]. cbv zeta. destruct (str_of_int p); [|reflexivity].
  cbn [bind]. apply item_children_eq.
Qed.

(** The elements are made when every page can be written, and are then the
    elements of the items; otherwise [str] raises. *)
Lemma create_xml_from_items cs :
  Forall (fun c => item_element c
                   = if all_printable [c] then Some (element_of c) else None) cs ->
  forall tg a ch,
    create_xml_from_outline cs (Element tg a ch)
    = if all_printable cs then Some (Element tg a (ch ++ map element_of cs)) else None.
Proof.
  induction 1 as [|c cs Hc _ IH]; intros tg a ch.
  - cbn [create_xml_from_outline map]. rewrite app_nil_r. reflexivity.
  - cbn [create_xml_from_outline]. rewrite Hc, (all_printable_cons c cs).
    destruct (all_printable [c]); [|reflexivity].
    cbn [bind andb with_sub_element]. rewrite IH.
    destruct (all_printable cs); [|reflexivity].
    cbn [map]. rewrite <- app_assoc. reflexivity.
Qed.

Lemma item_element_made n :
  item_element n = if all_printable [n] then Some (element_of n) else None.
Proof.
  induction n as [t l p cs IH] using node_induction.
  rewrite item_element_eq, all_printable_node. unfold str_of_int.
  destruct (printable p); [|reflexivity]. cbn [bind andb].
  rewrite (create_xml_from_items cs IH). destruct (all_printable cs); reflexivity.
Qed.

Lemma create_xml_from_outline_eq f tg a ch :
  create_xml_from_outline f (Element tg a ch)
  = if all_printable f then Some (Element tg a (ch ++ map element_of f)) else None.
Proof.
  apply create_xml_from_items. apply Forall_forall. intros c _. apply item_element_made.
Qed.

Lemma convert_xml_to_text_cons tg a e es level :
  convert_xml_to_text (Element tg a (e :: es)) level
  = convert_xml_to_text (Element tg a [e]) level
    ++ convert_xml_to_text (Element tg a es) level.
Proof. cbn [convert_xml_to_text]. rewrite app_nil_r. reflexivity. Qed.

(** The text of the element of an item is the lines of the item. *)
Lemma item_element_text n : forall tg a level,
  convert_xml_to_text (Element tg a [element_of n]) level
  = terminated (node_lines level n).
Proof.
  induction n as [t l p cs IH] using node_induction. intros tg a level.
  rewrite node_lines_eq. unfold terminated. cbn [map List.concat].
  fold (terminated (forest_lines (S level) cs)). unfold entry_line.
  cbn [element_of convert_xml_to_text]. rewrite app_nil_r.
  change (str_eqb (py "item") (py "item")) with true. cbv zeta.
  change (element_get (Element (py "item") [(py "title", t); (py "page", decimal_numeral p)]
                               (map element_of cs)) (py "title") []) with t.
  change (element_get (Element (py "item") [(py "title", t); (py "page", decimal_numeral p)]
                               (map element_of cs)) (py "page") (py "0"))
    with (decimal_numeral p).
  rewrite <- !app_assoc. do 5 f_equal.
  assert (Hcs : forall tg' a',
             convert_xml_to_text (Element tg' a' (map element_of cs)) (S level)
             = terminated (forest_lines (S level) cs)).
  { intros tg' a'. induction IH as [|c cs Hc _ IHcs]; [reflexivity|].
    cbn [map forest_lines].
    rewrite convert_xml_to_text_cons, Hc, IHcs, terminated_app. reflexivity. }
  destruct cs as [|c cs']; [reflexivity|]. exact (Hcs [] []).
Qed.

Lemma item_elements_text f : forall tg a level,
  convert_xml_to_text (Element tg a (map element_of f)) level
  = terminated (forest_lines level f).
Proof.
  induction f as [|n f IH]; intros tg a level; [reflexivity|].
  cbn [map forest_lines].
  rewrite convert_xml_to_text_cons, item_element_text, IH, terminated_app. reflexivity.
Qed.

(** X15: an outline exported to XML elements and converted back to text
    is the text that the JSON import writes for it: under the root element
    outline, create_xml_from_outline followed by convert_xml_to_text gives
    what convert_json_to_text gives, for every forest: the same text, or an
    error in both when a page has too many digits to be written. *)
Theorem xml_text_is_json_text (forest : list node) :
  (let* root := create_xml_from_outline forest (Element (py "outline") [] []) in
   Some (convert_xml_to_text root 0))
  = convert_json_to_text forest 0.
Proof.
  rewrite create_xml_from_outline_eq, convert_json_to_text_lines.
  destruct (all_printable forest); [|reflexivity].
  cbn [bind app]. rewrite item_elements_text. reflexivity.
Qed.

(** ** The tree view: populate_treeview and _build_outline_text *)

(** What a match of the page-label pattern consists of. *)
Lemma page_label_shape j rest mo :
  match_at re_page_label j rest = Some mo ->
  exists tok rest',
    rest = py "[Page: " ++ tok ++ "]"%char :: rest' /\
    tok <> [] /\ forallb isdecimal_char tok = true /\
    m_start mo = j /\
    span_of (m_caps mo) 1 = Some (j + 7, j + 7 + List.length tok).
Proof.
  intros H. apply match_at_sound in H as (e & rest' & g & Hm & ->).
  cbn [m_start m_caps]. unfold re_page_label in Hm. inv_matches.
  repeat match goal with
  | H : chr _ _ = true |- _ => apply (chr_eq _ _ _ eq_refl) in H; subst
  end.
  match goal with
  | Ht : forallb cls_d ?tok = true, Hl : 1 <= List.length ?tok
    |- exists _ _, _ :: _ :: _ :: _ :: _ :: _ :: _ :: ?tok ++ _ :: ?r = _ /\ _ =>
      exists tok, r; split; [reflexivity|];
      split; [eapply nonempty_length; exact Hl|]; split; [exact Ht|];
      split; [reflexivity|]
  end.
  cbn [span_of Nat.eqb]. do 2 f_equal; lia.
Qed.

Lemma take_while_before p pre c rest :
  p c = false -> List.length (take_while p (pre ++ c :: rest)) <= List.length pre.
Proof.
  intros Hc. induction pre as [|x pre IH]; cbn [app take_while List.length].
  - rewrite Hc. cbn. lia.
  - destruct (p x); cbn [List.length]; lia.
Qed.

Section TreeItemText.
Variables (t ds : str).
Hypothesis Hth : head_ok t = true.
Hypothesis Htl : last_ok t = true.
Hypothesis Hnb : forallb (fun c => negb (Ascii.eqb c "["%char)) t = true.
Hypothesis Hd1 : ds <> [].
Hypothesis Hd2 : forallb isdecimal_char ds = true.

Let text : str := t ++ py " [Page: " ++ ds ++ py "]".

Lemma item_text_length : List.length t + 1 <= List.length text.
Proof. unfold text. rewrite !length_app. cbn. lia. Qed.

Lemma skipn_item_text :
  skipn (List.length t + 1) text = py "[Page: " ++ ds ++ py "]".
Proof.
  unfold text. change (py " [Page: ") with (py " " ++ py "[Page: ").
  rewrite <- app_assoc, (app_assoc t (py " ")).
  replace (List.length t + 1) with (List.length (t ++ py " "))
    by (rewrite length_app; reflexivity).
  rewrite skipn_app, skipn_all, Nat.sub_diag. reflexivity.
Qed.

Lemma page_label_found :
  exists mo,
    match_at re_page_label (List.length t + 1) (py "[Page: " ++ ds ++ py "]") = Some mo.
Proof.
  eapply match_at_complete. unfold re_page_label.
  cbn [py list_ascii_of_string app].
  repeat (eapply M_Seq; [apply M_Cls; reflexivity|]).
  eapply M_Seq; [apply M_Grp; apply (@M_Rep cls_d 1 ds); [exact Hd2|]|].
  - destruct ds; [congruence|cbn; lia].
  - apply M_Cls. reflexivity.
Qed.

(** The first match of the pattern in the text of an item is its page
    label. *)
Lemma page_label_at j mo :
  j <= List.length text ->
  match_at re_page_label j (skipn j text) = Some mo ->
  (forall j', j' < j -> match_at re_page_label j' (skipn j' text) = None) ->
  m_start mo = List.length t + 1 /\ group text mo 1 = ds.
Proof.
  intros Hj Hm Hmin.
  destruct (page_label_shape _ _ _ Hm) as (tok & rest' & Hskip & Ht1 & Ht2 & Hstart & Hspan).
  assert (Hc : text = firstn j text ++ "["%char :: py "Page: " ++ tok ++ "]"%char :: rest')
    by (rewrite <- (firstn_skipn j text) at 1; rewrite Hskip; reflexivity).
  assert (Hlow : List.length t + 1 <= j).
  { pose proof (take_while_before (fun c => negb (Ascii.eqb c "["%char)) (firstn j text)
                  "["%char (py "Page: " ++ tok ++ "]"%char :: rest') eq_refl) as Hle.
    rewrite <- Hc in Hle. rewrite firstn_length_le in Hle by exact Hj.
    unfold text in Hle at 1. change (py " [Page: ") with (py " " ++ py "[Page: ") in Hle.
    rewrite <- app_assoc, (app_assoc t (py " ")) in Hle.
    change (py "[Page: " ++ ds ++ py "]") with ("["%char :: py "Page: " ++ ds ++ py "]") in Hle.
    rewrite take_while_app_stop in Hle;
      [rewrite length_app in Hle; exact Hle| |reflexivity].
    rewrite forallb_app, Hnb. reflexivity. }
  assert (Hjt : j = List.length t + 1).
  { destruct (Nat.eq_dec j (List.length t + 1)) as [E|E]; [exact E|]. exfalso.
    assert (Hlt : List.length t + 1 < j) by lia.
    specialize (Hmin _ Hlt). rewrite skipn_item_text in Hmin.
    destruct page_label_found as [mo' Hmo']. congruence. }
  split; [lia|].
  rewrite Hjt, skipn_item_text in Hskip.
  assert (Htok : ds = tok).
  { apply app_inv_head in Hskip.
    pose proof (f_equal (take_while isdecimal_char) Hskip) as Hq.
    change (py "]") with ("]"%char :: []) in Hq.
    rewrite !take_while_app_stop in Hq by auto. exact Hq. }
  subst tok. unfold group. rewrite Hspan.
  change 7 with (List.length (py "[Page: ")).
  apply slice_at with (rest := py "]"). rewrite Hjt. apply skipn_item_text.
Qed.

Lemma tree_item_line_eq level :
  tree_item_line level text
  = str_mul (py "    ") level ++ t ++ py " " ++ ds ++ [LF].
Proof.
  destruct page_label_found as [mo0 Hmo0].
  destruct (search_from_some re_page_label text 0 (List.length t + 1) mo0) as [mo Hmo].
  { apply item_text_length. }
  { cbn [Nat.add]. rewrite skipn_item_text. exact Hmo0. }
  pose proof Hmo as Hspec. apply search_from_spec in Hspec as (j & Hj & Hm & Hmin).
  cbn [Nat.add] in Hm, Hmin.
  destruct (page_label_at j mo Hj Hm Hmin) as (Hstart & Hgroup).
  unfold tree_item_line, re_search. rewrite Hmo. cbv zeta. rewrite Hstart, Hgroup.
  do 2 f_equal.
  assert (Hpre : firstn (List.length t + 1) text = [] ++ t ++ py " ").
  { unfold text. change (py " [Page: ") with (py " " ++ py "[Page: ").
    rewrite <- app_assoc, (app_assoc t (py " ")).
    replace (List.length t + 1) with (List.length (t ++ py " "))
      by (rewrite length_app; reflexivity).
    rewrite firstn_app, firstn_all, Nat.sub_diag. cbn [firstn app].
    rewrite app_nil_r. reflexivity. }
  rewrite Hpre. apply strip_frame; auto.
Qed.
End TreeItemText.

Lemma shown_title_facts t :
  shown_title t = true ->
  head_ok t = true /\ last_ok t = true /\
  forallb (fun c => negb (Ascii.eqb c "["%char)) t = true.
Proof.
  unfold shown_title. rewrite !andb_true_iff. tauto.
Qed.

Lemma tree_item_text_eq level s cs :
  tree_item_text level (TreeItem s cs)
  = tree_item_line level s ++ _build_outline_text cs (S level).
Proof.
  cbn [tree_item_text]. f_equal.
  induction cs as [|c cs IH]; [reflexivity|].
  cbn [_build_outline_text]. rewrite <- IH. reflexivity.
Qed.

(** The items are made when every page can be written, and are then the
    items of the nodes; otherwise the formatting raises. *)
Lemma add_nodes_made cs :
  Forall (fun c => add_node c = if all_printable [c] then Some (item_of c) else None) cs ->
  sequence (map add_node cs)
  = if all_printable cs then Some (map item_of cs) else None.
Proof.
  induction 1 as [|c cs Hc _ IH]; [reflexivity|].
  cbn [map sequence]. rewrite Hc, IH, (all_printable_cons c cs).
  destruct (all_printable [c]), (all_printable cs); reflexivity.
Qed.

Lemma add_node_made n :
  add_node n = if all_printable [n] then Some (item_of n) else None.
Proof.
  induction n as [t l p cs IH] using node_induction.
  cbn [add_node item_of]. rewrite all_printable_node, (add_nodes_made cs IH).
  unfold str_of_int.
  destruct (printable p), (all_printable cs); reflexivity.
Qed.

Lemma populate_treeview_eq f :
  populate_treeview f = if all_printable f then Some (map item_of f) else None.
Proof.
  unfold populate_treeview. apply add_nodes_made.
  apply Forall_forall. intros c _. apply add_node_made.
Qed.

(** The text of the item of a node is the lines of the node. *)
Lemma add_node_text n : forall level,
  (forall k, In k (preorder n) -> shown_title (n_title k) = true /\ (0 <= n_page k)%Z) ->
  tree_item_text level (item_of n) = terminated (node_lines level n).
Proof.
  induction n as [t l p cs IH] using node_induction. intros level Hs.
  destruct (Hs (Node t l p cs) (or_introl eq_refl)) as [Ht Hp]. cbn [n_title n_page] in Ht, Hp.
  apply shown_title_facts in Ht as (Hh & Hl & Hb).
  destruct (decimal_numeral_digits p Hp) as (Hd1 & Hd2 & _).
  cbn [item_of]. rewrite tree_item_text_eq, node_lines_eq.
  unfold terminated. cbn [map List.concat].
  fold (terminated (forest_lines (S level) cs)).
  rewrite tree_item_line_eq by assumption. unfold entry_line.
  rewrite <- !app_assoc. do 5 f_equal.
  assert (Hsub : forall k, In k (forest_preorder cs) ->
                           shown_title (n_title k) = true /\ (0 <= n_page k)%Z)
    by (intros k Hk; apply Hs; right; exact Hk).
  clear Hs Hh Hl Hb Hp Hd1 Hd2.
  induction IH as [|c cs Hc _ IHcs]; [reflexivity|].
  cbn [map _build_outline_text forest_lines]. rewrite terminated_app. f_equal.
  - apply Hc. intros k Hk. apply Hsub. cbn [forest_preorder flat_map].
    apply in_or_app. left. exact Hk.
  - apply IHcs. intros k Hk. apply Hsub. cbn [forest_preorder flat_map].
    apply in_or_app. right. exact Hk.
Qed.

Lemma add_nodes_text f : forall level,
  (forall k, In k (forest_preorder f) ->
             shown_title (n_title k) = true /\ (0 <= n_page k)%Z) ->
  _build_outline_text (map item_of f) level = terminated (forest_lines level f).
Proof.
  induction f as [|n f IH]; intros level H; [reflexivity|].
  cbn [map _build_outline_text forest_lines]. rewrite terminated_app. f_equal.
  - apply add_node_text. intros k Hk. apply H. cbn [forest_preorder flat_map].
    apply in_or_app. left. exact Hk.
  - apply IH. intros k Hk. apply H. cbn [forest_preorder flat_map].
    apply in_or_app. right. exact Hk.
Qed.

(** X16: the text rebuilt from the tree view is the import text: for a
    forest whose titles are not empty, have no white space at their ends and
    no opening bracket, and whose pages are not negative, populate_treeview
    followed by _build_outline_text gives what convert_json_to_text gives:
    the same text, or an error in both when a page has too many digits to
    be written. *)
Theorem tree_text_is_json_text (forest : list node)
  (H : forall n, In n (forest_preorder forest) ->
                 shown_title (n_title n) = true /\ (0 <= n_page n)%Z) :
  (let* items := populate_treeview forest in Some (_build_outline_text items 0))
  = convert_json_to_text forest 0.
Proof.
  rewrite populate_treeview_eq, convert_json_to_text_lines.
  destruct (all_printable forest); [|reflexivity].
  cbn [bind]. rewrite (add_nodes_text forest 0 H). reflexivity.
Qed.

Lemma tree_text_is_json_text_witness :
  (forall n,
     In n (forest_preorder [Node (py "Part I") 0 3 [Node (py "1.1 Start") 1 12 []];
                            Node (py "Index") 0 140 []]) ->
     shown_title (n_title n) = true /\ (0 <= n_page n)%Z) /\
  (let* items := populate_treeview [Node (py "Part I") 0 3 [Node (py "1.1 Start") 1 12 []];
                                    Node (py "Index") 0 140 []] in
   Some (_build_outline_text items 0))
  = convert_json_to_text [Node (py "Part I") 0 3 [Node (py "1.1 Start") 1 12 []];
                          Node (py "Index") 0 140 []] 0.
Proof.
  assert (H : forall n,
            In n (forest_preorder [Node (py "Part I") 0 3 [Node (py "1.1 Start") 1 12 []];
                                   Node (py "Index") 0 140 []]) ->
            shown_title (n_title n) = true /\ (0 <= n_page n)%Z)
    by (intros n [<- | [<- | [<- | []]]]; (split; [reflexivity|cbn; lia])).
  split; [exact H|]. exact (tree_text_is_json_text _ H).
Defined.

(** ** Document order *)

(** X17: the nodes of the forest that [parse_clean_outline] returns, taken
    parent first and children left to right, are the non-blank lines in
    their order: the node of a line has the title, the level (indentation
    divided by 4) and the page number that the loop computes for the line. *)
Theorem preorder_follows_the_lines (clean : str) (forest : list node)
  (H : parse_clean_outline clean = Some forest) :
  map node_entry (forest_preorder forest) = line_entries 0 (clean_lines_of clean).
Proof.
  destruct (parse_clean_outline_nested clean (returned_short _ _ H))
    as (forest' & Hp & _ & _ & He & _).
  rewrite Hp in H. injection H as <-. exact He.
Qed.

Lemma preorder_follows_the_lines_witness :
  parse_clean_outline (text_of_lines ["A 3"; "        B"; ""; "    C XIV"; "D"]%string)
  = Some [Node (py "A") 0 3 [Node (py "B") 2 3 []; Node (py "C") 1 14 []];
          Node (py "D") 0 14 []] /\
  map node_entry
      (forest_preorder [Node (py "A") 0 3 [Node (py "B") 2 3 []; Node (py "C") 1 14 []];
                        Node (py "D") 0 14 []])
  = line_entries 0 (clean_lines_of
                      (text_of_lines ["A 3"; "        B"; ""; "    C XIV"; "D"]%string)).
Proof.
  split; [reflexivity|].
  apply (preorder_follows_the_lines
           (text_of_lines ["A 3"; "        B"; ""; "    C XIV"; "D"]%string)).
  reflexivity.
Defined.
